(** * Commission reconciliation: normalizer, name matcher and ranking aggregator

    A shallow embedding of
      - [src/normalizer/normalizer.py]   (class [DataNormalizer]),
      - [src/utils/name_matcher.py]      ([normalize_name], [are_similar_names]),
      - [src/analyzer/performance_analyzer.py] ([calculate_top_performers]),
    together with the properties the specification states about them.
    The rest of these files ([match_names], [find_canonical_name],
    [group_similar_names]; [get_period_summary], [get_carrier_statistics],
    [get_top_performers_report]; [get_standard_columns]), the amount, name
    and period helpers of the carrier parsers in [src/parser/] and the
    callers in [main.py] are embedded as well, with properties read off
    the code.

    Modelling conventions.
      - A Python [str] is a [string]; characters are ASCII code points, on
        which Python's Unicode-aware predicates ([str.isspace], [\w], [\s],
        [str.lower], ...) coincide with the classes defined below.  Text
        beyond ASCII is outside this model, except in [Unicode], where the
        name cleaner is given on code points.
      - A Python [float] is a [pyfloat]: [nan], a signed infinity, or a finite
        value given by the exact rational the code's value is the nearest
        float to (in lowest terms).  Binary rounding is not modelled, so sums
        and roundings are those of the exact values.  The range of a float
        is modelled for [float()] of an [int], which raises beyond it; a
        decimal literal beyond it, which [float()] reads as inf, stays
        finite here.  In a column a Python [int] is identified with the
        float it converts to.
      - A pandas column is a [Series]: its dtype and its cells; a frame maps
        column labels to columns.  Printing is not modelled, except for the
        two warnings of the amount path, which are given as predicates.
      - A raised exception is the [Raise] branch of [result]; [try ... except]
        is [try_except] with the list of caught classes. *)

From Stdlib Require Import ZArith QArith Qabs Qround Ascii String Sorting.Sorted Permutation.
From Stdlib Require Import DecimalString Lqa.
From stdpp Require Import base list gmap strings.



(* ===================================================================== *)
(** * Exceptions *)
(* ===================================================================== *)

(** The exception classes that occur in the modelled code. *)
Inductive exn_class : Type :=
  | ValueError | TypeError | KeyError | AttributeError | OverflowError
  | AssertionError | PlainException.

Record exn : Type := MkExn { exn_cls : exn_class; exn_msg : string }.

Inductive result (A : Type) : Type :=
  | Ok (a : A)
  | Raise (e : exn).
Arguments Ok {A} a.
Arguments Raise {A} e.

(** Sequencing: an exception raised by the first statement propagates.
    With these instances, [x ← r; k] is stdpp's monadic notation. *)
#[global] Instance result_bind : MBind result :=
  fun A B (k : A -> result B) (r : result A) =>
    match r with Ok a => k a | Raise e => Raise e end.
#[global] Instance result_ret : MRet result := fun A a => Ok a.

#[global] Instance exn_class_eq_dec : EqDecision exn_class.
Proof. solve_decision. Defined.

(** [try: body except (c1, ..., cn) as e: handler e]. *)
Definition try_except {A} (body : result A) (caught : list exn_class)
    (handler : exn -> result A) : result A :=
  match body with
  | Ok a => Ok a
  | Raise e => if bool_decide (exn_cls e ∈ caught) then handler e else Raise e
  end.

(** [try: body except Exception as e: handler e] catches every class. *)
Definition try_except_all {A} (body : result A) (handler : exn -> result A)
  : result A :=
  match body with Ok a => Ok a | Raise e => handler e end.

Fixpoint mapM {A B} (f : A -> result B) (l : list A) : result (list B) :=
  match l with
  | [] => Ok []
  | a :: l' => b ← f a; bs ← mapM f l'; Ok (b :: bs)
  end.

Definition is_ok {A} (r : result A) : bool :=
  match r with Ok _ => true | Raise _ => false end.

(* ===================================================================== *)
(** * Python strings *)
(* ===================================================================== *)

Module PyStr.

Definition code (c : ascii) : N := N_of_ascii c.

Definition in_range (lo hi : N) (c : ascii) : bool :=
  ((lo <=? code c) && (code c <=? hi))%N.

(** [str.isspace] on ASCII: TAB..CR, FS..US and SPACE. *)
Definition is_space (c : ascii) : bool :=
  in_range 9 13 c || in_range 28 32 c.

Definition is_digit (c : ascii) : bool := in_range 48 57 c.
Definition is_upper (c : ascii) : bool := in_range 65 90 c.
Definition is_lower (c : ascii) : bool := in_range 97 122 c.
Definition is_alnum (c : ascii) : bool := is_digit c || is_upper c || is_lower c.

(** The regex class [\w] on ASCII. *)
Definition is_word (c : ascii) : bool := is_alnum c || Ascii.eqb c "_".

Definition lower_char (c : ascii) : ascii :=
  if is_upper c then ascii_of_N (code c + 32) else c.
Definition upper_char (c : ascii) : ascii :=
  if is_lower c then ascii_of_N (code c - 32) else c.

Fixpoint map_chars (f : ascii -> ascii) (s : string) : string :=
  match s with
  | EmptyString => EmptyString
  | String c s' => String (f c) (map_chars f s')
  end.

Fixpoint filter_chars (p : ascii -> bool) (s : string) : string :=
  match s with
  | EmptyString => EmptyString
  | String c s' => if p c then String c (filter_chars p s') else filter_chars p s'
  end.

Fixpoint all_chars (p : ascii -> bool) (s : string) : bool :=
  match s with
  | EmptyString => true
  | String c s' => p c && all_chars p s'
  end.

(** Text within ASCII, the scope of the character classes and of the case
    mappings above: beyond it Python goes by the Unicode tables (see
    [Unicode] below for the one place where that changes a result). *)
Definition is_ascii (s : string) : bool :=
  all_chars (fun c => (code c <? 128)%N) s.

(** [s.lower()] *)
Definition lower : string -> string := map_chars lower_char.

(** [s.capitalize()] on ASCII text: the first character in upper case, the
    rest in lower case. *)
Definition capitalize (s : string) : string :=
  match s with
  | EmptyString => EmptyString
  | String c s' => String (upper_char c) (lower s')
  end.

(** [s.replace(c, '')] for a one-character [c]. *)
Definition remove_char (c : ascii) : string -> string :=
  filter_chars (fun d => negb (Ascii.eqb d c)).

Definition is_empty (s : string) : bool :=
  match s with EmptyString => true | _ => false end.

Fixpoint lstrip (s : string) : string :=
  match s with
  | EmptyString => EmptyString
  | String c s' => if is_space c then lstrip s' else s
  end.

Fixpoint rstrip (s : string) : string :=
  match s with
  | EmptyString => EmptyString
  | String c s' =>
      let r := rstrip s' in
      if is_space c && is_empty r then EmptyString else String c r
  end.

(** [s.strip()] *)
Definition strip (s : string) : string := rstrip (lstrip s).

(** [s.startswith(p)] *)
Fixpoint startswith (p s : string) : bool :=
  match p, s with
  | EmptyString, _ => true
  | String a p', String b s' => Ascii.eqb a b && startswith p' s'
  | String _ _, EmptyString => false
  end.

Fixpoint drop (n : nat) (s : string) : string :=
  match n, s with
  | O, _ => s
  | S n', String _ s' => drop n' s'
  | S _, EmptyString => EmptyString
  end.

Fixpoint take (n : nat) (s : string) : string :=
  match n, s with
  | S n', String c s' => String c (take n' s')
  | _, _ => EmptyString
  end.

(** [s.endswith(p)] *)
Definition endswith (p s : string) : bool :=
  (String.length p <=? String.length s)%nat
  && String.eqb (drop (String.length s - String.length p) s) p.

(** [s[1:-1]] *)
Definition slice_1_m1 (s : string) : string :=
  take (String.length s - 2) (drop 1 s).

(** [s.split()]: the maximal runs of non-space characters. *)
Fixpoint split (s : string) : list string :=
  match s with
  | EmptyString => []
  | String c s' =>
      if is_space c then split s'
      else match s' with
           | EmptyString => [String c EmptyString]
           | String c' _ =>
               if is_space c' then String c EmptyString :: split s'
               else match split s' with
                    | w :: ws => String c w :: ws
                    | [] => [String c EmptyString]
                    end
           end
  end.

(** [sep.join(ws)] *)
Fixpoint join (sep : string) (ws : list string) : string :=
  match ws with
  | [] => EmptyString
  | [w] => w
  | w :: ws' => (w +:+ sep +:+ join sep ws')%string
  end.

(** [old in s] tested at every position; [contains old s]. *)
Fixpoint contains (p s : string) : bool :=
  startswith p s
  || match s with
     | EmptyString => false
     | String _ s' => contains p s'
     end.

(** [s.replace(old, new)] for a non-empty [old]: non-overlapping
    occurrences, leftmost first.  [fuel] bounds the number of characters
    still to scan. *)
Fixpoint replace_fuel (fuel : nat) (old new s : string) : string :=
  match fuel with
  | O => s
  | S fuel' =>
      match s with
      | EmptyString => EmptyString
      | String c s' =>
          if startswith old s
          then (new +:+ replace_fuel fuel' old new (drop (String.length old) s))%string
          else String c (replace_fuel fuel' old new s')
      end
  end.

Definition replace (old new s : string) : string :=
  replace_fuel (String.length s) old new s.

(** Predicates used to state facts about the functions above. *)

Definition no_space (c : ascii) : bool := negb (is_space c).

(** The first, resp. last, character (if any) is not a space character. *)
Fixpoint last_ok (s : string) : bool :=
  match s with
  | EmptyString => true
  | String c EmptyString => no_space c
  | String _ s' => last_ok s'
  end.

Definition first_ok (s : string) : bool :=
  match s with
  | EmptyString => true
  | String c _ => no_space c
  end.

(** A word: non-empty and free of space characters. *)
Definition is_token (w : string) : Prop :=
  w <> "" /\ all_chars no_space w = true.

End PyStr.

(* ===================================================================== *)
(** * Python floats and the [float(str)] constructor *)
(* ===================================================================== *)

Inductive pyfloat : Type :=
  | FNan
  | FInf (negative : bool)
  | FFin (q : Q).

Module PyFloat.
Import PyStr.
#[local] Open Scope Z_scope.

Definition zero : pyfloat := FFin 0.

(** 10 ** e as a rational. *)
Definition pow10 (e : Z) : Q :=
  if (0 <=? e)%Z then inject_Z (10 ^ e) else / inject_Z (10 ^ (- e)).

(** The finite float denoted by sign, decimal mantissa and decimal exponent. *)
Definition of_decimal (negative : bool) (mantissa : Z) (exponent : Z) : pyfloat :=
  FFin (Qred (inject_Z (if negative then - mantissa else mantissa) * pow10 exponent)).

Definition digit_value (c : ascii) : Z := Z.of_N (code c) - 48.

(** Value of a string of decimal digits, most significant first. *)
Fixpoint digits_value_from (acc : Z) (s : string) : Z :=
  match s with
  | EmptyString => acc
  | String c s' => digits_value_from (10 * acc + digit_value c) s'
  end.
Definition digits_value : string -> Z := digits_value_from 0.

(** Longest prefix of decimal digits, and what follows it. *)
Fixpoint span_digits (s : string) : string * string :=
  match s with
  | String c s' =>
      if is_digit c
      then let '(ds, rest) := span_digits s' in (String c ds, rest)
      else (EmptyString, s)
  | EmptyString => (EmptyString, EmptyString)
  end.

(** An optional sign: [(negative, rest)]. *)
Definition read_sign (s : string) : bool * string :=
  match s with
  | String "-" s' => (true, s')
  | String "+" s' => (false, s')
  | _ => (false, s)
  end.

(** exponent ::= ("e" | "E") [sign] digit+, up to the end of the string;
    no exponent at all is exponent 0. *)
Definition read_exponent (s : string) : option Z :=
  match s with
  | EmptyString => Some 0
  | String c s' =>
      if Ascii.eqb c "e" || Ascii.eqb c "E" then
        let '(neg, s1) := read_sign s' in
        let '(ds, rest) := span_digits s1 in
        if is_empty ds || negb (is_empty rest) then None
        else Some (if neg then - digits_value ds else digits_value ds)
      else None
  end.

(** [sign] ( "inf" | "infinity" | "nan" | digits ["." digits] [exponent] ),
    with at least one mantissa digit; the whole string must be consumed. *)
Definition parse_plain (s : string) : option pyfloat :=
  let '(neg, body) := read_sign s in
  let lw := lower body in
  if String.eqb lw "inf" || String.eqb lw "infinity" then Some (FInf neg)
  else if String.eqb lw "nan" then Some FNan
  else
    let '(ip, r1) := span_digits body in
    let '(fp, r2) :=
      match r1 with
      | String "." r => span_digits r
      | _ => (EmptyString, r1)
      end in
    if is_empty ip && is_empty fp then None
    else match read_exponent r2 with
         | Some e =>
             Some (of_decimal neg (digits_value (ip +:+ fp))
                              (e - Z.of_nat (String.length fp)))
         | None => None
         end.

(** An underscore is accepted only between two digits. *)
Fixpoint underscores_ok (prev : ascii) (s : string) : bool :=
  match s with
  | EmptyString => negb (Ascii.eqb prev "_")
  | String c s' =>
      (if Ascii.eqb c "_" then is_digit prev
       else negb (Ascii.eqb prev "_") || is_digit c)
      && underscores_ok c s'
  end.

Definition ValueError_float (s : string) : exn :=
  MkExn ValueError ("could not convert string to float: " +:+ s).

(** The whitespace [float()] skips at either end: TAB..CR and SPACE, the
    C locale's [isspace].  FS..US, which [str.strip] removes, are not
    among them: [float('5\x1c')] raises. *)
Definition is_c_space (c : ascii) : bool :=
  in_range 9 13 c || Ascii.eqb c " ".

Fixpoint skip_leading (s : string) : string :=
  match s with
  | EmptyString => EmptyString
  | String c s' => if is_c_space c then skip_leading s' else s
  end.

Fixpoint skip_trailing (s : string) : string :=
  match s with
  | EmptyString => EmptyString
  | String c s' =>
      let r := skip_trailing s' in
      if is_c_space c && is_empty r then EmptyString else String c r
  end.

(** [float(s)] for a [str]: surrounding whitespace is ignored, digit
    grouping underscores are checked and dropped, the rest is parsed;
    anything else raises [ValueError]. *)
Definition py_float (s : string) : result pyfloat :=
  let t := skip_trailing (skip_leading s) in
  if underscores_ok "000" t
  then match parse_plain (remove_char "_" t) with
       | Some f => Ok f
       | None => Raise (ValueError_float s)
       end
  else Raise (ValueError_float s).

(** The integers [float()] converts: those that round to a finite binary64
    value, i.e. of magnitude below 2^1024 - 2^970, half a unit in the last
    place above the largest float. *)
Definition float_limit : Z := 2 ^ 1024 - 2 ^ 970.

Definition OverflowError_int : exn :=
  MkExn OverflowError "int too large to convert to float".

(** [float(z)] for an [int]. *)
Definition float_of_int (z : Z) : result pyfloat :=
  if Z.abs z <? float_limit then Ok (FFin (inject_Z z))
  else Raise OverflowError_int.

End PyFloat.

(* ===================================================================== *)
(** * pandas values: cells, Series, DataFrame *)
(* ===================================================================== *)

(** A scalar stored in a column, as the carrier readers deliver it:
    [None], a float (NaN is the missing-value marker) or a string. *)
Inductive cell : Type :=
  | VNone
  | VFloat (f : pyfloat)
  | VStr (s : string).

(** [pd.isna(v)] *)
Definition isna (v : cell) : bool :=
  match v with
  | VNone | VFloat FNan => true
  | _ => false
  end.

(** Any object [clean_amount] can be called with: what a cell of a frame
    holds, or an [int] (of any size; a [bool] is one), a list of two or more
    scalars, or some other object that is no [int], [float], [str] or
    list-like (a [numpy.int64], a [Decimal], a tuple, [pd.NA], ...), of which
    only what [pd.isna] answers matters.  A list of one scalar behaves as
    an object of the last kind, with the answer [pd.isna] gives for the
    scalar; the truth value of the empty boolean array that [pd.isna([])]
    returns depends on the numpy version and is left out. *)
Inductive pyobject : Type :=
  | Scalar (v : cell)
  | PyInt (z : Z)
  | PyList (first second : cell) (rest : list cell)
  | Opaque (missing : bool).

Coercion Scalar : cell >-> pyobject.

Definition ValueError_ambiguous : exn :=
  MkExn ValueError
    "The truth value of an array with more than one element is ambiguous. Use a.any() or a.all()".

(** [if pd.isna(val):], the test as a condition.  On a list [pd.isna]
    answers element by element, and an array of several booleans has no
    truth value. *)
Definition isna_test (val : pyobject) : result bool :=
  match val with
  | Scalar v => Ok (isna v)
  | PyInt _ => Ok false
  | PyList _ _ _ => Raise ValueError_ambiguous
  | Opaque missing => Ok missing
  end.

Inductive Dtype : Type := float64 | object.

Record Series : Type := MkSeries { dtype : Dtype; values : list cell }.

(** A frame maps each column label to its column. *)
Abbreviation DataFrame := (gmap string Series).

Definition KeyError_column (col : string) : exn := MkExn KeyError col.

(** [df[col]] *)
Definition getitem (df : DataFrame) (col : string) : result Series :=
  match df !! col with
  | Some ser => Ok ser
  | None => Raise (KeyError_column col)
  end.

(** [col in df.columns] *)
Definition has_column (df : DataFrame) (col : string) : bool :=
  bool_decide (is_Some (df !! col)).

(** [ser.apply(f)] for an [f] returning strings. *)
Definition apply_str (f : cell -> string) (ser : Series) : Series :=
  MkSeries object (map (fun v => VStr (f v)) (values ser)).

(** [df[col] = None]: a column holding [None] in every row. *)
Definition none_column (rows : nat) : Series :=
  MkSeries object (repeat VNone rows).

(** The [.str] accessor is refused with [AttributeError] unless pandas infers
    the column (missing values skipped) to be "string", "mixed" or "empty":
    a [float64] column is refused, and so is an [object] column whose
    non-missing values are all floats. *)
Definition is_str_cell (v : cell) : bool :=
  match v with VStr _ => true | _ => false end.

Definition str_accessor_ok (ser : Series) : bool :=
  match dtype ser with
  | float64 => false
  | object =>
      let present := filter (fun v => negb (isna v)) (values ser) in
      match present with
      | [] => true
      | _ => existsb is_str_cell present
      end
  end.

Definition AttributeError_str : exn :=
  MkExn AttributeError "Can only use .str accessor with string values!".

(* ===================================================================== *)
(** * normalizer.py: class DataNormalizer *)
(* ===================================================================== *)

Section Normalizer.
Import PyStr PyFloat.

(** [pd.to_datetime(ser, format='mixed', errors='coerce')
       .dt.strftime('%Y-%m-%d')], pandas' date parser and formatter. *)
Variable to_datetime_strftime : Series -> result Series.

(** [str(x)] for a finite float [x] (Python's shortest round-trip
    rendering of the binary value). *)
Variable float_repr : Q -> string.

(** [str(v)] *)
Definition py_str (v : cell) : string :=
  match v with
  | VNone => "None"
  | VFloat FNan => "nan"
  | VFloat (FInf false) => "inf"
  | VFloat (FInf true) => "-inf"
  | VFloat (FFin q) => float_repr q
  | VStr s => s
  end.

Definition date_columns : list string :=
  ["enrollment_date"; "disenrollment_date"; "effective_date"; "processed_date"].

Definition normalize_date_column (data : DataFrame) (col : string) : DataFrame :=
  match data !! col with
  | Some ser =>
      match to_datetime_strftime ser with
      | Ok ser' => <[col := ser']> data
      | Raise _ => <[col := none_column (length (values ser))]> data
      end
  | None => data
  end.

Definition normalize_dates (data : DataFrame) : DataFrame :=
  foldl normalize_date_column data date_columns.

(** The three rewriting steps applied to a string before [float()]. *)
Definition strip_currency (val : string) : string :=
  strip (remove_char "," (remove_char "$" val)).

Definition rewrite_parens (val : string) : string :=
  if startswith "(" val && endswith ")" val
  then String "-" (slice_1_m1 val) else val.

Definition rewrite_minus_dollar (val : string) : string :=
  if startswith "-$" val then String "-" (drop 2 val) else val.

(** The test [pd.isna(val)] stands before the [try]; what the [try] does
    not return on, the last line answers with 0.0. *)
Definition clean_amount (val : pyobject) : result pyfloat :=
  missing ← isna_test val;
  if missing : bool then Ok zero
  else
    try_except
      (match val with
       | PyInt z => float_of_int z
       | Scalar (VFloat f) => Ok f
       | Scalar (VStr s) =>
           py_float (rewrite_minus_dollar (rewrite_parens (strip_currency s)))
       | _ => Ok zero
       end)
      [ValueError; TypeError]
      (fun _ => Ok zero).

Definition normalize_amounts (data : DataFrame) : result DataFrame :=
  ser ← getitem data "commission_amount";
  amounts ← mapM (fun val : cell => clean_amount val) (values ser);
  Ok (<["commission_amount" := MkSeries float64 (map VFloat amounts)]> data).

Definition clean_name (name : cell) : string :=
  if isna name || is_empty (strip (py_str name)) then "Unknown Agent"
  else
    let name := strip (py_str name) in
    join " " (map capitalize (split name)).

Definition apply_if_present (col : string) (f : Series -> Series)
    (data : DataFrame) : DataFrame :=
  match data !! col with
  | Some ser => <[col := f ser]> data
  | None => data
  end.

Definition normalize_names (data : DataFrame) : DataFrame :=
  apply_if_present "agency_name" (apply_str clean_name)
    (apply_if_present "agent_name" (apply_str clean_name) data).

Definition transaction_mapping : list (string * string) :=
  [ ("new", "New");
    ("renewal", "Renewal");
    ("renew", "Renewal");
    ("cancel", "Cancellation");
    ("cancellation", "Cancellation");
    ("terminate", "Termination");
    ("termination", "Termination");
    ("adjustment", "Adjustment");
    ("adj", "Adjustment");
    ("bonus", "Bonus");
    ("commission", "Commission");
    ("reversal", "Reversal");
    ("correction", "Correction") ].

(** [mapping.get(key)] *)
Fixpoint dict_get (mapping : list (string * string)) (key : string)
  : option string :=
  match mapping with
  | [] => None
  | (k, v) :: rest => if String.eqb k key then Some v else dict_get rest key
  end.

(** One element of a column that admits the [.str] accessor, through
    [.str.lower().map(transaction_mapping).fillna('Other')]: a non-string
    becomes NaN under [.str.lower()], an unmapped key becomes NaN under
    [.map], NaN becomes 'Other'.  Whether the column admits the accessor is
    decided in [standardize_transaction_types], which raises where it does
    not. *)
Definition map_transaction_type (v : cell) : string :=
  match v with
  | VStr s =>
      match dict_get transaction_mapping (lower s) with
      | Some t => t
      | None => "Other"
      end
  | _ => "Other"
  end.

Definition standardize_transaction_types (data : DataFrame) : result DataFrame :=
  match data !! "transaction_type" with
  | Some ser =>
      if str_accessor_ok ser
      then Ok (<["transaction_type" := apply_str map_transaction_type ser]> data)
      else Raise AttributeError_str
  | None => Ok data
  end.

(** One element through [.astype(str).str.strip()
    .str.replace(r'[^a-zA-Z0-9]', '', regex=True)]. *)
Definition clean_member_id (v : cell) : string :=
  filter_chars is_alnum (strip (py_str v)).

Definition clean_member_ids (data : DataFrame) : DataFrame :=
  apply_if_present "member_id" (apply_str clean_member_id) data.

Definition required_fields : list string :=
  ["carrier_name"; "commission_period"; "agent_name"; "commission_amount"].

Definition ValueError_missing (missing : list string) : exn :=
  MkExn ValueError ("Missing required fields: " +:+ join ", " missing).

(** [ser.loc[ser.isna()] = 0.0] *)
Definition fill_invalid_amount (v : cell) : cell :=
  if isna v then VFloat zero else v.

Definition validate_required_fields (data : DataFrame) : result DataFrame :=
  let missing_fields :=
    filter (fun f => negb (has_column data f)) required_fields in
  match missing_fields with
  | _ :: _ => Raise (ValueError_missing missing_fields)
  | [] =>
      ser ← getitem data "commission_amount";
      Ok (<["commission_amount" :=
              MkSeries (dtype ser) (map fill_invalid_amount (values ser))]> data)
  end.

(** The two warnings the amount path prints.  [clean_amount] prints one
    in its [except] branch; [validate_required_fields] prints one when
    [invalid_amounts = self.data['commission_amount'].isna().sum()] is
    positive. *)
Definition clean_amount_warns (val : cell) : bool :=
  negb (isna val)
  && match val with
     | VStr s =>
         negb (is_ok (py_float
                        (rewrite_minus_dollar (rewrite_parens (strip_currency s)))))
     | _ => false
     end.

Definition invalid_amounts (data : DataFrame) : nat :=
  match data !! "commission_amount" with
  | Some ser => length (filter (fun v => isna v = true) (values ser))
  | None => 0
  end.

Definition validate_warns (data : DataFrame) : bool :=
  (0 <? invalid_amounts data)%nat.

(** The frame that reaches [validate_required_fields]. *)
Definition stages_before_validation (data : DataFrame) : result DataFrame :=
  let data := normalize_dates data in
  data ← normalize_amounts data;
  let data := normalize_names data in
  data ← standardize_transaction_types data;
  Ok (clean_member_ids data).

Definition NormalizationError (e : exn) : exn :=
  MkExn PlainException ("Error during normalization: " +:+ exn_msg e).

Definition normalize (data : DataFrame) : result DataFrame :=
  try_except_all
    (let data := normalize_dates data in
     data ← normalize_amounts data;
     let data := normalize_names data in
     data ← standardize_transaction_types data;
     let data := clean_member_ids data in
     data ← validate_required_fields data;
     Ok data)
    (fun e => Raise (NormalizationError e)).

(** [DataNormalizer(df)]: the constructor copies the frame and prints
    [self.data[['agent_name', 'commission_amount']].head()]. *)
Definition DataNormalizer_init (df : DataFrame) : result DataFrame :=
  _ ← getitem df "agent_name";
  _ ← getitem df "commission_amount";
  Ok df.

(** [DataNormalizer(df).normalize()] *)
Definition run_normalizer (df : DataFrame) : result DataFrame :=
  data ← DataNormalizer_init df;
  normalize data.

End Normalizer.

(* ===================================================================== *)
(** * Names beyond ASCII *)
(* ===================================================================== *)

(** [clean_name] on a [str] given by its code points.  Whitespace is
    Unicode's; the case mappings are those of the Unicode Character
    Database on ASCII, on U+0149 (LATIN SMALL LETTER N PRECEDED BY
    APOSTROPHE) and on U+02BC (MODIFIER LETTER APOSTROPHE), and are left
    open ([None]) on every other character. *)
Module Unicode.
#[local] Open Scope N_scope.

Definition text : Type := list N.

Fixpoint of_string (s : string) : text :=
  match s with
  | EmptyString => []
  | String c s' => PyStr.code c :: of_string s'
  end.

Definition between (lo hi c : N) : bool := (lo <=? c) && (c <=? hi).

(** [str.isspace] of one character. *)
Definition is_space (c : N) : bool :=
  between 9 13 c || between 28 32 c || (c =? 133) || (c =? 160) || (c =? 5760)
  || between 8192 8202 c || (c =? 8232) || (c =? 8233) || (c =? 8239)
  || (c =? 8287) || (c =? 12288).

(** The title-case and the lower-case mapping of one character; U+0149
    has no title-case character of its own and maps to two characters. *)
Definition to_title (c : N) : option text :=
  if c <? 128 then Some [if between 97 122 c then c - 32 else c]
  else if c =? 329 then Some [700; 78]
  else if c =? 700 then Some [700]
  else None.

Definition to_lower (c : N) : option text :=
  if c <? 128 then Some [if between 65 90 c then c + 32 else c]
  else if (c =? 329) || (c =? 700) then Some [c]
  else None.

(** [s.lower()] *)
Fixpoint lower (s : text) : option text :=
  match s with
  | [] => Some []
  | c :: s' => l ← to_lower c; r ← lower s'; Some (l ++ r)
  end.

(** [s.capitalize()]: the first character in title case, the rest in
    lower case. *)
Definition capitalize (s : text) : option text :=
  match s with
  | [] => Some []
  | c :: s' => t ← to_title c; r ← lower s'; Some (t ++ r)
  end.

Definition is_empty (s : text) : bool :=
  match s with [] => true | _ => false end.

Fixpoint lstrip (s : text) : text :=
  match s with
  | [] => []
  | c :: s' => if is_space c then lstrip s' else s
  end.

Fixpoint rstrip (s : text) : text :=
  match s with
  | [] => []
  | c :: s' =>
      let r := rstrip s' in
      if is_space c && is_empty r then [] else c :: r
  end.

(** [s.strip()] *)
Definition strip (s : text) : text := rstrip (lstrip s).

(** [s.split()] *)
Fixpoint split (s : text) : list text :=
  match s with
  | [] => []
  | c :: s' =>
      if is_space c then split s'
      else match s' with
           | [] => [[c]]
           | c' :: _ =>
               if is_space c' then [c] :: split s'
               else match split s' with
                    | w :: ws => (c :: w) :: ws
                    | [] => [[c]]
                    end
           end
  end.

(** [sep.join(ws)] *)
Fixpoint join (sep : text) (ws : list text) : text :=
  match ws with
  | [] => []
  | [w] => w
  | w :: ws' => w ++ sep ++ join sep ws'
  end.

(** [[word.capitalize() for word in ws]] *)
Fixpoint capitalize_all (ws : list text) : option (list text) :=
  match ws with
  | [] => Some []
  | w :: ws' => w' ← capitalize w; r ← capitalize_all ws'; Some (w' :: r)
  end.

(** [clean_name(name)] for a [str]. *)
Definition clean_name (name : text) : option text :=
  if is_empty (strip name) then Some (of_string "Unknown Agent")
  else
    let name := strip name in
    words ← capitalize_all (split name);
    Some (join [32] words).

End Unicode.

(* ===================================================================== *)
(** * name_matcher.py *)
(* ===================================================================== *)

Section NameMatcher.
Import PyStr.

Variable float_repr : Q -> string.

(** [difflib.SequenceMatcher(None, a, b).ratio()], the standard library's
    similarity ratio. *)
Variable sequence_ratio : string -> string -> Q.

(** [re.sub(r'[^\w\s-]', '', name)] *)
Definition strip_punctuation : string -> string :=
  filter_chars (fun c => is_word c || is_space c || Ascii.eqb c "-").

(** The keys of [replacements], in the order the dict lists them; every
    key is replaced by a single space. *)
Definition replacements : list (string * string) :=
  [ (" inc ", " ");
    (" incorporated ", " ");
    (" corp ", " ");
    (" corporation ", " ");
    (" llc ", " ");
    (" ltd ", " ");
    (" limited ", " ") ].

Definition apply_replacements (name : string) : string :=
  foldl (fun name '(old, new) => replace old new name) name replacements.

(** The body of [normalize_name] once [str(name)] is taken. *)
Definition normalize_name_str (name : string) : string :=
  let name := strip (lower name) in
  let name := join " " (split name) in
  let name := strip_punctuation name in
  let name := apply_replacements name in
  strip name.

Definition normalize_name (name : cell) : string :=
  if isna name then "" else normalize_name_str (py_str float_repr name).

(** [set(name.split())] *)
Definition word_set (name : string) : gset string :=
  list_to_set (split name).

Definition are_similar_names (name1 name2 : cell) (threshold : Q) : bool :=
  let name1 := normalize_name name1 in
  let name2 := normalize_name name2 in
  if is_empty name1 || is_empty name2 then false
  else if String.eqb name1 name2 then true
  else if contains name1 name2 || contains name2 name1 then true
  else
    let words1 := word_set name1 in
    let words2 := word_set name2 in
    let common_words := words1 ∩ words2 in
    if (Nat.min (size words1) (size words2) <=? size common_words)%nat then true
    else Qle_bool threshold (sequence_ratio name1 name2).

End NameMatcher.

(* ===================================================================== *)
(** * performance_analyzer.py: calculate_top_performers *)
(* ===================================================================== *)

Module Analyzer.
Import PyStr.
#[local] Open Scope Z_scope.

(** A row of a batch, restricted to the four columns the aggregator
    reads, for batches that hold a string in the carrier, the period and
    the agent column and a finite number in the amount column.  (The
    normalizer guarantees this of the agent column only: it leaves a
    missing carrier or period as it is, and "inf" cleans to an infinite
    amount.)  On such rows [pd.to_numeric(..., errors='coerce').fillna(0.0)]
    leaves the amount as it is. *)
Record Row : Type := MkRow {
  carrier_name : string;
  commission_period : string;
  agent_name : string;
  commission_amount : Q
}.

Record Entry : Type := MkEntry {
  entry_agent_name : string;
  total_commission : Q;
  avg_commission : Q;
  transaction_count : nat;
  carriers : string
}.

(** [ser.unique()]: distinct values in order of first appearance. *)
Definition unique (l : list string) : list string :=
  foldl (fun seen x => if bool_decide (x ∈ seen) then seen else seen ++ [x]) [] l.

(** [sorted(strings)] *)
Fixpoint insert_sorted (x : string) (l : list string) : list string :=
  match l with
  | [] => [x]
  | y :: l' => if String.leb x y then x :: l else y :: insert_sorted x l'
  end.
Definition sorted : list string -> list string := foldr insert_sorted [].

(** [ser.sum()] of the exact values; the code adds binary floats, so its
    total can differ from this one in the last places. *)
Definition Qsum (l : list Q) : Q := foldr Qplus 0%Q l.

(** [round(x, 2)] of the exact value: to the nearest hundredth, ties to
    the even one.  The code rounds the binary value, which can lie on the
    other side of a tie. *)
Definition round_half_even (x : Q) : Z :=
  let f := Qfloor x in
  match (x - inject_Z f ?= 1 # 2)%Q with
  | Lt => f
  | Gt => f + 1
  | Eq => if Z.even f then f else f + 1
  end.
Definition round2 (x : Q) : Q :=
  Qred (inject_Z (round_half_even (x * 100)) / 100).

(** The dict appended to [totals] for one agent. *)
Definition agent_totals (df : list Row) (agent : string) : Entry :=
  let agent_data := filter (fun r => String.eqb (agent_name r) agent) df in
  let amounts := map commission_amount agent_data in
  let total := Qsum amounts in
  let avg := (total / inject_Z (Z.of_nat (length amounts)))%Q in
  MkEntry agent total avg (length agent_data)
          (join ", " (sorted (unique (map carrier_name agent_data)))).

(** [result.sort_values('total_commission', ascending=False)].  pandas
    leaves the order among equal totals to its sorting algorithm
    (quicksort by default); here the earlier row stays first. *)
Fixpoint insert_desc (e : Entry) (l : list Entry) : list Entry :=
  match l with
  | [] => [e]
  | h :: t =>
      if Qle_bool (total_commission h) (total_commission e)
      then e :: l else h :: insert_desc e t
  end.
Definition sort_values_desc : list Entry -> list Entry := foldr insert_desc [].

Definition round_entry (e : Entry) : Entry :=
  MkEntry (entry_agent_name e) (round2 (total_commission e))
          (round2 (avg_commission e)) (transaction_count e) (carriers e).

Definition nat_to_string (k : nat) : string :=
  NilEmpty.string_of_uint (Nat.to_uint k).

(** The row appended for index [i]. *)
Definition placeholder (i : nat) : Entry :=
  MkEntry ("Agent_" +:+ nat_to_string (i + 1)) 0 0 0 "N/A".

(** [for i in range(current_count, n): result = concat(result, new_row)] *)
Definition fill_to (n : nat) (result : list Entry) : list Entry :=
  let current_count := length result in
  result ++ map placeholder (seq current_count (n - current_count)).

(** The final verification loop: the first [i] with
    [values[i] < values[i+1]], if any. *)
Fixpoint first_sort_error (i : nat) (vals : list Q) : option nat :=
  match vals with
  | a :: ((b :: _) as rest) =>
      if Qlt_le_dec a b then Some i else first_sort_error (S i) rest
  | _ => None
  end.

Definition ValueError_sort (i : nat) : exn :=
  MkExn ValueError ("Sort error: Position " +:+ nat_to_string i).

Definition calculate_top_performers (data : list Row) (n : nat) (period : string)
  : result (list Entry) :=
  let df := filter (fun r => String.eqb (commission_period r) period) data in
  let totals := map (agent_totals df) (unique (map agent_name df)) in
  (* pd.DataFrame([]) has no columns at all *)
  result ← match totals with
            | [] => Raise (KeyError_column "total_commission")
            | _ => Ok (sort_values_desc totals)
            end;
  let result := map round_entry result in
  let result := fill_to n result in
  let result := firstn n result in
  match first_sort_error 0 (map total_commission result) with
  | Some i => Raise (ValueError_sort i)
  | None => Ok result
  end.

End Analyzer.

(* ===================================================================== *)
(** * Definitions that follow the specification's wording *)
(* ===================================================================== *)

Module Spec.
Import PyStr PyFloat.

(** The closed target vocabulary of the transaction-type mapper. *)
Definition vocabulary : list string :=
  ["New"; "Renewal"; "Cancellation"; "Termination"; "Adjustment"; "Bonus";
   "Commission"; "Reversal"; "Correction"; "Other"].

(** Layer 3 of the similarity rule as the specification words it: the
    token set of the shorter name (the one with fewer distinct tokens) is
    contained in the token set of the longer one. *)
Definition shorter_tokens_contained (name1 name2 : string) : bool :=
  let words1 := word_set name1 in
  let words2 := word_set name2 in
  if (size words1 <=? size words2)%nat
  then bool_decide (words1 ⊆ words2)
  else bool_decide (words2 ⊆ words1).

(** [p in s] as the language defines it: [p] occurs somewhere in [s]. *)
Definition occurs_in (p s : string) : Prop :=
  exists l r, s = l +:+ p +:+ r.

(** What stands next to a whitespace-delimited token: a space character,
    or an end of the string. *)
Definition boundary_after (r : string) : bool :=
  match r with
  | EmptyString => true
  | String c _ => is_space c
  end.

Fixpoint boundary_before (l : string) : bool :=
  match l with
  | EmptyString => true
  | String c EmptyString => is_space c
  | String _ l' => boundary_before l'
  end.

(** [w] is one of the whitespace-delimited tokens of [s]: a non-empty run
    of non-space characters of [s] that cannot be extended on either
    side. *)
Definition token_of (w s : string) : Prop :=
  is_token w
  /\ exists l r, s = l +:+ w +:+ r
                 /\ boundary_before l = true /\ boundary_after r = true.



(** A null, empty or whitespace-only name. *)
Definition blank_name (v : cell) : Prop :=
  isna v = true \/ exists s, v = VStr s /\ strip s = "".

(** An amount as it is written: a parenthesized negative or not, a dollar
    sign before the parenthesis, inside it (or plainly in front), or absent,
    the integer digits in comma-separated groups, and optionally a point
    followed by fraction digits.  Digits are numbers below ten. *)
Inductive dollar_sign : Type := NoDollar | DollarOutside | DollarInside.

Record written_amount : Type := MkWritten {
  wa_negative : bool;
  wa_dollar : dollar_sign;
  wa_groups : list (list nat);
  wa_fraction : option (list nat)
}.

Definition digit_char (d : nat) : ascii := ascii_of_nat (48 + d).
Arguments digit_char : simpl never.

Fixpoint render_digits (ds : list nat) : string :=
  match ds with
  | [] => EmptyString
  | d :: ds' => String (digit_char d) (render_digits ds')
  end.

Definition render_fraction (f : option (list nat)) : string :=
  match f with
  | Some ds => String "." (render_digits ds)
  | None => EmptyString
  end.

Definition render (w : written_amount) : string :=
  let outside := match wa_dollar w with DollarOutside => "$" | _ => "" end in
  let inside := match wa_dollar w with DollarInside => "$" | _ => "" end in
  let body := join "," (map render_digits (wa_groups w))
              +:+ render_fraction (wa_fraction w) in
  if wa_negative w
  then outside +:+ "(" +:+ inside +:+ body +:+ ")"
  else outside +:+ inside +:+ body.

(** The number a digit sequence denotes. *)
Definition horner (ds : list nat) : Z :=
  fold_left (fun acc d => (10 * acc + Z.of_nat d)%Z) ds 0%Z.

Definition written_value (w : written_amount) : Q :=
  let magnitude :=
    (inject_Z (horner (concat (wa_groups w)))
     + match wa_fraction w with
       | Some ds => inject_Z (horner ds) / inject_Z (10 ^ Z.of_nat (length ds))
       | None => 0
       end)%Q in
  if wa_negative w then (- magnitude)%Q else magnitude.

Definition well_formed (w : written_amount) : Prop :=
  wa_groups w <> []
  /\ Forall (fun g => g <> [] /\ Forall (fun d => d < 10) g) (wa_groups w)
  /\ match wa_fraction w with
     | Some ds => Forall (fun d => d < 10) ds
     | None => True
     end.

(** The digits of the integer part, and of the fraction, as text. *)
Definition integer_text (w : written_amount) : string :=
  render_digits (concat (wa_groups w)).

Definition fraction_text (w : written_amount) : option string :=
  option_map render_digits (wa_fraction w).

(** The text of a plain decimal literal: a sign, integer digits and an
    optional point with fraction digits. *)
Definition plain_text (negative : bool) (ip : string) (fp : option string) : string :=
  (if negative then "-" else "") +:+ ip
  +:+ match fp with Some f => String "." f | None => "" end.

Definition fraction_digits (fp : option string) : string :=
  match fp with Some f => f | None => "" end.

(** The characters of such a text. *)
Definition plain_char (c : ascii) : bool :=
  is_digit c || Ascii.eqb c "-" || Ascii.eqb c ".".

(** [val.replace('$', '').replace(',', '')] *)
Definition remove_currency (s : string) : string :=
  remove_char "," (remove_char "$" s).

(** An entry may stand directly before another in a descending ranking. *)
Definition ranks_before (a b : Analyzer.Entry) : Prop :=
  (Analyzer.total_commission b <= Analyzer.total_commission a)%Q.

(** The rounded, sorted totals of the agents of a period: the real entries
    of the leaderboard. *)
Definition ranked_agents (data : list Analyzer.Row) (period : string)
  : list Analyzer.Entry :=
  let df := filter (fun r => String.eqb (Analyzer.commission_period r) period) data in
  map Analyzer.round_entry
    (Analyzer.sort_values_desc
       (map (Analyzer.agent_totals df) (Analyzer.unique (map Analyzer.agent_name df)))).

(** Each value is at most the one before it. *)
Definition non_increasing (l : list Q) : Prop :=
  forall i a b, l !! i = Some a -> l !! S i = Some b -> (b <= a)%Q.

(** Two cells hold the same value up to the kind of missing value: they
    are equal, or both are missing ([None] or NaN). *)
Definition cell_equiv (a b : cell) : Prop :=
  a = b \/ (isna a = true /\ isna b = true).

Definition series_equiv (s t : Series) : Prop :=
  dtype s = dtype t /\ Forall2 cell_equiv (values s) (values t).

(** Two frames have the same columns, with the same dtypes and the same
    values up to the kind of missing value. *)
Definition frame_equiv (d e : DataFrame) : Prop :=
  forall col, option_Forall2 series_equiv (d !! col) (e !! col).

(** A cell, and a frame, whose text is ASCII. *)
Definition ascii_cell (v : cell) : bool :=
  match v with
  | VStr s => is_ascii s
  | _ => true
  end.

Definition ascii_frame (d : DataFrame) : Prop :=
  map_Forall (fun _ ser => forallb ascii_cell (values ser) = true) d.

Section NormalizedColumn.
Variable to_datetime_strftime : Series -> result Series.
Variable float_repr : Q -> string.

(** What a date column becomes. *)
Definition date_column (ser : Series) : Series :=
  match to_datetime_strftime ser with
  | Ok ser' => ser'
  | Raise _ => none_column (length (values ser))
  end.

(** What an amount becomes: the cleaned float, with NaN replaced by 0.0. *)
Definition amount_of (v : cell) : pyfloat :=
  match clean_amount v with Ok f => f | Raise _ => zero end.

(** The amount column after the amount stage, and what the validation
    stage makes of a column. *)
Definition amounts_cleaned (ser : Series) : Series :=
  MkSeries float64 (map (fun v => VFloat (amount_of v)) (values ser)).

Definition amounts_filled (ser : Series) : Series :=
  MkSeries (dtype ser) (map fill_invalid_amount (values ser)).

Definition amount_column (ser : Series) : Series :=
  MkSeries float64
    (map (fun v => fill_invalid_amount (VFloat (amount_of v))) (values ser)).

(** What normalization makes of the column labelled [col]. *)
Definition normalized_column (col : string) (ser : Series) : Series :=
  if bool_decide (col ∈ date_columns) then date_column ser
  else if String.eqb col "commission_amount" then amount_column ser
  else if String.eqb col "agent_name" || String.eqb col "agency_name"
       then apply_str (clean_name float_repr) ser
  else if String.eqb col "transaction_type" then apply_str map_transaction_type ser
  else if String.eqb col "member_id" then apply_str (clean_member_id float_repr) ser
  else ser.

(** The normalized frame: every column transformed by its own rule. *)
Definition normalized_frame (df : DataFrame) : DataFrame :=
  map_imap (fun col ser => Some (normalized_column col ser)) df.

(** The frames the pipeline accepts: the required columns are there, and
    the transaction-type column, if any, admits the [.str] accessor. *)
Definition accepted (df : DataFrame) : bool :=
  forallb (has_column df) required_fields
  && match df !! "transaction_type" with
     | Some ser => str_accessor_ok ser
     | None => true
     end.

End NormalizedColumn.

End Spec.

(* ===================================================================== *)
(** * Sample data *)
(* ===================================================================== *)

Module Examples.
Import PyStr.

(** A stand-in for pandas' date conversion: it keeps strings of the form
    dddd-dd-dd and turns every other value into NaN. *)
Definition is_iso_date (s : string) : bool :=
  match list_ascii_of_string s with
  | [y1; y2; y3; y4; h1; m1; m2; h2; d1; d2] =>
      forallb is_digit [y1; y2; y3; y4; m1; m2; d1; d2]
      && Ascii.eqb h1 "-" && Ascii.eqb h2 "-"
  | _ => false
  end.

Definition iso_or_nan (v : cell) : cell :=
  match v with
  | VStr s => if is_iso_date s then VStr s else VFloat FNan
  | _ => VFloat FNan
  end.

Definition iso_dates_only (ser : Series) : result Series :=
  Ok (MkSeries object (map iso_or_nan (values ser))).

(** A stand-in for [str] on finite floats, for frames whose text columns
    hold no numbers. *)
Definition fixed_repr (q : Q) : string := "0.0".

Definition text_column (l : list string) : Series :=
  MkSeries object (map VStr l).

(** Three records as the carrier adapters emit them. *)
Definition raw_batch : DataFrame :=
  list_to_map
    [ ("carrier_name", text_column ["A"; "B"; "A"]);
      ("commission_period", text_column ["2024-06"; "2024-06"; "2024-06"]);
      ("agent_name", text_column ["john smith"; "JOHN SMITH"; "jane doe"]);
      ("agency_name", MkSeries object [VStr "  "; VNone; VStr "acme  insurance"]);
      ("member_id", MkSeries object [VStr " 1A-b c_3 "; VFloat FNan; VNone]);
      ("enrollment_date", MkSeries object [VStr "2024-06-01"; VStr "n/a"; VNone]);
      ("commission_amount",
        MkSeries object [VStr "$100.00"; VFloat (FFin 50); VFloat FNan]);
      ("transaction_type", text_column ["NEW"; "renew"; "New Business"]) ].

(** The same batch without its carrier column. *)
Definition batch_without_carrier : DataFrame := delete "carrier_name" raw_batch.

(** The same batch with a transaction-type column that holds no value at
    all, as pandas builds it: a [float64] column of NaN. *)
Definition batch_with_empty_types : DataFrame :=
  <["transaction_type" := MkSeries float64 [VFloat FNan; VFloat FNan; VFloat FNan]]>
    raw_batch.

(** One record whose amount is missing. *)
Definition missing_amount_batch : DataFrame :=
  list_to_map
    [ ("carrier_name", text_column ["A"]);
      ("commission_period", text_column ["2024-06"]);
      ("agent_name", text_column ["Jane Doe"]);
      ("commission_amount", MkSeries float64 [VFloat FNan]) ].

(** The amount "$(1,234.50)". *)
Definition written_1234_50 : Spec.written_amount :=
  Spec.MkWritten true Spec.DollarOutside [[1]; [2; 3; 4]] (Some [5; 0]).

(** One agent whose commissions of the period net to a negative total. *)
Definition reversed_batch : list Analyzer.Row :=
  [ Analyzer.MkRow "A" "2024-06" "Jane Doe" 100;
    Analyzer.MkRow "A" "2024-06" "Jane Doe" (-150) ].

(** The batch of the specification's scenario. *)
Definition scenario_batch : list Analyzer.Row :=
  [ Analyzer.MkRow "A" "2024-06" "John Smith" 100;
    Analyzer.MkRow "B" "2024-06" "John Smith" 50;
    Analyzer.MkRow "A" "2024-06" "Jane Doe" 30 ].

End Examples.

(* ===================================================================== *)
(** * normalizer.py: the standard schema *)
(* ===================================================================== *)

(** [DataNormalizer.get_standard_columns()] *)
Definition get_standard_columns : list string :=
  [ "carrier_name";
    "commission_period";
    "agent_name";
    "agency_name";
    "member_id";
    "member_name";
    "plan_name";
    "enrollment_date";
    "disenrollment_date";
    "commission_amount";
    "transaction_type";
    "policy_number";
    "effective_date";
    "processed_date" ].

(* ===================================================================== *)
(** * name_matcher.py: pairs, canonical names and groups *)
(* ===================================================================== *)

Section NameGroups.
Import PyStr.

Variable float_repr : Q -> string.
Variable sequence_ratio : string -> string -> Q.

(** The iteration order of a Python [set] of strings, which the language
    leaves open: [list(similar_names)]. *)
Variable set_order : gset string -> list string.

(** The characters a normalized name is made of: lower-case letters,
    digits, "_", "-" and the space. *)
Definition name_char (c : ascii) : bool :=
  is_lower c || is_digit c || Ascii.eqb c "_" || Ascii.eqb c "-" || Ascii.eqb c " ".

(** [[(name, normalize_name(name)) for name in names]] *)
Definition normalized_names (names : list string) : list (string * string) :=
  map (fun name => (name, normalize_name float_repr (VStr name))) names.

(** The two nested loops of [match_names]: the head is compared with
    every later element, [normalized_names[i+1:]]. *)
Fixpoint match_pairs (threshold : Q) (l : list (string * string))
  : list (string * string) :=
  match l with
  | [] => []
  | (name1, norm1) :: rest =>
      map (fun p => (name1, p.1))
          (filter (fun p => are_similar_names float_repr sequence_ratio
                              (VStr norm1) (VStr p.2) threshold) rest)
      ++ match_pairs threshold rest
  end.

Definition match_names (names : list string) (threshold : Q)
  : list (string * string) :=
  match_pairs threshold (normalized_names names).

(** The sort key [(len(x.split()), len(x))] and the order of tuples. *)
Definition name_key (x : string) : nat * nat :=
  (length (split x), String.length x).

Definition key_le (a b : nat * nat) : bool :=
  (a.1 <? b.1)%nat || ((a.1 =? b.1)%nat && (a.2 <=? b.2)%nat).

(** [sorted(l, key=...)]: stable, so among equal keys the earlier element
    stays first. *)
Fixpoint insert_by_key (x : string) (l : list string) : list string :=
  match l with
  | [] => [x]
  | y :: l' =>
      if key_le (name_key x) (name_key y) then x :: l else y :: insert_by_key x l'
  end.

Definition sorted_by_key : list string -> list string := foldr insert_by_key [].

Definition find_canonical_name (names : list string) : string :=
  match names with
  | [] => ""
  | _ =>
      let valid_names := filter (fun name => negb (is_empty name)) names in
      match valid_names with
      | [] => ""
      | _ => hd "" (sorted_by_key valid_names)
      end
  end.

(** The inner loop of [group_similar_names]: the set built around [name]. *)
Definition similar_names_of (names : list string) (processed : gset string)
    (threshold : Q) (name : string) : gset string :=
  foldl (fun similar_names other_name =>
           if bool_decide (other_name <> name)
              && bool_decide (other_name ∉ processed)
              && are_similar_names float_repr sequence_ratio
                   (VStr name) (VStr other_name) threshold
           then similar_names ∪ {[other_name]}
           else similar_names)
        {[name]} names.

(** One round of the outer loop on the state [(groups, processed)]. *)
Definition group_step (names : list string) (threshold : Q)
    (st : gmap string (list string) * gset string) (name : string)
  : gmap string (list string) * gset string :=
  let '(groups, processed) := st in
  if bool_decide (name ∈ processed) then st
  else
    let similar_names := similar_names_of names processed threshold name in
    if bool_decide (similar_names <> ∅)
    then
      let canonical := find_canonical_name (set_order similar_names) in
      (<[canonical := set_order similar_names]> groups, processed ∪ similar_names)
    else st.

Definition group_similar_names (names : list string) (threshold : Q)
  : gmap string (list string) :=
  (foldl (group_step names threshold) (∅, ∅) names).1.

(** What the outer loop maintains: [processed] holds exactly the members
    of the groups built so far; every group is labelled by its canonical
    name, which is one of its members, lists names of the input without
    repetition, and is made of a name and names similar to it; and no name
    sits in two groups. *)
Definition grouped (names : list string) (threshold : Q)
    (groups : gmap string (list string)) (processed : gset string) : Prop :=
  (forall x, x ∈ processed <-> exists c m, groups !! c = Some m /\ x ∈ m)
  /\ (forall c m,
         groups !! c = Some m ->
         c = find_canonical_name m
         /\ c ∈ m /\ NoDup m /\ (forall x, x ∈ m -> x ∈ names)
         /\ exists seed,
              seed ∈ m
              /\ forall x, x ∈ m ->
                    x = seed
                    \/ are_similar_names float_repr sequence_ratio
                         (VStr seed) (VStr x) threshold = true)
  /\ (forall c1 c2 m1 m2 x,
         groups !! c1 = Some m1 -> groups !! c2 = Some m2 ->
         x ∈ m1 -> x ∈ m2 -> c1 = c2).

End NameGroups.

(* ===================================================================== *)
(** * performance_analyzer.py: summary, carrier statistics and report *)
(* ===================================================================== *)

Module Reports.
Import PyStr Analyzer.

(** A row of a normalized batch with the member column, which the summary
    and the carrier statistics read besides the four of [Row]; after
    normalization a member id is a string, never a missing value. *)
Record MemberRow : Type := MkMemberRow {
  row : Row;
  member_id : string
}.

Record Summary : Type := MkSummary {
  summary_total_commission : Q;
  total_transactions : nat;
  unique_agents : nat;
  unique_members : nat;
  summary_carriers : list string;
  summary_period : string;
  summary_generated_at : string
}.

(** [self.data[self.data['commission_period'] == period]] *)
Definition period_rows (data : list MemberRow) (period : string) : list MemberRow :=
  filter (fun r => String.eqb (commission_period (row r)) period) data.

(** [get_period_summary]; [generated_at] is the reading of the clock. *)
Definition get_period_summary (generated_at : string) (data : list MemberRow)
    (period : string) : Summary :=
  let period_data := period_rows data period in
  MkSummary
    (Qsum (map (fun r => commission_amount (row r)) period_data))
    (length period_data)
    (length (unique (map (fun r => agent_name (row r)) period_data)))
    (length (unique (map member_id period_data)))
    (sorted (unique (map (fun r => carrier_name (row r)) period_data)))
    period
    generated_at.

Record CarrierStat : Type := MkCarrierStat {
  stat_carrier_name : string;
  stat_total_commission : Q;
  stat_transaction_count : nat;
  stat_avg_commission : Q;
  stat_unique_agents : nat;
  stat_unique_members : nat
}.

(** The aggregates of one group of [groupby('carrier_name')], rounded. *)
Definition carrier_stat (period_data : list MemberRow) (carrier : string)
  : CarrierStat :=
  let group := filter (fun r => String.eqb (carrier_name (row r)) carrier) period_data in
  let amounts := map (fun r => commission_amount (row r)) group in
  MkCarrierStat
    carrier
    (round2 (Qsum amounts))
    (length amounts)
    (round2 (Qsum amounts / inject_Z (Z.of_nat (length amounts))))
    (length (unique (map (fun r => agent_name (row r)) group)))
    (length (unique (map member_id group))).

(** [get_carrier_statistics]: one row per carrier, the group keys sorted. *)
Definition get_carrier_statistics (data : list MemberRow) (period : string)
  : list CarrierStat :=
  let period_data := period_rows data period in
  map (carrier_stat period_data)
      (sorted (unique (map (fun r => carrier_name (row r)) period_data))).

Record TopPerformersReport : Type := MkReport {
  report_period : string;
  report_summary : Summary;
  report_top_performers : list Entry;
  report_carrier_statistics : list CarrierStat;
  report_generated_at : string
}.

(** [get_top_performers_report]; the clock is read once by the summary
    and once by the report. *)
Definition get_top_performers_report (summary_time report_time : string)
    (data : list MemberRow) (n : nat) (period : string)
  : result TopPerformersReport :=
  let summary := get_period_summary summary_time data period in
  top_performers ← calculate_top_performers (map row data) n period;
  let carrier_stats := get_carrier_statistics data period in
  Ok (MkReport period summary top_performers carrier_stats report_time).

End Reports.

(* ===================================================================== *)
(** * The carrier parsers' cleaners *)
(* ===================================================================== *)

Section Parsers.
Import PyStr PyFloat.

Variable float_repr : Q -> string.

(** [CenteneParser._clean_commission_amount] *)
Definition centene_clean_commission_amount (amount : cell) : result pyfloat :=
  if isna amount then Ok zero
  else
    match amount with
    | VFloat f => Ok f
    | VStr s =>
        let amount := strip_currency s in
        let amount := rewrite_parens amount in
        try_except (py_float amount) [ValueError] (fun _ => Ok zero)
    | VNone => Ok zero
    end.

(** [EmblemParser._clean_commission_amount] *)
Definition emblem_clean_commission_amount (amount : cell) : result pyfloat :=
  if isna amount then Ok zero
  else
    match amount with
    | VFloat f => Ok f
    | VStr s =>
        let amount := strip_currency s in
        let amount := rewrite_parens amount in
        try_except (py_float amount) [ValueError] (fun _ => Ok zero)
    | VNone => Ok zero
    end.

(** [''.join(c for c in amount if c.isdigit() or c in '.-')] *)
Definition numeric_characters : string -> string :=
  filter_chars (fun c => is_digit c || Ascii.eqb c "." || Ascii.eqb c "-").

(** [HealthfirstParser._clean_commission_amount]: the whole body sits in
    [try ... except Exception], after which 0.0 is returned. *)
Definition healthfirst_clean_commission_amount (amount : cell) : result pyfloat :=
  try_except_all
    (if isna amount then Ok zero
     else
       match amount with
       | VFloat f => Ok f
       | VStr s =>
           let amount := strip_currency s in
           let amount := rewrite_parens amount in
           let amount := rewrite_minus_dollar amount in
           let cleaned := numeric_characters amount in
           if is_empty cleaned then Ok zero else py_float cleaned
       | VNone => Ok zero
       end)
    (fun _ => Ok zero).

(** [HealthfirstParser._clean_agent_name]; [None] is returned for a
    missing or blank name. *)
Definition healthfirst_clean_agent_name (name : cell) : option string :=
  if isna name || is_empty (strip (py_str float_repr name)) then None
  else
    let name := strip (py_str float_repr name) in
    Some (join " " (map capitalize (split name))).

(** [not v] for a value that is a string or [None]. *)
Definition falsy (v : option string) : bool :=
  match v with
  | Some s => is_empty s
  | None => true
  end.

(** The agent name of a Healthfirst record ([_parse_impl]): the cleaned
    producer name, else the cleaned producer type, else the sentinel. *)
Definition healthfirst_agent_name (producer_name producer_type : cell) : string :=
  let agent_name := healthfirst_clean_agent_name producer_name in
  if falsy agent_name
  then
    let agency_name := healthfirst_clean_agent_name producer_type in
    if falsy agency_name then "Unknown Agent" else default "" agency_name
  else default "" agent_name.

End Parsers.

(* ===================================================================== *)
(** * The parsers' commission period *)
(* ===================================================================== *)

Module Period.
Import PyStr.

(** [s.split(sep)] for a one-character separator: the pieces between the
    occurrences of [sep], at least one piece. *)
Fixpoint split_on (sep : ascii) (s : string) : list string :=
  match s with
  | EmptyString => [EmptyString]
  | String c s' =>
      if Ascii.eqb c sep then EmptyString :: split_on sep s'
      else match split_on sep s' with
           | w :: ws => String c w :: ws
           | [] => [String c EmptyString]
           end
  end.

(** [s.zfill(2)]: zeros are put in front, after a leading sign. *)
Definition zfill2 (s : string) : string :=
  match s with
  | EmptyString => "00"
  | String c EmptyString =>
      if Ascii.eqb c "+" || Ascii.eqb c "-"
      then String c "0" else String "0" (String c EmptyString)
  | _ => s
  end.

(** [CenteneParser.get_commission_period].  Every exception of the body
    ([IndexError] for a missing part, [ValueError] for a part that is not
    month "." year) is caught and answered with the default period; [None]
    stands for a raised exception. *)
Definition centene_get_commission_period (file_path : string) : string :=
  let parsed : option string :=
    file_name ← last (split_on "/" file_path);
    month_year ← split_on " " file_name !! 1;
    match split_on "." month_year with
    | [month; year] => Some (year +:+ "-" +:+ zfill2 month)
    | _ => None
    end in
  default "2024-06" parsed.

(** [EmblemParser.get_commission_period] *)
Definition emblem_get_commission_period (file_path : string) : string :=
  let parsed : option string :=
    file_name ← last (split_on "/" file_path);
    month_year ← split_on " " file_name !! 1;
    match split_on "." month_year with
    | [month; year] => Some (year +:+ "-" +:+ zfill2 month)
    | _ => None
    end in
  default "2024-06" parsed.

(** No character of [s] is one of [chars]. *)
Definition without (chars : list ascii) (s : string) : bool :=
  all_chars (fun c => negb (existsb (Ascii.eqb c) chars)) s.

End Period.

(* ===================================================================== *)
(** * base_parser.py: validate_data *)
(* ===================================================================== *)

Section BaseParser.
Import PyStr PyFloat.

(** [pd.to_numeric(v, errors='coerce')] on one value: the number [v]
    stands for, NaN where it stands for none. *)
Variable to_numeric : cell -> pyfloat.

Definition required_columns : list string :=
  ["carrier_name"; "commission_period"; "agent_name"; "commission_amount"].

Definition ValueError_missing_columns (missing : list string) : exn :=
  MkExn ValueError ("Missing required columns: " +:+ join ", " missing).

(** [~pd.to_numeric(df['commission_amount'], errors='coerce').notna()] *)
Definition invalid_amount (v : cell) : bool :=
  isna (VFloat (to_numeric v)).

(** [BaseCommissionParser.validate_data]; the frame it leaves behind is
    returned. *)
Definition validate_data (df : DataFrame) : result DataFrame :=
  let missing_columns :=
    filter (fun c => negb (has_column df c)) required_columns in
  match missing_columns with
  | _ :: _ => Raise (ValueError_missing_columns missing_columns)
  | [] =>
      ser ← getitem df "commission_amount";
      Ok (<["commission_amount" :=
              MkSeries (dtype ser)
                (map (fun v => if invalid_amount v then VFloat zero else v)
                     (values ser))]> df)
  end.

End BaseParser.

(* ===================================================================== *)
(** * main.py: the callers of the normalizer and of the analyzer *)
(* ===================================================================== *)

Module Main.
Import Analyzer Reports.

(** [process_data_normalization], before the normalizer is built: every
    required field the merged frame lacks is added as a column of [None];
    [rows] is the number of records of the merged frame. *)
Definition ensure_required_fields (rows : nat) (combined_data : DataFrame)
  : DataFrame :=
  let required_fields :=
    ["carrier_name"; "commission_period"; "agent_name"; "commission_amount"] in
  let missing_fields :=
    filter (fun field => negb (has_column combined_data field)) required_fields in
  foldl (fun data field => <[field := none_column rows]> data)
        combined_data missing_fields.




End Main.

(* ===================================================================== *)
(** * Further sample data *)
(* ===================================================================== *)

Module Samples.

(** An iteration order for sets of names. *)
Definition listed (X : gset string) : list string := elements X.

(** A stand-in for [pd.to_numeric] on frames whose amounts are floats. *)
Definition floats_only (v : cell) : pyfloat :=
  match v with
  | VFloat f => f
  | _ => FNan
  end.

(** A similarity ratio that never reaches a threshold above zero. *)
Definition no_ratio (a b : string) : Q := 0.

(** The scenario batch with member ids. *)
Definition member_batch : list Reports.MemberRow :=
  [ Reports.MkMemberRow (Analyzer.MkRow "A" "2024-06" "John Smith" 100) "M1";
    Reports.MkMemberRow (Analyzer.MkRow "B" "2024-06" "John Smith" 50) "M2";
    Reports.MkMemberRow (Analyzer.MkRow "A" "2024-06" "Jane Doe" 30) "M1" ].

End Samples.

(* ===================================================================== *)
(** * Facts about Python strings *)
(* ===================================================================== *)

Module PyStrFacts.
Import PyStr.

Ltac each_char c := destruct c as [[] [] [] [] [] [] [] []]; try reflexivity; try discriminate.

Lemma is_empty_true (s : string) : is_empty s = true <-> s = "".
Proof. destruct s; simpl; split; congruence. Qed.

Lemma is_empty_false (s : string) : is_empty s = false <-> s <> "".
Proof. destruct s; simpl; split; congruence. Qed.

Lemma lower_char_idem (c : ascii) : lower_char (lower_char c) = lower_char c.
Proof. each_char c. Qed.

Lemma upper_char_idem (c : ascii) : upper_char (upper_char c) = upper_char c.
Proof. each_char c. Qed.

Lemma is_space_lower_char (c : ascii) : is_space (lower_char c) = is_space c.
Proof. each_char c. Qed.

Lemma is_space_upper_char (c : ascii) : is_space (upper_char c) = is_space c.
Proof. each_char c. Qed.

Lemma alnum_not_space (c : ascii) : is_alnum c = true -> is_space c = false.
Proof. each_char c. Qed.

Lemma lower_idem (s : string) : lower (lower s) = lower s.
Proof.
  unfold lower. induction s as [ | c s IH]; simpl; [reflexivity | ].
  rewrite lower_char_idem. f_equal. exact IH.
Qed.

Lemma capitalize_idem (w : string) : capitalize (capitalize w) = capitalize w.
Proof.
  destruct w as [ | c w]; simpl; [reflexivity | ].
  rewrite upper_char_idem. f_equal. apply lower_idem.
Qed.

(** ** Filtering *)

Lemma filter_chars_app (p : ascii -> bool) (s t : string) :
  filter_chars p (s +:+ t) = filter_chars p s +:+ filter_chars p t.
Proof.
  induction s as [ | c s IH]; simpl; [reflexivity | ].
  destruct (p c); simpl; rewrite IH; reflexivity.
Qed.

Lemma filter_chars_all (p : ascii -> bool) (s : string) :
  all_chars p (filter_chars p s) = true.
Proof.
  induction s as [ | c s IH]; simpl; [reflexivity | ].
  destruct (p c) eqn:Hp; simpl; [rewrite Hp | ]; exact IH.
Qed.

Lemma filter_chars_id (p : ascii -> bool) (s : string) :
  all_chars p s = true -> filter_chars p s = s.
Proof.
  induction s as [ | c s IH]; simpl; [reflexivity | ].
  intros [Hc Hs]%andb_prop. rewrite Hc. f_equal. auto.
Qed.

Lemma all_chars_impl (p q : ascii -> bool) (s : string) :
  (forall c, p c = true -> q c = true) ->
  all_chars p s = true -> all_chars q s = true.
Proof.
  intros Hpq. induction s as [ | c s IH]; simpl; [reflexivity | ].
  intros [Hc Hs]%andb_prop. rewrite (Hpq c Hc). auto.
Qed.

Lemma all_chars_app (p : ascii -> bool) (s t : string) :
  all_chars p (s +:+ t) = all_chars p s && all_chars p t.
Proof.
  induction s as [ | c s IH]; simpl; [reflexivity | ].
  rewrite IH. apply andb_assoc.
Qed.

(** ** Stripping *)

Lemma lstrip_empty (s : string) :
  lstrip s = "" <-> all_chars is_space s = true.
Proof.
  induction s as [ | c s IH]; simpl; [tauto | ].
  destruct (is_space c); simpl; [exact IH | split; discriminate].
Qed.

Lemma rstrip_empty (s : string) :
  rstrip s = "" <-> all_chars is_space s = true.
Proof.
  induction s as [ | c s IH]; simpl; [tauto | ].
  destruct (is_space c); simpl.
  - destruct (rstrip s) eqn:Hr; simpl.
    + split; [intros _; apply IH; reflexivity | reflexivity].
    + split; [discriminate | intros H; apply IH in H; discriminate].
  - split; discriminate.
Qed.

Lemma all_space_lstrip (s : string) :
  all_chars is_space (lstrip s) = all_chars is_space s.
Proof.
  induction s as [ | c s IH]; simpl; [reflexivity | ].
  destruct (is_space c) eqn:Hc; simpl; [exact IH | rewrite Hc; reflexivity].
Qed.

Lemma strip_empty (s : string) :
  strip s = "" <-> all_chars is_space s = true.
Proof. unfold strip. rewrite rstrip_empty, all_space_lstrip. tauto. Qed.

Lemma lstrip_id (s : string) : first_ok s = true -> lstrip s = s.
Proof.
  destruct s as [ | c s]; simpl; [reflexivity | ].
  unfold no_space. destruct (is_space c); [discriminate | reflexivity].
Qed.

Lemma rstrip_id (s : string) : last_ok s = true -> rstrip s = s.
Proof.
  induction s as [ | c s IH]; [reflexivity | ].
  intros H. cbn [rstrip]. destruct s as [ | c' s'].
  - simpl in *. unfold no_space in H. destruct (is_space c); [discriminate | reflexivity].
  - rewrite IH by exact H. simpl. rewrite andb_false_r. reflexivity.
Qed.

Lemma strip_id (s : string) :
  first_ok s = true -> last_ok s = true -> strip s = s.
Proof. intros Hf Hl. unfold strip. rewrite lstrip_id by exact Hf. apply rstrip_id, Hl. Qed.

(** ** Splitting and joining *)

Lemma split_nil (s : string) :
  split s = [] <-> all_chars is_space s = true.
Proof.
  induction s as [ | c s IH]; simpl; [tauto | ].
  destruct (is_space c); simpl; [exact IH | ].
  split; [ | discriminate].
  destruct s as [ | c' s']; [discriminate | ].
  destruct (is_space c'); [discriminate | ].
  destruct (split (String c' s')); discriminate.
Qed.

Lemma split_lstrip (s : string) : split (lstrip s) = split s.
Proof.
  induction s as [ | c s IH]; simpl; [reflexivity | ].
  destruct (is_space c) eqn:Hc; [exact IH | ].
  simpl. rewrite Hc. reflexivity.
Qed.

Lemma rstrip_head (c : ascii) (s r : string) (d : ascii) :
  rstrip (String c s) = String d r -> d = c.
Proof.
  simpl. destruct (is_space c && is_empty (rstrip s)); [discriminate | ].
  congruence.
Qed.

Lemma split_rstrip (s : string) : split (rstrip s) = split s.
Proof.
  induction s as [ | c s IH]; [reflexivity | ].
  cbn [rstrip].
  destruct (is_space c) eqn:Hc.
  - destruct (is_empty (rstrip s)) eqn:He; simpl.
    + rewrite Hc. apply is_empty_true in He.
      symmetry. apply split_nil. apply rstrip_empty. exact He.
    + rewrite Hc. exact IH.
  - simpl. rewrite Hc.
    destruct s as [ | c' s'].
    + reflexivity.
    + destruct (rstrip (String c' s')) as [ | d r] eqn:Hr.
      * assert (Hsp : all_chars is_space (String c' s') = true)
          by (apply rstrip_empty; exact Hr).
        pose proof Hsp as Hsp'. simpl in Hsp'. apply andb_prop in Hsp' as [Hc' _].
        rewrite Hc'. f_equal. symmetry. apply split_nil. exact Hsp.
      * pose proof (rstrip_head _ _ _ _ Hr) as ->.
        rewrite <- IH. reflexivity.
Qed.

Lemma split_strip (s : string) : split (strip s) = split s.
Proof. unfold strip. rewrite split_rstrip. apply split_lstrip. Qed.

Lemma split_tokens (s : string) : Forall is_token (split s).
Proof.
  induction s as [ | c s IH]; simpl; [constructor | ].
  destruct (is_space c) eqn:Hc; [exact IH | ].
  assert (Hone : is_token (String c "")).
  { split; [discriminate | ]. simpl. unfold no_space. rewrite Hc. reflexivity. }
  destruct s as [ | c' s']; [repeat constructor; apply Hone | ].
  destruct (is_space c'); [constructor; [apply Hone | exact IH] | ].
  destruct (split (String c' s')) as [ | w ws]; [repeat constructor; apply Hone | ].
  inversion IH as [ | ? ? [Hw1 Hw2] Hws]; subst.
  constructor; [ | exact Hws].
  split; [discriminate | ]. simpl. unfold no_space at 1. rewrite Hc. exact Hw2.
Qed.

Lemma split_token (w : string) : is_token w -> split w = [w].
Proof.
  induction w as [ | c w IH]; intros [Hne Hall]; [congruence | ].
  simpl in Hall. apply andb_prop in Hall as [Hc Hw].
  unfold no_space in Hc. apply negb_true_iff in Hc.
  simpl. rewrite Hc.
  destruct w as [ | c' w']; [reflexivity | ].
  pose proof Hw as Hw'. simpl in Hw'. apply andb_prop in Hw' as [Hc' _].
  unfold no_space in Hc'. apply negb_true_iff in Hc'. rewrite Hc'.
  rewrite IH; [reflexivity | ]. split; [discriminate | exact Hw].
Qed.

Lemma split_cons (c : ascii) (s : string) :
  split (String c s)
  = if is_space c then split s
    else match s with
         | EmptyString => [String c EmptyString]
         | String c' _ =>
             if is_space c' then String c EmptyString :: split s
             else match split s with
                  | w :: ws => String c w :: ws
                  | [] => [String c EmptyString]
                  end
         end.
Proof. reflexivity. Qed.

Lemma split_token_space (w rest : string) :
  is_token w -> split (w +:+ String " " rest) = w :: split rest.
Proof.
  induction w as [ | c w IH]; intros [Hne Hall]; [congruence | ].
  simpl in Hall. apply andb_prop in Hall as [Hc Hw].
  unfold no_space in Hc. apply negb_true_iff in Hc.
  change (String c w +:+ String " " rest) with (String c (w +:+ String " " rest)).
  rewrite split_cons, Hc.
  destruct w as [ | c' w'].
  - reflexivity.
  - pose proof Hw as Hw'. simpl in Hw'. apply andb_prop in Hw' as [Hc' _].
    unfold no_space in Hc'. apply negb_true_iff in Hc'.
    rewrite IH by (split; [discriminate | exact Hw]).
    simpl. rewrite Hc'. reflexivity.
Qed.

Lemma split_join (ws : list string) :
  Forall is_token ws -> split (join " " ws) = ws.
Proof.
  induction ws as [ | w ws IH]; intros H; [reflexivity | ].
  inversion H as [ | ? ? Hw Hws]; subst.
  destruct ws as [ | w' ws'].
  - simpl. apply split_token, Hw.
  - change (join " " (w :: w' :: ws')) with (w +:+ String " " (join " " (w' :: ws'))).
    rewrite split_token_space by exact Hw. f_equal. apply IH, Hws.
Qed.

Lemma append_cons (c : ascii) (s t : string) : String c s +:+ t = String c (s +:+ t).
Proof. reflexivity. Qed.

Lemma append_nil (t : string) : "" +:+ t = t.
Proof. reflexivity. Qed.

Lemma append_empty_r (s : string) : s +:+ "" = s.
Proof.
  induction s as [ | c s IH]; [reflexivity | ].
  rewrite append_cons, IH. reflexivity.
Qed.

Lemma append_assoc (s t u : string) : (s +:+ t) +:+ u = s +:+ (t +:+ u).
Proof.
  induction s as [ | c s IH]; [reflexivity | ].
  rewrite !append_cons, IH. reflexivity.
Qed.

Lemma length_append (s t : string) :
  String.length (s +:+ t) = String.length s + String.length t.
Proof.
  induction s as [ | c s IH]; [reflexivity | ].
  rewrite append_cons. cbn [String.length]. rewrite IH. reflexivity.
Qed.

Lemma append_empty (s t : string) : s +:+ t = "" -> s = "".
Proof. destruct s; [reflexivity | discriminate]. Qed.

Lemma join_nonempty (sep w : string) (ws : list string) :
  w <> "" -> join sep (w :: ws) <> "".
Proof.
  intros Hw. destruct ws as [ | w' ws]; simpl; [exact Hw | ].
  intros H. apply append_empty in H. contradiction.
Qed.

Lemma all_no_space_lower (s : string) :
  all_chars no_space (lower s) = all_chars no_space s.
Proof.
  unfold lower. induction s as [ | c s IH]; simpl; [reflexivity | ].
  unfold no_space at 1 3. rewrite is_space_lower_char, IH. reflexivity.
Qed.

Lemma capitalize_token (w : string) : is_token w -> is_token (capitalize w).
Proof.
  intros [Hne Hall]. destruct w as [ | c w]; [congruence | ].
  split; [discriminate | ].
  simpl in Hall. apply andb_prop in Hall as [Hc Hw].
  change (no_space (upper_char c) && all_chars no_space (lower w) = true).
  rewrite all_no_space_lower, Hw. unfold no_space in *.
  rewrite is_space_upper_char, Hc. reflexivity.
Qed.

Lemma all_chars_split (p : ascii -> bool) (s : string) :
  all_chars p s = true -> Forall (fun w => all_chars p w = true) (split s).
Proof.
  induction s as [ | c s IH]; [constructor | ].
  cbn [all_chars]. intros [Hc Hs]%andb_prop. specialize (IH Hs).
  rewrite split_cons. destruct (is_space c); [exact IH | ].
  destruct s as [ | c' s']; [repeat constructor; cbn; rewrite Hc; reflexivity | ].
  destruct (is_space c').
  - constructor; [cbn; rewrite Hc; reflexivity | exact IH].
  - destruct (split (String c' s')) as [ | w ws].
    + repeat constructor. cbn. rewrite Hc. reflexivity.
    + inversion IH; subst. constructor; [ | assumption].
      cbn [all_chars]. rewrite Hc. assumption.
Qed.

Lemma all_chars_join (p : ascii -> bool) (sep : string) (ws : list string) :
  all_chars p sep = true ->
  Forall (fun w => all_chars p w = true) ws ->
  all_chars p (join sep ws) = true.
Proof.
  intros Hsep. induction 1 as [ | w ws Hw Hws IH]; [reflexivity | ].
  destruct ws as [ | w' ws']; [exact Hw | ].
  change (join sep (w :: w' :: ws')) with (w +:+ sep +:+ join sep (w' :: ws')).
  rewrite !all_chars_app, Hw, Hsep, IH. reflexivity.
Qed.

End PyStrFacts.

(* ===================================================================== *)
(** * Properties of the name matcher *)
(* ===================================================================== *)

Section NameMatcherFacts.
Import PyStr PyStrFacts Spec.

Variable float_repr : Q -> string.
Variable sequence_ratio : string -> string -> Q.

(** ** Occurrences *)

Lemma startswith_spec (p s : string) :
  startswith p s = true <-> exists r, s = p +:+ r.
Proof.
  revert s. induction p as [ | a p IH]; intros s.
  - simpl. split; [intros _; exists s; reflexivity | reflexivity].
  - destruct s as [ | b s]; simpl.
    + split; [discriminate | intros [r Hr]; discriminate].
    + rewrite andb_true_iff, IH. split.
      * intros [Hab [r ->]]. apply Ascii.eqb_eq in Hab as ->. exists r. reflexivity.
      * intros [r Hr]. rewrite append_cons in Hr. injection Hr as -> ->.
        split; [apply Ascii.eqb_refl | exists r; reflexivity].
Qed.

Lemma contains_spec (p s : string) : contains p s = true <-> occurs_in p s.
Proof.
  unfold occurs_in. split.
  - induction s as [ | c s IH].
    + simpl. rewrite orb_false_r. intros H. apply startswith_spec in H as [r Hr].
      exists "", r. exact Hr.
    + cbn [contains]. intros H. apply orb_true_iff in H as [H | H].
      * apply startswith_spec in H as [r Hr]. exists "", r. exact Hr.
      * destruct (IH H) as (l & r & ->). exists (String c l), r. reflexivity.
  - intros (l & r & ->). induction l as [ | c l IH].
    + rewrite append_nil.
      assert (H : startswith p (p +:+ r) = true) by (apply startswith_spec; eauto).
      destruct (p +:+ r); cbn [contains]; rewrite H; reflexivity.
    + rewrite append_cons. cbn [contains]. rewrite IH. apply orb_true_r.
Qed.

(** ** Tokens *)

Lemma boundary_before_snoc (c : ascii) (l : string) :
  l <> "" -> boundary_before (String c l) = boundary_before l.
Proof. destruct l; [congruence | reflexivity]. Qed.

Lemma boundary_before_app (l w : string) :
  w <> "" -> boundary_before (l +:+ w) = boundary_before w.
Proof.
  intros Hw. induction l as [ | c l IH]; [reflexivity | ].
  rewrite append_cons, boundary_before_snoc; [exact IH | ].
  intros H. destruct l; simpl in H; [apply Hw; exact H | discriminate].
Qed.

(** A token followed by a boundary is the first item of the split. *)
Lemma split_token_boundary (w r : string) :
  is_token w -> boundary_after r = true -> split (w +:+ r) = w :: split r.
Proof.
  induction w as [ | c w IH]; intros [Hne Hall] Hr; [congruence | ].
  simpl in Hall. apply andb_prop in Hall as [Hc Hw].
  unfold no_space in Hc. apply negb_true_iff in Hc.
  rewrite append_cons, split_cons, Hc.
  destruct w as [ | c' w'].
  - rewrite append_nil. destruct r as [ | d r]; [reflexivity | ].
    simpl in Hr. rewrite Hr. reflexivity.
  - pose proof Hw as Hw'. simpl in Hw'. apply andb_prop in Hw' as [Hc' _].
    unfold no_space in Hc'. apply negb_true_iff in Hc'.
    rewrite IH by (try split; try discriminate; assumption).
    rewrite append_cons, Hc'. reflexivity.
Qed.

(** Splitting distributes over a cut at a boundary. *)
Lemma split_app_boundary (l s : string) :
  l <> "" -> boundary_before l = true -> split (l +:+ s) = split l ++ split s.
Proof.
  induction l as [ | c l IH]; intros Hne Hb; [congruence | ].
  destruct l as [ | c' l'].
  - simpl in Hb. rewrite append_cons, append_nil, !split_cons, Hb. reflexivity.
  - assert (IH' : split (String c' l' +:+ s) = split (String c' l') ++ split s)
      by (apply IH; [discriminate | exact Hb]).
    rewrite append_cons, split_cons, (split_cons c (String c' l')).
    destruct (is_space c); [exact IH' | ].
    rewrite append_cons in *. destruct (is_space c') eqn:Hc'.
    + rewrite IH'. reflexivity.
    + rewrite IH'. destruct (split (String c' l')) as [ | w ws] eqn:Hs; [ | reflexivity].
      apply split_nil in Hs. simpl in Hs. rewrite Hc' in Hs. discriminate.
Qed.

(** A string that starts with a non-space character starts with a token,
    and the split goes on after it. *)
Lemma split_first_token (c : ascii) (s : string) :
  is_space c = false ->
  exists w r, String c s = w +:+ r /\ is_token w /\ boundary_after r = true
              /\ split (String c s) = w :: split r.
Proof.
  revert c. induction s as [ | c' s IH]; intros c Hc.
  - exists (String c ""), "". repeat split; try discriminate.
    + simpl. unfold no_space. rewrite Hc. reflexivity.
    + simpl. rewrite Hc. reflexivity.
  - destruct (is_space c') eqn:Hc'.
    + exists (String c ""), (String c' s). repeat split; try discriminate.
      * simpl. unfold no_space. rewrite Hc. reflexivity.
      * exact Hc'.
      * rewrite split_cons, Hc, Hc'. reflexivity.
    + destruct (IH c' Hc') as (w & r & Heq & [Hne Hw] & Hr & Hsplit).
      exists (String c w), r. repeat split; try discriminate.
      * rewrite append_cons, Heq. reflexivity.
      * simpl. unfold no_space at 1. rewrite Hc. exact Hw.
      * exact Hr.
      * rewrite split_cons, Hc, Hc', Hsplit. reflexivity.
Qed.

Lemma token_not_boundary (w r : string) :
  is_token w -> boundary_after (w +:+ r) = false.
Proof.
  intros [Hne Hw]. destruct w as [ | c w]; [congruence | ].
  simpl in Hw |- *. apply andb_prop in Hw as [Hc _].
  unfold no_space in Hc. apply negb_true_iff in Hc. exact Hc.
Qed.


Lemma in_split_token_of (n : nat) (s w : string) :
  String.length s <= n -> In w (split s) -> token_of w s.
Proof.
  revert s. induction n as [ | n IH]; intros s Hlen Hin.
  - destruct s; [contradiction | simpl in Hlen; lia].
  - destruct s as [ | c s]; [contradiction | ].
    simpl in Hlen. destruct (is_space c) eqn:Hc.
    + rewrite split_cons, Hc in Hin.
      destruct (IH s ltac:(lia) Hin) as (Htok & l & r & -> & Hl & Hr).
      split; [exact Htok | ]. exists (String c l), r. split; [reflexivity | ].
      split; [ | exact Hr].
      destruct l as [ | d l]; [exact Hc | exact Hl].
    + destruct (split_first_token c s Hc) as (w0 & r0 & Heq & Htok0 & Hr0 & Hsplit).
      rewrite Hsplit in Hin. destruct Hin as [<- | Hin].
      * split; [exact Htok0 | ]. exists "", r0. auto.
      * assert (Hlen0 : String.length r0 <= n).
        { apply (f_equal String.length) in Heq. rewrite length_append in Heq.
          simpl in Heq. destruct Htok0 as [Hne _].
          destruct w0; [congruence | simpl in Heq; lia]. }
        destruct (IH r0 Hlen0 Hin) as (Htok & l & r & -> & Hl & Hr).
        split; [exact Htok | ]. exists (w0 +:+ l), r.
        split; [rewrite Heq, append_assoc; reflexivity | ].
        split; [ | exact Hr].
        destruct l as [ | d l].
        -- rewrite append_nil, token_not_boundary in Hr0 by exact Htok. discriminate.
        -- rewrite boundary_before_app by discriminate. exact Hl.
Qed.

Lemma split_spec (w s : string) : In w (split s) <-> token_of w s.
Proof.
  split; [apply (in_split_token_of (String.length s)); lia | ].
  intros (Htok & l & r & -> & Hl & Hr).
  assert (H : In w (split (w +:+ r))).
  { rewrite split_token_boundary by assumption. left. reflexivity. }
  destruct l as [ | c l]; [exact H | ].
  rewrite split_app_boundary by (discriminate || exact Hl).
  apply in_or_app. right. exact H.
Qed.

(** The cardinality test of the code is containment of the smaller word
    set in the larger one. *)
Lemma common_words_test (X Y : gset string) :
  (Nat.min (size X) (size Y) <=? size (X ∩ Y))%nat
  = if (size X <=? size Y)%nat then bool_decide (X ⊆ Y) else bool_decide (Y ⊆ X).
Proof.
  assert (HX : size (X ∩ Y) <= size X).
  { apply subseteq_size. apply intersection_subseteq_l. }
  assert (HY : size (X ∩ Y) <= size Y).
  { apply subseteq_size. apply intersection_subseteq_r. }
  destruct (Nat.leb_spec (size X) (size Y)) as [Hle | Hlt].
  - rewrite Nat.min_l by lia.
    destruct (decide (X ⊆ Y)) as [Hsub | Hsub].
    + rewrite bool_decide_eq_true_2 by done.
      apply Nat.leb_le. apply subseteq_size. set_solver.
    + rewrite bool_decide_eq_false_2 by done.
      apply Nat.leb_gt.
      destruct (decide (size X <= size (X ∩ Y))) as [Hge | ?]; [ | lia].
      exfalso. apply Hsub.
      assert (Heq : X ∩ Y ≡ X).
      { apply set_subseteq_size_equiv; [apply intersection_subseteq_l | done]. }
      intros x Hx. apply Heq in Hx. by apply elem_of_intersection in Hx as [_ ?].
  - rewrite Nat.min_r by lia.
    destruct (decide (Y ⊆ X)) as [Hsub | Hsub].
    + rewrite bool_decide_eq_true_2 by done.
      apply Nat.leb_le. apply subseteq_size. set_solver.
    + rewrite bool_decide_eq_false_2 by done.
      apply Nat.leb_gt.
      destruct (decide (size Y <= size (X ∩ Y))) as [Hge | ?]; [ | lia].
      exfalso. apply Hsub.
      assert (Heq : X ∩ Y ≡ Y).
      { apply set_subseteq_size_equiv; [apply intersection_subseteq_r | done]. }
      intros x Hx. apply Heq in Hx. by apply elem_of_intersection in Hx as [? _].
Qed.

(** C7. [are_similar_names] is the layered rule: false when either
    normalized name is empty; otherwise true as soon as (1) the normalized
    forms are equal, (2) one occurs in the other, (3) the token set of the
    name with fewer tokens is contained in the other's, or (4) the
    sequence ratio reaches the threshold.  The test of layer 2 is
    occurrence as a substring, and the sets of layer 3 hold exactly the
    whitespace-delimited tokens.  In particular "Acme Corp" and "acme" are
    similar at 0.85, and "" is similar to nothing. *)
Theorem are_similar_names_layers :
  (forall (a b : cell) (threshold : Q),
      let n1 := normalize_name float_repr a in
      let n2 := normalize_name float_repr b in
      are_similar_names float_repr sequence_ratio a b threshold
      = if is_empty n1 || is_empty n2 then false
        else String.eqb n1 n2
             || (contains n1 n2 || contains n2 n1)
             || Spec.shorter_tokens_contained n1 n2
             || Qle_bool threshold (sequence_ratio n1 n2))
  /\ (forall p s : string, contains p s = true <-> occurs_in p s)
  /\ (forall w s : string, w ∈ word_set s <-> token_of w s)
  /\ are_similar_names float_repr sequence_ratio
       (VStr "Acme Corp") (VStr "acme") (85 # 100) = true
  /\ are_similar_names float_repr sequence_ratio
       (VStr "") (VStr "anything") (85 # 100) = false.
Proof.
  split; [ | split; [exact contains_spec | split; [ | split; reflexivity]]].
  - intros a b threshold n1 n2. unfold are_similar_names.
    fold n1 n2. unfold Spec.shorter_tokens_contained.
    rewrite <- common_words_test.
    destruct (is_empty n1 || is_empty n2); [reflexivity | ].
    destruct (String.eqb n1 n2); [reflexivity | ].
    destruct (contains n1 n2 || contains n2 n1); [reflexivity | ].
    simpl. destruct (_ <=? _)%nat; reflexivity.
  - intros w s. unfold word_set.
    rewrite elem_of_list_to_set, list_elem_of_In. apply split_spec.
Qed.

(** C8 (the code at the failing input). A trailing legal-entity suffix
    survives: every key of [replacements] ends in a space, and the name
    was stripped before the replacements are made. *)
Theorem normalize_name_keeps_trailing_suffix :
  normalize_name float_repr (VStr "Acme Corp.") = "acme corp"
  /\ normalize_name float_repr (VStr "Acme") = "acme"
  /\ String.eqb (normalize_name float_repr (VStr "Acme Corp."))
                (normalize_name float_repr (VStr "Acme")) = false.
Proof. repeat split; vm_compute; reflexivity. Qed.

(** A suffix followed by another word is removed. *)
Lemma normalize_name_inner_suffix :
  normalize_name float_repr (VStr "Acme Corp. Holdings")
  = normalize_name float_repr (VStr "Acme Holdings").
Proof. vm_compute. reflexivity. Qed.

End NameMatcherFacts.

(* ===================================================================== *)
(** * Properties of the field normalizers *)
(* ===================================================================== *)

Section FieldNormalizerFacts.
Import PyStr PyFloat PyStrFacts.

Variable float_repr : Q -> string.

(** ** Transaction types *)

Lemma dict_get_in (m : list (string * string)) (k v : string) :
  dict_get m k = Some v -> In (k, v) m.
Proof.
  induction m as [ | [k' v'] m IH]; simpl; [discriminate | ].
  destruct (String.eqb_spec k' k) as [-> | Hne].
  - intros [= ->]. left. reflexivity.
  - intros H. right. apply IH, H.
Qed.

Lemma dict_get_none (m : list (string * string)) (key : string) :
  (forall k v, In (k, v) m -> key <> k) -> dict_get m key = None.
Proof.
  induction m as [ | [k' v'] m IH]; simpl; [reflexivity | ].
  intros H. destruct (String.eqb_spec k' key) as [-> | Hne].
  - exfalso. apply (H key v'); [left; reflexivity | reflexivity].
  - apply IH. intros k v Hin. apply (H k v). right. exact Hin.
Qed.

Lemma mapped_in_vocabulary (k v : string) :
  In (k, v) transaction_mapping -> In v Spec.vocabulary.
Proof.
  unfold transaction_mapping. simpl.
  intros H. repeat (destruct H as [H | H]; [injection H as <- <-; tauto | ]).
  contradiction.
Qed.

Lemma map_transaction_type_vocabulary (v : cell) :
  In (map_transaction_type v) Spec.vocabulary.
Proof.
  assert (Hother : In "Other" Spec.vocabulary) by (simpl; tauto).
  destruct v as [ | f | s]; try exact Hother.
  unfold map_transaction_type.
  destruct (dict_get transaction_mapping (lower s)) as [t | ] eqn:Hget.
  - apply dict_get_in in Hget. eapply mapped_in_vocabulary, Hget.
  - exact Hother.
Qed.

Lemma str_accessor_ok_label (ser : Series) (i : nat) (s : string) :
  dtype ser = object -> values ser !! i = Some (VStr s) -> str_accessor_ok ser = true.
Proof.
  intros Hd Hi. unfold str_accessor_ok. rewrite Hd.
  assert (Hin : VStr s ∈ filter (fun v => negb (isna v)) (values ser)).
  { apply list_elem_of_filter. split; [exact I | eapply list_elem_of_lookup_2, Hi]. }
  destruct (filter _ (values ser)) as [ | v present] eqn:Hp.
  - inversion Hin.
  - apply existsb_exists. exists (VStr s). split; [ | reflexivity].
    apply list_elem_of_In, Hin.
Qed.

(** C6 (amended). On a column of labels the stage leaves nothing outside
    the closed vocabulary, and it decides each label by its lower-cased
    form as a whole: a label whose lower-cased form is a key of the synonym
    table becomes that key's entry, every other label becomes "Other". *)
Theorem transaction_type_exact_lookup
    (data : DataFrame) (ser : Series) (i : nat) (s : string) :
  data !! "transaction_type" = Some ser ->
  dtype ser = object ->
  values ser !! i = Some (VStr s) ->
  exists (data' : DataFrame) (ser' : Series) (t : string),
    standardize_transaction_types data = Ok data'
    /\ data' !! "transaction_type" = Some ser'
    /\ Forall (fun v => exists t', v = VStr t' /\ In t' Spec.vocabulary) (values ser')
    /\ values ser' !! i = Some (VStr t)
    /\ (forall k t', In (k, t') transaction_mapping -> lower s = k -> t = t')
    /\ ((forall k t', In (k, t') transaction_mapping -> lower s <> k) -> t = "Other").
Proof.
  intros Hser Hd Hi.
  exists (<["transaction_type" := apply_str map_transaction_type ser]> data),
         (apply_str map_transaction_type ser), (map_transaction_type (VStr s)).
  split.
  { unfold standardize_transaction_types.
    rewrite Hser, (str_accessor_ok_label ser i s Hd Hi). reflexivity. }
  split; [apply lookup_insert_eq | ].
  split.
  { cbn [apply_str values]. apply Forall_map, Forall_forall.
    intros v _. eexists. split; [reflexivity | ].
    apply map_transaction_type_vocabulary. }
  split.
  { cbn [apply_str values]. rewrite list_lookup_fmap, Hi. reflexivity. }
  split.
  - intros k t' Hin Hk. unfold map_transaction_type. rewrite Hk.
    unfold transaction_mapping in Hin. simpl in Hin.
    repeat (destruct Hin as [Hin | Hin]; [injection Hin as <- <-; reflexivity | ]).
    contradiction.
  - intros H. unfold map_transaction_type.
    rewrite (dict_get_none _ _ H). reflexivity.
Qed.

(** C6 (counterexample). Matching is not by substring: the third label of
    the sample batch, "New Business", contains the key "new", and the
    stage turns it into "Other", not into "New". *)
Lemma transaction_type_not_by_substring :
  ~ (forall (data data' : DataFrame) (ser ser' : Series) (i : nat) (s k t : string),
        data !! "transaction_type" = Some ser ->
        values ser !! i = Some (VStr s) ->
        In (k, t) transaction_mapping ->
        contains k (lower s) = true ->
        standardize_transaction_types data = Ok data' ->
        data' !! "transaction_type" = Some ser' ->
        values ser' !! i = Some (VStr t)).
Proof.
  intros H.
  specialize (H Examples.raw_batch
                (<["transaction_type" :=
                     Examples.text_column ["New"; "Renewal"; "Other"]]> Examples.raw_batch)
                (Examples.text_column ["NEW"; "renew"; "New Business"])
                (Examples.text_column ["New"; "Renewal"; "Other"])
                2 "New Business" "new" "New").
  assert (Hval : values (Examples.text_column ["New"; "Renewal"; "Other"]) !! 2
                 = Some (VStr "New")).
  { apply H.
    - vm_compute. reflexivity.
    - reflexivity.
    - left. reflexivity.
    - reflexivity.
    - vm_compute. reflexivity.
    - apply lookup_insert_eq. }
  discriminate Hval.
Qed.

(** ** Amounts *)

Lemma py_float_raises_ValueError (s : string) (e : exn) :
  py_float s = Raise e -> exn_cls e = ValueError.
Proof.
  unfold py_float.
  destruct (underscores_ok _ _); [destruct (parse_plain _) | ];
    intros [= <-]; reflexivity.
Qed.

Lemma clean_amount_str (s : string) :
  clean_amount (VStr s)
  = match py_float (rewrite_minus_dollar (rewrite_parens (strip_currency s))) with
    | Ok f => Ok f
    | Raise _ => Ok zero
    end.
Proof.
  unfold clean_amount, try_except. simpl.
  destruct (py_float _) as [f | e] eqn:Hp; [reflexivity | ].
  rewrite (py_float_raises_ValueError _ _ Hp). reflexivity.
Qed.



(** Stripping keeps a property that all characters have. *)
Lemma all_chars_rstrip (p : ascii -> bool) (s : string) :
  all_chars p s = true -> all_chars p (rstrip s) = true.
Proof.
  induction s as [ | c s IH]; simpl; [reflexivity | ].
  intros [Hc Hs]%andb_prop.
  destruct (is_space c && is_empty (rstrip s)); [reflexivity | ].
  simpl. rewrite Hc. auto.
Qed.

Lemma all_chars_lstrip (p : ascii -> bool) (s : string) :
  all_chars p s = true -> all_chars p (lstrip s) = true.
Proof.
  induction s as [ | c s IH]; simpl; [reflexivity | ].
  intros H. destruct (is_space c); [ | exact H].
  apply andb_prop in H as [_ Hs]. auto.
Qed.

Lemma all_chars_drop (p : ascii -> bool) (n : nat) (s : string) :
  all_chars p s = true -> all_chars p (drop n s) = true.
Proof.
  revert s. induction n as [ | n IH]; intros s H; [exact H | ].
  destruct s as [ | c s]; [reflexivity | ].
  simpl in H. apply andb_prop in H as [_ Hs]. simpl. apply IH, Hs.
Qed.

Lemma all_chars_take (p : ascii -> bool) (n : nat) (s : string) :
  all_chars p s = true -> all_chars p (take n s) = true.
Proof.
  revert s. induction n as [ | n IH]; intros s H; [reflexivity | ].
  destruct s as [ | c s]; [reflexivity | ].
  simpl in H. apply andb_prop in H as [Hc Hs]. simpl. rewrite Hc. apply IH, Hs.
Qed.

(** The "-$" rewrite never fires: no "$" is left after [strip_currency]. *)
Lemma rewrite_minus_dollar_idle (s : string) :
  rewrite_minus_dollar (rewrite_parens (strip_currency s))
  = rewrite_parens (strip_currency s).
Proof.
  set (no_dollar := fun d : ascii => negb (Ascii.eqb d "$")).
  assert (H1 : all_chars no_dollar (strip_currency s) = true).
  { unfold strip_currency, strip, remove_char.
    apply all_chars_rstrip, all_chars_lstrip.
    assert (Hf : forall t, all_chars no_dollar t = true ->
                           all_chars no_dollar
                             (filter_chars (fun d => negb (Ascii.eqb d ",")) t) = true).
    { intros t. induction t as [ | c t IH]; simpl; [reflexivity | ].
      intros [Hc Ht]%andb_prop.
      destruct (negb (Ascii.eqb c ",")); simpl; [rewrite Hc | ]; auto. }
    apply Hf, filter_chars_all. }
  assert (H2 : all_chars no_dollar (rewrite_parens (strip_currency s)) = true).
  { unfold rewrite_parens.
    destruct (startswith "(" (strip_currency s) && endswith ")" (strip_currency s));
      [ | exact H1].
    change (no_dollar "-"%char
            && all_chars no_dollar (slice_1_m1 (strip_currency s)) = true).
    unfold slice_1_m1. rewrite all_chars_take by (apply all_chars_drop, H1).
    reflexivity. }
  unfold rewrite_minus_dollar.
  destruct (rewrite_parens (strip_currency s)) as [ | a [ | b r]]; try reflexivity.
  - cbn [startswith]. rewrite andb_false_r. reflexivity.
  - simpl in H2. apply andb_prop in H2 as [_ H2]. apply andb_prop in H2 as [Hb _].
    unfold no_dollar in Hb. apply negb_true_iff in Hb.
    cbn [startswith]. rewrite (Ascii.eqb_sym "$" b), Hb.
    rewrite andb_false_r. reflexivity.
Qed.

(** ** Member identifiers *)

(** C10 (amended). After the identifier stage every value of a present
    [member_id] column is a string of alphanumeric characters only; a NaN
    becomes "nan" and a [None] becomes "None". *)
Theorem clean_member_ids_alphanumeric :
  (forall (data : DataFrame) (ser : Series),
      data !! "member_id" = Some ser ->
      exists ser',
        clean_member_ids float_repr data !! "member_id" = Some ser'
        /\ values ser' = map (fun v => VStr (clean_member_id float_repr v)) (values ser)
        /\ Forall (fun v => exists s, v = VStr s /\ all_chars is_alnum s = true)
                  (values ser'))
  /\ clean_member_id float_repr (VFloat FNan) = "nan"
  /\ clean_member_id float_repr VNone = "None".
Proof.
  split; [ | split; reflexivity].
  intros data ser Hser. unfold clean_member_ids, apply_if_present. rewrite Hser.
  eexists. split; [apply lookup_insert_eq | ]. split; [reflexivity | ].
  simpl. apply Forall_map, Forall_forall. intros v _.
  eexists. split; [reflexivity | ]. apply filter_chars_all.
Qed.

(** C10 (counterexample). A missing identifier does not always become
    "nan": [None] is missing too, and becomes "None". *)
Lemma missing_member_id_not_always_nan :
  ~ (forall v : cell, isna v = true -> clean_member_id (fun _ => "0.0") v = "nan").
Proof. intros H. specialize (H VNone eq_refl). vm_compute in H. discriminate. Qed.

(** ** Names *)

Lemma clean_name_blank (v : cell) :
  Spec.blank_name v -> clean_name float_repr v = "Unknown Agent".
Proof.
  intros [Hna | (s & -> & Hs)]; unfold clean_name.
  - rewrite Hna. reflexivity.
  - simpl. rewrite Hs. reflexivity.
Qed.

Lemma clean_name_nonempty (v : cell) : clean_name float_repr v <> "".
Proof.
  unfold clean_name.
  destruct (isna v || is_empty (strip (py_str float_repr v))) eqn:Hb; [discriminate | ].
  apply orb_false_elim in Hb as [_ He].
  set (name := strip (py_str float_repr v)) in *.
  destruct (split name) as [ | w ws] eqn:Hsp.
  - exfalso. apply split_nil in Hsp.
    unfold name in Hsp. rewrite <- strip_empty in Hsp.
    unfold name in He. apply is_empty_false in He. apply He.
    apply strip_empty. apply strip_empty in Hsp.
    rewrite <- split_nil in Hsp |- *. rewrite split_strip in Hsp. exact Hsp.
  - simpl map. apply join_nonempty.
    pose proof (split_tokens name) as Htok. rewrite Hsp in Htok.
    inversion Htok as [ | ? ? Hw _]; subst.
    apply capitalize_token in Hw. apply Hw.
Qed.

(** C9. The name stage treats [agency_name] exactly as [agent_name]: the
    same [clean_name] is applied to every value of either column, so a
    null, empty or whitespace-only value becomes "Unknown Agent" and no
    value is left null or empty. *)
Theorem agency_name_sentinel (data : DataFrame) (col : string) (ser : Series) :
  col = "agency_name" \/ col = "agent_name" ->
  data !! col = Some ser ->
  exists ser',
    normalize_names float_repr data !! col = Some ser'
    /\ values ser' = map (fun v => VStr (clean_name float_repr v)) (values ser)
    /\ (forall i v, values ser !! i = Some v ->
           exists s, values ser' !! i = Some (VStr s)
                     /\ s <> ""
                     /\ (Spec.blank_name v -> s = "Unknown Agent")).
Proof.
  intros Hcol Hser.
  assert (Hlook : normalize_names float_repr data !! col
                  = Some (apply_str (clean_name float_repr) ser)).
  { unfold normalize_names, apply_if_present.
    destruct Hcol as [-> | ->].
    - destruct (data !! "agent_name") as [a | ] eqn:Ha.
      + rewrite lookup_insert_ne by discriminate. rewrite Hser.
        apply lookup_insert_eq.
      + rewrite Hser. apply lookup_insert_eq.
    - rewrite Hser.
      destruct (<["agent_name" := _]> data !! "agency_name") as [g | ] eqn:Hg.
      + rewrite lookup_insert_ne by discriminate. apply lookup_insert_eq.
      + apply lookup_insert_eq. }
  eexists. split; [exact Hlook | ]. split; [reflexivity | ].
  intros i v Hv. exists (clean_name float_repr v). split.
  - simpl. rewrite list_lookup_fmap, Hv. reflexivity.
  - split; [apply clean_name_nonempty | apply clean_name_blank].
Qed.

End FieldNormalizerFacts.

(* ===================================================================== *)
(** * The amount cleaner on written amounts *)
(* ===================================================================== *)

Section AmountFacts.
Import PyStr PyFloat PyStrFacts Spec.

(** ** Character facts *)

Lemma digit_not_special (c : ascii) :
  is_digit c = true ->
  is_space c = false
  /\ Ascii.eqb c "$" = false /\ Ascii.eqb c "," = false
  /\ Ascii.eqb c "_" = false /\ Ascii.eqb c "(" = false
  /\ Ascii.eqb c "-" = false /\ Ascii.eqb c "+" = false
  /\ Ascii.eqb c "." = false.
Proof. each_char c; intros _; repeat split. Qed.

Lemma digit_char_is_digit (d : nat) : d < 10 -> is_digit (digit_char d) = true.
Proof. intros H. do 10 (destruct d as [ | d]; [reflexivity | ]). lia. Qed.

Lemma digit_value_char (d : nat) : d < 10 -> digit_value (digit_char d) = Z.of_nat d.
Proof. intros H. do 10 (destruct d as [ | d]; [reflexivity | ]). lia. Qed.

Lemma read_sign_digit (c : ascii) (s : string) :
  is_digit c = true -> read_sign (String c s) = (false, String c s).
Proof. each_char c. Qed.

Lemma not_inf_nan_digit (c : ascii) (s : string) :
  is_digit c = true ->
  String.eqb (lower (String c s)) "inf" = false
  /\ String.eqb (lower (String c s)) "infinity" = false
  /\ String.eqb (lower (String c s)) "nan" = false.
Proof. each_char c; intros _; repeat split. Qed.

(** ** Digit strings *)

Lemma render_digits_app (ds es : list nat) :
  render_digits (ds ++ es) = render_digits ds +:+ render_digits es.
Proof.
  induction ds as [ | d ds IH]; [reflexivity | ].
  cbn [app render_digits]. rewrite IH. reflexivity.
Qed.

Lemma render_digits_all (ds : list nat) :
  Forall (fun d => d < 10) ds -> all_chars is_digit (render_digits ds) = true.
Proof.
  induction 1 as [ | d ds Hd _ IH]; [reflexivity | ].
  cbn [render_digits all_chars].
  rewrite digit_char_is_digit by exact Hd. exact IH.
Qed.

Lemma render_digits_length (ds : list nat) :
  String.length (render_digits ds) = length ds.
Proof.
  induction ds as [ | d ds IH]; [reflexivity | ].
  cbn [render_digits String.length length]. rewrite IH. reflexivity.
Qed.

Lemma digits_value_from_render (ds : list nat) (acc : Z) :
  Forall (fun d => d < 10) ds ->
  digits_value_from acc (render_digits ds)
  = fold_left (fun a d => (10 * a + Z.of_nat d)%Z) ds acc.
Proof.
  intros H. revert acc. induction H as [ | d ds Hd _ IH]; intros acc; [reflexivity | ].
  cbn [render_digits digits_value_from fold_left].
  rewrite digit_value_char by exact Hd. apply IH.
Qed.

Lemma horner_from (ds : list nat) (acc : Z) :
  fold_left (fun a d => (10 * a + Z.of_nat d)%Z) ds acc
  = (acc * 10 ^ Z.of_nat (length ds) + horner ds)%Z.
Proof.
  unfold horner. revert acc. induction ds as [ | d ds IH]; intros acc.
  - simpl. lia.
  - cbn [fold_left length]. rewrite IH. rewrite (IH (10 * 0 + Z.of_nat d)%Z).
    rewrite Nat2Z.inj_succ, Z.pow_succ_r by lia. lia.
Qed.

Lemma horner_app (ds es : list nat) :
  horner (ds ++ es) = (horner ds * 10 ^ Z.of_nat (length es) + horner es)%Z.
Proof. unfold horner at 1. rewrite fold_left_app. fold (horner ds). apply horner_from. Qed.

Lemma span_digits_app (ds rest : string) :
  all_chars is_digit ds = true ->
  match rest with String c _ => is_digit c = false | EmptyString => True end ->
  span_digits (ds +:+ rest) = (ds, rest).
Proof.
  intros Hds Hrest. induction ds as [ | c ds IH]; simpl.
  - destruct rest as [ | c r]; [reflexivity | ]. simpl. rewrite Hrest. reflexivity.
  - simpl in Hds. apply andb_prop in Hds as [Hc Hds].
    rewrite Hc, (IH Hds). reflexivity.
Qed.

Lemma drop_append (s t : string) : drop (String.length s) (s +:+ t) = t.
Proof.
  induction s as [ | c s IH]; [reflexivity | ].
  rewrite append_cons. cbn [String.length drop]. exact IH.
Qed.

Lemma take_append (s t : string) : take (String.length s) (s +:+ t) = s.
Proof.
  induction s as [ | c s IH]; [destruct t; reflexivity | ].
  rewrite append_cons. cbn [String.length take]. rewrite IH. reflexivity.
Qed.

(** ** Stripping a string of non-space characters *)

Lemma first_ok_no_space (s : string) : all_chars no_space s = true -> first_ok s = true.
Proof. destruct s; simpl; [reflexivity | ]. intros [H _]%andb_prop. exact H. Qed.

Lemma last_ok_no_space (s : string) : all_chars no_space s = true -> last_ok s = true.
Proof.
  induction s as [ | c s IH]; [reflexivity | ].
  intros H. simpl in H. apply andb_prop in H as [Hc Hs].
  destruct s as [ | c' s']; simpl; [exact Hc | ]. apply IH, Hs.
Qed.

Lemma strip_no_space (s : string) : all_chars no_space s = true -> strip s = s.
Proof.
  intros H. apply strip_id; [apply first_ok_no_space | apply last_ok_no_space]; exact H.
Qed.

(** What [float()] skips is among what [str.strip] removes. *)
Lemma c_space_is_space (c : ascii) : is_c_space c = true -> is_space c = true.
Proof. each_char c. Qed.

Lemma skip_no_space (s : string) :
  all_chars no_space s = true -> skip_trailing (skip_leading s) = s.
Proof.
  intros H.
  assert (Hc : forall c, no_space c = true -> is_c_space c = false).
  { intros c Hc. destruct (is_c_space c) eqn:E; [ | reflexivity].
    apply c_space_is_space in E. unfold no_space in Hc. rewrite E in Hc. discriminate. }
  assert (Hlead : skip_leading s = s).
  { destruct s as [ | c s]; [reflexivity | ]. simpl in H |- *.
    apply andb_prop in H as [H1 _]. rewrite (Hc c H1). reflexivity. }
  rewrite Hlead. induction s as [ | c s IH]; [reflexivity | ].
  simpl in H. apply andb_prop in H as [H1 H2].
  cbn [skip_trailing]. rewrite (Hc c H1). cbn [andb].
  rewrite IH; [reflexivity | exact H2 | ].
  destruct s as [ | d s]; [reflexivity | ]. simpl in H2 |- *.
  apply andb_prop in H2 as [H3 _]. rewrite (Hc d H3). reflexivity.
Qed.

Lemma underscores_ok_none (prev : ascii) (s : string) :
  Ascii.eqb prev "_" = false ->
  all_chars (fun d => negb (Ascii.eqb d "_")) s = true ->
  underscores_ok prev s = true.
Proof.
  revert prev. induction s as [ | c s IH]; intros prev Hprev Hs; simpl.
  - rewrite Hprev. reflexivity.
  - simpl in Hs. apply andb_prop in Hs as [Hc Hs].
    apply negb_true_iff in Hc. rewrite Hc, Hprev. simpl. apply IH; assumption.
Qed.

(** ** The text that reaches [float()] *)

Lemma plain_char_facts (c : ascii) :
  plain_char c = true ->
  no_space c = true /\ negb (Ascii.eqb c "_") = true.
Proof. each_char c; intros _; split; reflexivity. Qed.

Lemma digit_plain (c : ascii) : is_digit c = true -> plain_char c = true.
Proof. unfold plain_char. intros ->. reflexivity. Qed.

Lemma plain_text_chars (negative : bool) (ip : string) (fp : option string) :
  all_chars is_digit ip = true ->
  all_chars is_digit (fraction_digits fp) = true ->
  all_chars plain_char (plain_text negative ip fp) = true.
Proof.
  intros Hip Hfp. unfold plain_text. rewrite !all_chars_app.
  apply andb_true_intro. split; [destruct negative; reflexivity | ].
  apply andb_true_intro. split.
  - eapply all_chars_impl; [apply digit_plain | exact Hip].
  - destruct fp as [f | ]; [ | reflexivity].
    change (plain_char "." && all_chars plain_char f = true).
    simpl in Hfp. rewrite (all_chars_impl _ _ _ digit_plain Hfp). reflexivity.
Qed.

Lemma parse_plain_text (negative : bool) (ip : string) (fp : option string) :
  ip <> "" ->
  all_chars is_digit ip = true ->
  all_chars is_digit (fraction_digits fp) = true ->
  parse_plain (plain_text negative ip fp)
  = Some (of_decimal negative (digits_value (ip +:+ fraction_digits fp))
                     (0 - Z.of_nat (String.length (fraction_digits fp)))).
Proof.
  intros Hne Hip Hfp.
  destruct ip as [ | c ip']; [congruence | ].
  pose proof Hip as Hip0. simpl in Hip0. apply andb_prop in Hip0 as [Hc _].
  set (frac := match fp with Some f => String "." f | None => "" end).
  assert (Hsign : read_sign (plain_text negative (String c ip') fp)
                  = (negative, String c (ip' +:+ frac))).
  { unfold plain_text. fold frac. destruct negative.
    - reflexivity.
    - rewrite append_nil, append_cons. apply read_sign_digit, Hc. }
  unfold parse_plain. rewrite Hsign.
  destruct (not_inf_nan_digit c (ip' +:+ frac) Hc) as (-> & -> & ->).
  cbn [orb].
  rewrite <- append_cons.
  rewrite (span_digits_app (String c ip') frac Hip)
    by (unfold frac; destruct fp; [reflexivity | exact I]).
  destruct fp as [f | ]; unfold frac; cbn [fraction_digits] in *.
  - pose proof (span_digits_app f "" Hfp I) as Hspan.
    rewrite append_empty_r in Hspan. rewrite Hspan.
    reflexivity.
  - rewrite append_empty_r. reflexivity.
Qed.

Lemma py_float_plain_text (negative : bool) (ip : string) (fp : option string) :
  ip <> "" ->
  all_chars is_digit ip = true ->
  all_chars is_digit (fraction_digits fp) = true ->
  py_float (plain_text negative ip fp)
  = Ok (of_decimal negative (digits_value (ip +:+ fraction_digits fp))
                   (0 - Z.of_nat (String.length (fraction_digits fp)))).
Proof.
  intros Hne Hip Hfp.
  pose proof (plain_text_chars negative ip fp Hip Hfp) as Hchars.
  assert (Hsp : all_chars no_space (plain_text negative ip fp) = true).
  { eapply all_chars_impl; [ | exact Hchars]. intros c Hc. apply plain_char_facts, Hc. }
  assert (Hus : all_chars (fun d => negb (Ascii.eqb d "_")) (plain_text negative ip fp) = true).
  { eapply all_chars_impl; [ | exact Hchars]. intros c Hc. apply plain_char_facts, Hc. }
  unfold py_float. rewrite (skip_no_space _ Hsp).
  rewrite underscores_ok_none by (reflexivity || exact Hus).
  unfold remove_char. rewrite (filter_chars_id _ _ Hus).
  rewrite parse_plain_text by assumption. reflexivity.
Qed.

(** ** From the written amount to that text *)

Lemma remove_currency_app (s t : string) :
  remove_currency (s +:+ t) = remove_currency s +:+ remove_currency t.
Proof. unfold remove_currency, remove_char. rewrite !filter_chars_app. reflexivity. Qed.

Lemma remove_currency_digits (s : string) :
  all_chars is_digit s = true -> remove_currency s = s.
Proof.
  intros H. unfold remove_currency, remove_char.
  assert (Hdollar : all_chars (fun d => negb (Ascii.eqb d "$")) s = true).
  { eapply all_chars_impl; [ | exact H].
    intros c Hc. destruct (digit_not_special c Hc) as (_ & E & _). rewrite E. reflexivity. }
  assert (Hcomma : all_chars (fun d => negb (Ascii.eqb d ",")) s = true).
  { eapply all_chars_impl; [ | exact H].
    intros c Hc. destruct (digit_not_special c Hc) as (_ & _ & E & _). rewrite E. reflexivity. }
  rewrite (filter_chars_id _ _ Hdollar). apply filter_chars_id, Hcomma.
Qed.

Lemma remove_currency_groups (gs : list (list nat)) :
  Forall (fun g => g <> [] /\ Forall (fun d => d < 10) g) gs ->
  remove_currency (join "," (map render_digits gs)) = render_digits (concat gs).
Proof.
  induction 1 as [ | g gs [_ Hg] Hgs IH]; [reflexivity | ].
  destruct gs as [ | g' gs'].
  - simpl. rewrite app_nil_r. apply remove_currency_digits, render_digits_all, Hg.
  - change (join "," (map render_digits (g :: g' :: gs')))
      with (render_digits g +:+ "," +:+ join "," (map render_digits (g' :: gs'))).
    rewrite !remove_currency_app, IH.
    rewrite (remove_currency_digits _ (render_digits_all _ Hg)).
    change (remove_currency ",") with "". rewrite append_nil.
    change (concat (g :: g' :: gs')) with (g ++ concat (g' :: gs')).
    rewrite render_digits_app. reflexivity.
Qed.

Lemma concat_digits (gs : list (list nat)) :
  Forall (fun g => g <> [] /\ Forall (fun d => d < 10) g) gs ->
  Forall (fun d => d < 10) (concat gs).
Proof.
  induction 1 as [ | g gs [_ Hg] _ IH]; simpl; [constructor | ].
  apply Forall_app. split; assumption.
Qed.

Lemma endswith_paren (m : string) :
  endswith ")" (String "(" (m +:+ ")")) = true
  /\ slice_1_m1 (String "(" (m +:+ ")")) = m.
Proof.
  unfold endswith, slice_1_m1.
  cbn [String.length drop]. rewrite length_append. cbn [String.length].
  replace (S (String.length m + 1) - 1) with (S (String.length m)) by lia.
  replace (S (String.length m + 1) - 2) with (String.length m) by lia.
  cbn [drop]. rewrite drop_append, take_append. split; reflexivity.
Qed.

Lemma prepared_render (w : written_amount) :
  well_formed w ->
  rewrite_minus_dollar (rewrite_parens (strip_currency (render w)))
  = plain_text (wa_negative w) (integer_text w) (fraction_text w)
  /\ integer_text w <> ""
  /\ all_chars is_digit (integer_text w) = true
  /\ all_chars is_digit (fraction_digits (fraction_text w)) = true.
Proof.
  destruct w as [neg dol gs fr]. unfold well_formed, integer_text, fraction_text.
  cbn [wa_negative wa_dollar wa_groups wa_fraction].
  intros (Hne & Hgs & Hfr).
  pose proof (concat_digits gs Hgs) as Hcat.
  pose proof (render_digits_all _ Hcat) as HD.
  assert (HF : all_chars is_digit (fraction_digits (option_map render_digits fr)) = true).
  { destruct fr as [ds | ]; [apply render_digits_all, Hfr | reflexivity]. }
  set (D := render_digits (concat gs)) in *.
  set (frac := match option_map render_digits fr with
               | Some f => String "." f | None => "" end).
  assert (HDne : exists c D', D = String c D' /\ is_digit c = true).
  { destruct gs as [ | g gs']; [congruence | ].
    inversion Hgs as [ | ? ? [Hg _] _]; subst.
    destruct g as [ | d g']; [congruence | ].
    subst D. cbn [concat app render_digits] in HD |- *.
    eexists _, _. split; [reflexivity | ].
    cbn [all_chars] in HD. apply andb_prop in HD as [Hd _]. exact Hd. }
  destruct HDne as (c & D' & HDeq & Hc).
  (* after removing "$" and "," *)
  assert (Hrc : remove_currency (render (MkWritten neg dol gs fr))
                = if neg then String "(" ((D +:+ frac) +:+ ")") else D +:+ frac).
  { unfold render. cbn [wa_negative wa_dollar wa_groups wa_fraction].
    assert (Hbody : remove_currency
                      (join "," (map render_digits gs) +:+ render_fraction fr)
                    = D +:+ frac).
    { rewrite remove_currency_app, remove_currency_groups by exact Hgs.
      f_equal. unfold frac. destruct fr as [ds | ]; [ | reflexivity].
      cbn [render_fraction option_map].
      change (String "." (render_digits ds)) with ("." +:+ render_digits ds).
      rewrite remove_currency_app.
      rewrite (remove_currency_digits _ (render_digits_all _ Hfr)). reflexivity. }
    set (body := join "," (map render_digits gs) +:+ render_fraction fr) in *.
    destruct neg, dol; rewrite !remove_currency_app, Hbody; reflexivity. }
  assert (Hcore_chars : forall t,
             all_chars plain_char t = true ->
             all_chars no_space (if neg then String "(" (t +:+ ")") else t) = true).
  { intros t Ht.
    assert (Hns : all_chars no_space t = true).
    { eapply all_chars_impl; [ | exact Ht]. intros a Ha. apply plain_char_facts, Ha. }
    destruct neg; [ | exact Hns].
    change (no_space "(" && all_chars no_space (t +:+ ")") = true).
    rewrite all_chars_app, Hns. reflexivity. }
  assert (Hplain : all_chars plain_char (D +:+ frac) = true).
  { pose proof (plain_text_chars false D (option_map render_digits fr) HD HF) as H.
    unfold plain_text in H. rewrite append_nil in H. exact H. }
  assert (Hstrip : strip_currency (render (MkWritten neg dol gs fr))
                   = if neg then String "(" ((D +:+ frac) +:+ ")") else D +:+ frac).
  { unfold strip_currency. fold (remove_currency (render (MkWritten neg dol gs fr))).
    rewrite Hrc. apply strip_no_space, Hcore_chars, Hplain. }
  split; [ | split; [rewrite HDeq; discriminate | split; assumption]].
  rewrite Hstrip. unfold plain_text. fold frac.
  destruct (digit_not_special c Hc) as (_ & Hdollar & _ & _ & Hparen & Hminus & _).
  destruct neg.
  - unfold rewrite_parens.
    destruct (endswith_paren (D +:+ frac)) as [-> ->].
    cbn [startswith andb Ascii.eqb Bool.eqb].
    unfold rewrite_minus_dollar. rewrite HDeq, append_cons.
    cbn [startswith]. rewrite (Ascii.eqb_sym "$" c), Hdollar.
    rewrite andb_false_r. reflexivity.
  - rewrite append_nil. unfold rewrite_parens. rewrite HDeq, append_cons.
    cbn [startswith]. rewrite (Ascii.eqb_sym "(" c), Hparen. cbn [andb].
    unfold rewrite_minus_dollar. cbn [startswith].
    rewrite (Ascii.eqb_sym "-" c), Hminus. reflexivity.
Qed.

(** ** The value *)

Lemma pow10_neg (n : nat) :
  (pow10 (0 - Z.of_nat n) == / inject_Z (10 ^ Z.of_nat n))%Q.
Proof.
  unfold pow10. destruct n as [ | n].
  - reflexivity.
  - replace (0 <=? 0 - Z.of_nat (S n))%Z with false by (symmetry; apply Z.leb_gt; lia).
    replace (- (0 - Z.of_nat (S n)))%Z with (Z.of_nat (S n)) by lia.
    reflexivity.
Qed.

Lemma scaled_decimal (a b p : Z) :
  (0 < p)%Z ->
  (inject_Z (a * p + b) * / inject_Z p == inject_Z a + inject_Z b / inject_Z p)%Q.
Proof.
  intros Hp. rewrite inject_Z_plus, inject_Z_mult.
  assert (Hnz : ~ (inject_Z p == 0)%Q).
  { unfold Qeq. simpl. lia. }
  field. exact Hnz.
Qed.

Lemma written_value_decimal (w : written_amount) :
  well_formed w ->
  let m := digits_value (integer_text w +:+ fraction_digits (fraction_text w)) in
  let n := String.length (fraction_digits (fraction_text w)) in
  (inject_Z (if wa_negative w then (- m)%Z else m) * pow10 (0 - Z.of_nat n)
   == written_value w)%Q.
Proof.
  destruct w as [neg dol gs fr]. unfold well_formed, integer_text, fraction_text, written_value.
  cbn [wa_negative wa_dollar wa_groups wa_fraction].
  intros (Hne & Hgs & Hfr). cbv zeta.
  set (m := digits_value
              (render_digits (concat gs)
               +:+ fraction_digits (option_map render_digits fr))).
  set (n := String.length (fraction_digits (option_map render_digits fr))).
  pose proof (concat_digits gs Hgs) as Hcat.
  set (fds := match fr with Some ds => ds | None => [] end).
  assert (Hfds : Forall (fun d => d < 10) fds).
  { unfold fds. destruct fr; [exact Hfr | constructor]. }
  assert (Htext : fraction_digits (option_map render_digits fr) = render_digits fds).
  { unfold fds. destruct fr; reflexivity. }
  assert (Hm : m = (horner (concat gs) * 10 ^ Z.of_nat (length fds) + horner fds)%Z).
  { unfold m. rewrite Htext, <- render_digits_app.
    unfold digits_value. rewrite digits_value_from_render by (apply Forall_app; split; assumption).
    fold (horner (concat gs ++ fds)). apply horner_app. }
  assert (Hn : n = length fds).
  { unfold n. rewrite Htext. apply render_digits_length. }
  rewrite Hn, pow10_neg.
  assert (Hpos : (0 < 10 ^ Z.of_nat (length fds))%Z) by (apply Z.pow_pos_nonneg; lia).
  assert (Hmag : (inject_Z m * / inject_Z (10 ^ Z.of_nat (length fds))
                  == inject_Z (horner (concat gs))
                     + match fr with
                       | Some ds => inject_Z (horner ds) / inject_Z (10 ^ Z.of_nat (length ds))
                       | None => 0
                       end)%Q).
  { rewrite Hm, scaled_decimal by exact Hpos.
    unfold fds. destruct fr as [ds | ]; [reflexivity | ].
    simpl. unfold Qdiv. rewrite Qmult_0_l. reflexivity. }
  destruct neg.
  - rewrite inject_Z_opp, <- Hmag. ring.
  - exact Hmag.
Qed.

(** A written amount yields the float of its value. *)
Lemma clean_amount_written (w : written_amount) :
  well_formed w ->
  clean_amount (VStr (render w)) = Ok (FFin (Qred (written_value w))).
Proof.
  intros Hw. rewrite clean_amount_str.
  destruct (prepared_render w Hw) as (-> & Hne & HD & HF).
  rewrite py_float_plain_text by assumption.
  unfold of_decimal. do 2 f_equal.
  apply Qred_complete, written_value_decimal, Hw.
Qed.

Lemma clean_amount_total (v : cell) : exists f, clean_amount v = Ok f.
Proof.
  destruct v as [ | f | s].
  - exists zero. reflexivity.
  - destruct f; eexists; reflexivity.
  - rewrite clean_amount_str. destruct (py_float _); eexists; reflexivity.
Qed.


(** What is neither a number, a string nor a list ends at the last line. *)
Lemma clean_amount_other_objects (missing : bool) (a b : cell) (rest : list cell) :
  clean_amount (Opaque missing) = Ok zero
  /\ clean_amount (PyList a b rest) = Raise ValueError_ambiguous.
Proof. split; [destruct missing | ]; reflexivity. Qed.



End AmountFacts.

(* ===================================================================== *)
(** * The normalization pipeline *)
(* ===================================================================== *)

Section PipelineFacts.
Import PyStr PyFloat PyStrFacts Spec.

Variable to_datetime_strftime : Series -> result Series.
Variable float_repr : Q -> string.

#[local] Abbreviation normalize' := (normalize to_datetime_strftime float_repr).
#[local] Abbreviation column' := (normalized_column to_datetime_strftime float_repr).
#[local] Abbreviation frame' := (normalized_frame to_datetime_strftime float_repr).

Lemma lookup_apply_if_present (c : string) (f : Series -> Series)
    (data : DataFrame) (col : string) :
  apply_if_present c f data !! col
  = if decide (c = col) then f <$> data !! c else data !! col.
Proof.
  unfold apply_if_present. destruct (data !! c) as [ser | ] eqn:Hc.
  - destruct (decide (c = col)) as [<- | Hne].
    + rewrite lookup_insert_eq. reflexivity.
    + rewrite lookup_insert_ne by exact Hne. reflexivity.
  - destruct (decide (c = col)) as [<- | Hne]; [exact Hc | reflexivity].
Qed.

Lemma normalize_date_column_eq (data : DataFrame) (c : string) :
  normalize_date_column to_datetime_strftime data c
  = apply_if_present c (date_column to_datetime_strftime) data.
Proof.
  unfold normalize_date_column, apply_if_present, date_column.
  destruct (data !! c) as [ser | ]; [ | reflexivity].
  destruct (to_datetime_strftime ser); reflexivity.
Qed.

Lemma mapM_clean_amount (vs : list cell) :
  mapM (fun val : cell => clean_amount val) vs = Ok (map amount_of vs).
Proof.
  induction vs as [ | v vs IH]; [reflexivity | ].
  cbn [mapM map]. unfold amount_of at 1.
  destruct (clean_amount_total v) as [f ->]. rewrite IH. reflexivity.
Qed.

Ltac literal_decides :=
  repeat (case_decide; try discriminate; subst; try congruence).

Lemma has_column_apply_if_present (c : string) (f : Series -> Series)
    (data : DataFrame) (col : string) :
  has_column (apply_if_present c f data) col = has_column data col.
Proof.
  unfold has_column. rewrite lookup_apply_if_present.
  destruct (decide (c = col)) as [<- | Hne]; [ | reflexivity].
  destruct (data !! c); reflexivity.
Qed.

Lemma elem_of_date_columns (col : string) :
  col ∈ date_columns
  <-> col = "enrollment_date" \/ col = "disenrollment_date"
      \/ col = "effective_date" \/ col = "processed_date".
Proof. unfold date_columns. rewrite !elem_of_cons, elem_of_nil. tauto. Qed.

Lemma normalize_dates_eq (df : DataFrame) :
  normalize_dates to_datetime_strftime df
  = apply_if_present "processed_date" (date_column to_datetime_strftime)
      (apply_if_present "effective_date" (date_column to_datetime_strftime)
         (apply_if_present "disenrollment_date" (date_column to_datetime_strftime)
            (apply_if_present "enrollment_date" (date_column to_datetime_strftime) df))).
Proof.
  unfold normalize_dates. cbn [foldl date_columns].
  rewrite !normalize_date_column_eq. reflexivity.
Qed.

Lemma lookup_normalize_dates (df : DataFrame) (col : string) :
  normalize_dates to_datetime_strftime df !! col
  = if bool_decide (col ∈ date_columns)
    then date_column to_datetime_strftime <$> df !! col
    else df !! col.
Proof.
  rewrite normalize_dates_eq, !lookup_apply_if_present.
  destruct (bool_decide (col ∈ date_columns)) eqn:Hd.
  - apply bool_decide_eq_true in Hd. apply elem_of_date_columns in Hd.
    destruct Hd as [-> | [-> | [-> | ->]]]; literal_decides; reflexivity.
  - apply bool_decide_eq_false in Hd. rewrite elem_of_date_columns in Hd.
    literal_decides; try reflexivity; exfalso; apply Hd; tauto.
Qed.

Lemma has_column_normalize_dates (df : DataFrame) (col : string) :
  has_column (normalize_dates to_datetime_strftime df) col = has_column df col.
Proof. rewrite normalize_dates_eq, !has_column_apply_if_present. reflexivity. Qed.

Lemma normalize_amounts_eq (data : DataFrame) :
  normalize_amounts data
  = match data !! "commission_amount" with
    | Some _ => Ok (apply_if_present "commission_amount" amounts_cleaned data)
    | None => Raise (KeyError_column "commission_amount")
    end.
Proof.
  unfold normalize_amounts, getitem, apply_if_present.
  destruct (data !! "commission_amount") as [ser | ]; [ | reflexivity].
  cbn. rewrite mapM_clean_amount. cbn. unfold amounts_cleaned.
  rewrite map_map. reflexivity.
Qed.

Lemma standardize_transaction_types_eq (data : DataFrame) :
  standardize_transaction_types data
  = match data !! "transaction_type" with
    | Some ser =>
        if str_accessor_ok ser
        then Ok (apply_if_present "transaction_type" (apply_str map_transaction_type) data)
        else Raise AttributeError_str
    | None => Ok (apply_if_present "transaction_type" (apply_str map_transaction_type) data)
    end.
Proof.
  unfold standardize_transaction_types, apply_if_present.
  destruct (data !! "transaction_type"); reflexivity.
Qed.

Lemma filter_negb_nil {A} (p : A -> bool) (l : list A) :
  filter (fun x => negb (p x)) l = [] <-> forallb p l = true.
Proof.
  induction l as [ | a l IH]; [simpl; tauto | ].
  rewrite filter_cons. cbn [forallb].
  destruct (p a) eqn:Hp; cbn [negb andb]; case_decide as Hd.
  - destruct Hd.
  - exact IH.
  - split; discriminate.
  - exfalso. apply Hd. exact I.
Qed.

Lemma validate_required_fields_eq (data : DataFrame) :
  validate_required_fields data
  = if forallb (has_column data) required_fields
    then Ok (apply_if_present "commission_amount" amounts_filled data)
    else Raise (ValueError_missing
                  (filter (fun f => negb (has_column data f)) required_fields)).
Proof.
  unfold validate_required_fields.
  destruct (forallb (has_column data) required_fields) eqn:Hall.
  - pose proof Hall as Hnil. apply filter_negb_nil in Hnil.
    change (filter (fun f => negb (has_column data f)) required_fields)
      with (filter (fun x => negb (has_column data x)) required_fields) in *.
    rewrite Hnil.
    cbn [forallb required_fields] in Hall.
    apply andb_prop in Hall as [_ Hall]. apply andb_prop in Hall as [_ Hall].
    apply andb_prop in Hall as [_ Hall]. apply andb_prop in Hall as [Hamt _].
    unfold has_column in Hamt. apply bool_decide_eq_true in Hamt as [ser Hser].
    unfold getitem, apply_if_present. rewrite Hser. reflexivity.
  - destruct (filter (fun f => negb (has_column data f)) required_fields) eqn:Hf;
      [ | reflexivity].
    apply filter_negb_nil in Hf. congruence.
Qed.

(** ** What normalization makes of each column *)

Lemma column_date (col : string) (ser : Series) :
  col ∈ date_columns -> column' col ser = date_column to_datetime_strftime ser.
Proof.
  intros H. unfold normalized_column. rewrite bool_decide_eq_true_2 by exact H.
  reflexivity.
Qed.

Lemma column_not_date (col : string) (ser : Series) :
  col ∉ date_columns ->
  column' col ser
  = if String.eqb col "commission_amount" then amount_column ser
    else if String.eqb col "agent_name" || String.eqb col "agency_name"
         then apply_str (clean_name float_repr) ser
    else if String.eqb col "transaction_type" then apply_str map_transaction_type ser
    else if String.eqb col "member_id" then apply_str (clean_member_id float_repr) ser
    else ser.
Proof.
  intros H. unfold normalized_column. rewrite bool_decide_eq_false_2 by exact H.
  reflexivity.
Qed.

Lemma not_date_literal (col : string) :
  col = "commission_amount" \/ col = "agent_name" \/ col = "agency_name"
  \/ col = "transaction_type" \/ col = "member_id"
  \/ col = "carrier_name" \/ col = "commission_period" ->
  col ∉ date_columns.
Proof.
  rewrite elem_of_date_columns.
  intros [-> | [-> | [-> | [-> | [-> | [-> | ->]]]]]];
    intros [H | [H | [H | H]]]; discriminate H.
Qed.

Lemma amounts_filled_cleaned (ser : Series) :
  amounts_filled (amounts_cleaned ser) = amount_column ser.
Proof.
  unfold amounts_filled, amounts_cleaned, amount_column. cbn [dtype values].
  rewrite map_map. reflexivity.
Qed.

(** The frame the five stages and the validation build, column by column. *)
Lemma lookup_all_stages (df : DataFrame) (col : string) :
  apply_if_present "commission_amount" amounts_filled
    (clean_member_ids float_repr
       (apply_if_present "transaction_type" (apply_str map_transaction_type)
          (normalize_names float_repr
             (apply_if_present "commission_amount" amounts_cleaned
                (normalize_dates to_datetime_strftime df))))) !! col
  = column' col <$> df !! col.
Proof.
  unfold clean_member_ids, normalize_names.
  rewrite !lookup_apply_if_present, !lookup_normalize_dates.
  destruct (decide (col ∈ date_columns)) as [Hd | Hd].
  - rewrite (bool_decide_eq_true_2 _ Hd).
    pose proof Hd as Hd'. apply elem_of_date_columns in Hd'.
    destruct Hd' as [-> | [-> | [-> | ->]]]; literal_decides;
      (destruct (df !! _); [cbn; rewrite column_date by exact Hd | ]; reflexivity).
  - rewrite (bool_decide_eq_false_2 _ Hd).
    rewrite !bool_decide_eq_false_2
      by (apply not_date_literal; tauto).
    destruct (df !! col) as [ser | ] eqn:Hser.
    + cbn [fmap option_fmap option_map]. rewrite column_not_date by exact Hd.
      literal_decides; rewrite ?Hser; cbn;
        rewrite ?amounts_filled_cleaned; try reflexivity.
      repeat match goal with
             | H : ?l <> col |- _ =>
                 let E := fresh in
                 assert (E : String.eqb col l = false)
                   by (apply String.eqb_neq; congruence);
                 rewrite E; clear E H
             end.
      reflexivity.
    + literal_decides; rewrite ?Hser; reflexivity.
Qed.

Lemma lookup_normalized_frame (df : DataFrame) (col : string) :
  frame' df !! col = column' col <$> df !! col.
Proof.
  unfold normalized_frame. rewrite map_lookup_imap.
  destruct (df !! col); reflexivity.
Qed.

Lemma has_column_required (df : DataFrame) (f : string) :
  forallb (has_column df) required_fields = true ->
  f ∈ required_fields -> is_Some (df !! f).
Proof.
  intros Hall Hf. rewrite forallb_forall in Hall.
  specialize (Hall f). unfold has_column in Hall.
  eapply bool_decide_eq_true_1, Hall. apply list_elem_of_In, Hf.
Qed.

Lemma has_column_stages (df : DataFrame) (f : string) :
  has_column
    (clean_member_ids float_repr
       (apply_if_present "transaction_type" (apply_str map_transaction_type)
          (normalize_names float_repr
             (apply_if_present "commission_amount" amounts_cleaned
                (normalize_dates to_datetime_strftime df))))) f
  = has_column df f.
Proof.
  unfold clean_member_ids, normalize_names.
  rewrite !has_column_apply_if_present. apply has_column_normalize_dates.
Qed.

Lemma lookup_amount_after_dates_gen (df : DataFrame) (col : string) :
  col = "commission_amount" \/ col = "agent_name" \/ col = "agency_name"
  \/ col = "transaction_type" \/ col = "member_id"
  \/ col = "carrier_name" \/ col = "commission_period" ->
  normalize_dates to_datetime_strftime df !! col = df !! col.
Proof.
  intros H. rewrite lookup_normalize_dates.
  rewrite bool_decide_eq_false_2 by (apply not_date_literal; exact H). reflexivity.
Qed.

Lemma lookup_before_types (df : DataFrame) :
  normalize_names float_repr
    (apply_if_present "commission_amount" amounts_cleaned
       (normalize_dates to_datetime_strftime df)) !! "transaction_type"
  = df !! "transaction_type".
Proof.
  unfold normalize_names.
  rewrite !lookup_apply_if_present.
  literal_decides. apply lookup_amount_after_dates_gen. tauto.
Qed.

Lemma lookup_amount_after_dates (df : DataFrame) :
  normalize_dates to_datetime_strftime df !! "commission_amount"
  = df !! "commission_amount".
Proof.
  apply lookup_amount_after_dates_gen. tauto.
Qed.

(** The frame reaches validation exactly when the amount column is there
    and the [.str] accessor is granted. *)
Lemma normalize_steps (df : DataFrame) :
  normalize' df
  = try_except_all
      (match df !! "commission_amount" with
       | None => Raise (KeyError_column "commission_amount")
       | Some _ =>
           if match df !! "transaction_type" with
              | Some ser => str_accessor_ok ser
              | None => true
              end
           then if forallb (has_column df) required_fields
                then Ok (frame' df)
                else Raise (ValueError_missing
                              (filter (fun f => negb (has_column df f)) required_fields))
           else Raise AttributeError_str
       end)
      (fun e => Raise (NormalizationError e)).
Proof.
  unfold normalize. f_equal.
  rewrite normalize_amounts_eq, lookup_amount_after_dates.
  destruct (df !! "commission_amount") as [a | ] eqn:Ha; [ | reflexivity].
  cbn [mbind result_bind].
  rewrite standardize_transaction_types_eq, lookup_before_types.
  assert (Hval :
    validate_required_fields
      (clean_member_ids float_repr
         (apply_if_present "transaction_type" (apply_str map_transaction_type)
            (normalize_names float_repr
               (apply_if_present "commission_amount" amounts_cleaned
                  (normalize_dates to_datetime_strftime df)))))
    = if forallb (has_column df) required_fields
      then Ok (frame' df)
      else Raise (ValueError_missing
                    (filter (fun f => negb (has_column df f)) required_fields))).
  { rewrite validate_required_fields_eq.
    cbn [forallb filter required_fields list_filter].
    rewrite !has_column_stages.
    destruct (has_column df "carrier_name" && (has_column df "commission_period"
              && (has_column df "agent_name" && (has_column df "commission_amount" && true))));
      [ | reflexivity].
    f_equal. apply map_eq. intros col.
    rewrite lookup_all_stages, lookup_normalized_frame. reflexivity. }
  destruct (df !! "transaction_type") as [ser | ].
  - destruct (str_accessor_ok ser); [ | reflexivity].
    cbn [mbind result_bind]. rewrite Hval.
    destruct (forallb _ _); reflexivity.
  - cbn [mbind result_bind]. rewrite Hval.
    destruct (forallb _ _); reflexivity.
Qed.

Lemma normalize_accepted (df : DataFrame) :
  accepted df = true -> normalize' df = Ok (frame' df).
Proof.
  unfold accepted. intros [Hreq Htt]%andb_prop.
  rewrite normalize_steps.
  destruct (has_column_required df "commission_amount" Hreq) as [a Ha];
    [unfold required_fields; rewrite !elem_of_cons; tauto | ].
  rewrite Ha, Htt, Hreq. reflexivity.
Qed.

Lemma normalize_rejected (df : DataFrame) :
  accepted df = false -> exists e, normalize' df = Raise (NormalizationError e).
Proof.
  unfold accepted. intros Hacc. rewrite normalize_steps.
  destruct (df !! "commission_amount") as [a | ]; [ | eexists; reflexivity].
  destruct (match df !! "transaction_type" with
            | Some ser => str_accessor_ok ser | None => true end);
    [ | eexists; reflexivity].
  rewrite andb_true_r in Hacc. rewrite Hacc. eexists; reflexivity.
Qed.

Lemma normalize_ok_accepted (df d1 : DataFrame) :
  normalize' df = Ok d1 -> accepted df = true /\ d1 = frame' df.
Proof.
  intros H. destruct (accepted df) eqn:Hacc.
  - rewrite (normalize_accepted df Hacc) in H. injection H as <-. auto.
  - destruct (normalize_rejected df Hacc) as [e He]. congruence.
Qed.

Lemma missing_required_rejected (df : DataFrame) (f : string) :
  f ∈ required_fields -> has_column df f = false -> accepted df = false.
Proof.
  intros Hf Hmiss. unfold accepted.
  destruct (forallb (has_column df) required_fields) eqn:Hall; [ | reflexivity].
  exfalso. pose proof (has_column_required df f Hall Hf) as Hsome.
  unfold has_column in Hmiss. apply bool_decide_eq_false in Hmiss. contradiction.
Qed.

Lemma run_normalizer_eq (df : DataFrame) :
  is_ok (run_normalizer to_datetime_strftime float_repr df) = is_ok (normalize' df).
Proof.
  unfold run_normalizer, DataNormalizer_init, getitem.
  destruct (accepted df) eqn:Hacc.
  - pose proof Hacc as Hacc'. unfold accepted in Hacc'.
    apply andb_prop in Hacc' as [Hreq _].
    destruct (has_column_required df "agent_name" Hreq) as [a ->];
      [unfold required_fields; rewrite !elem_of_cons; tauto | ].
    destruct (has_column_required df "commission_amount" Hreq) as [b ->];
      [unfold required_fields; rewrite !elem_of_cons; tauto | ].
    reflexivity.
  - destruct (normalize_rejected df Hacc) as [e ->].
    destruct (df !! "agent_name"); [ | reflexivity].
    destruct (df !! "commission_amount"); [ | reflexivity].
    cbn. destruct (normalize_rejected df Hacc) as [e' ->]. reflexivity.
Qed.

(** The complete account of success and failure, the refusal of the
    [.str] accessor included. *)
Lemma normalize_ok_iff_accepted (df : DataFrame) :
  is_ok (normalize' df) = accepted df.
Proof.
  destruct (accepted df) eqn:Hacc.
  - rewrite (normalize_accepted df Hacc). reflexivity.
  - destruct (normalize_rejected df Hacc) as [e ->]. reflexivity.
Qed.

(** ** The warnings of the amount path *)

Lemma stages_before_validation_accepted (df : DataFrame) :
  accepted df = true ->
  stages_before_validation to_datetime_strftime float_repr df
  = Ok (clean_member_ids float_repr
          (apply_if_present "transaction_type" (apply_str map_transaction_type)
             (normalize_names float_repr
                (apply_if_present "commission_amount" amounts_cleaned
                   (normalize_dates to_datetime_strftime df))))).
Proof.
  unfold accepted. intros [Hreq Htt]%andb_prop.
  destruct (has_column_required df "commission_amount" Hreq) as [a Ha];
    [unfold required_fields; rewrite !elem_of_cons; tauto | ].
  unfold stages_before_validation.
  rewrite normalize_amounts_eq, lookup_amount_after_dates, Ha.
  cbn [mbind result_bind].
  rewrite standardize_transaction_types_eq, lookup_before_types.
  destruct (df !! "transaction_type") as [ser | ]; [rewrite Htt | ]; reflexivity.
Qed.

Lemma lookup_amount_before_validation (df : DataFrame) :
  clean_member_ids float_repr
    (apply_if_present "transaction_type" (apply_str map_transaction_type)
       (normalize_names float_repr
          (apply_if_present "commission_amount" amounts_cleaned
             (normalize_dates to_datetime_strftime df)))) !! "commission_amount"
  = amounts_cleaned <$> df !! "commission_amount".
Proof.
  unfold clean_member_ids, normalize_names.
  rewrite !lookup_apply_if_present. literal_decides.
  rewrite lookup_amount_after_dates. reflexivity.
Qed.

Lemma count_missing_positive (l : list cell) :
  (0 <? length (filter (fun v => isna v = true) l))%nat = existsb isna l.
Proof.
  induction l as [ | v l IH]; [reflexivity | ].
  rewrite filter_cons. cbn [existsb].
  destruct (isna v) eqn:Hv; case_decide as Hd; try congruence.
  - reflexivity.
  - exact IH.
Qed.

Lemma existsb_fmap {A B} (p : B -> bool) (f : A -> B) (l : list A) :
  existsb p (map f l) = existsb (fun a => p (f a)) l.
Proof.
  induction l as [ | a l IH]; [reflexivity | ].
  cbn [map existsb]. rewrite IH. reflexivity.
Qed.

Lemma validate_warns_before_validation (df d : DataFrame) (ser : Series) :
  accepted df = true ->
  df !! "commission_amount" = Some ser ->
  stages_before_validation to_datetime_strftime float_repr df = Ok d ->
  validate_warns d = existsb (fun v => isna (VFloat (amount_of v))) (values ser).
Proof.
  intros Hacc Hser Hd.
  rewrite (stages_before_validation_accepted df Hacc) in Hd. injection Hd as <-.
  unfold validate_warns, invalid_amounts.
  rewrite lookup_amount_before_validation, Hser. cbn [fmap option_fmap option_map].
  rewrite count_missing_positive. unfold amounts_cleaned. cbn [values].
  rewrite existsb_fmap. reflexivity.
Qed.

Lemma missing_amount_silent (v : cell) :
  isna v = true ->
  fill_invalid_amount (VFloat (amount_of v)) = VFloat zero
  /\ isna (VFloat (amount_of v)) = false
  /\ clean_amount_warns v = false.
Proof.
  intros Hv. unfold amount_of, clean_amount, clean_amount_warns.
  cbn [isna_test mbind result_bind]. rewrite Hv. repeat split; reflexivity.
Qed.

(** C3 (amended). [normalize] raises, with nothing returned, whenever one
    of the four required columns is absent, and so does the constructor
    followed by [normalize].  When the four are present and the [.str]
    accessor is available on the transaction-type column, it returns the
    frame whose every column is transformed value by value, so that no
    missing or malformed value makes it raise.  A missing amount ends up as
    0.0 without a warning: the amount cleaner prints none for it, and the
    validation stage warns exactly when some amount was cleaned to NaN,
    which a missing amount is not. *)
Theorem normalize_schema_errors :
  (forall (df : DataFrame) (f : string),
      f ∈ required_fields -> has_column df f = false ->
      (exists e, normalize' df = Raise (NormalizationError e))
      /\ is_ok (run_normalizer to_datetime_strftime float_repr df) = false)
  /\ (forall df : DataFrame, accepted df = true -> normalize' df = Ok (frame' df))
  /\ (forall (df d : DataFrame) (ser : Series),
         accepted df = true ->
         df !! "commission_amount" = Some ser ->
         stages_before_validation to_datetime_strftime float_repr df = Ok d ->
         validate_warns d
         = existsb (fun v => isna (VFloat (amount_of v))) (values ser))
  /\ (forall v : cell,
         isna v = true ->
         fill_invalid_amount (VFloat (amount_of v)) = VFloat zero
         /\ isna (VFloat (amount_of v)) = false
         /\ clean_amount_warns v = false).
Proof.
  split.
  { intros df f Hf Hmiss.
    pose proof (missing_required_rejected df f Hf Hmiss) as Hrej.
    split; [apply normalize_rejected, Hrej | ].
    rewrite run_normalizer_eq, normalize_ok_iff_accepted. exact Hrej. }
  split; [exact normalize_accepted | ].
  split; [exact validate_warns_before_validation | exact missing_amount_silent].
Qed.

End PipelineFacts.

(* ===================================================================== *)
(** * Idempotence of normalization *)
(* ===================================================================== *)

Section IdempotenceFacts.
Import PyStr PyFloat PyStrFacts Spec.

Variable to_datetime_strftime : Series -> result Series.
Variable float_repr : Q -> string.

#[local] Abbreviation normalize' := (normalize to_datetime_strftime float_repr).
#[local] Abbreviation column' := (normalized_column to_datetime_strftime float_repr).
#[local] Abbreviation frame' := (normalized_frame to_datetime_strftime float_repr).

(** ** Each field normalizer fixes its own results *)

Lemma strip_nonempty_split (s : string) :
  is_empty (strip s) = false <-> split s <> [].
Proof.
  rewrite is_empty_false, strip_empty, split_nil. tauto.
Qed.

Lemma clean_name_idem (v : cell) :
  clean_name float_repr (VStr (clean_name float_repr v)) = clean_name float_repr v.
Proof.
  unfold clean_name at 2 3.
  destruct (isna v || is_empty (strip (py_str float_repr v))) eqn:Hb.
  - vm_compute. reflexivity.
  - apply orb_false_elim in Hb as [_ He].
    set (name := strip (py_str float_repr v)) in *.
    set (ws := map capitalize (split name)).
    assert (Htok : Forall is_token ws).
    { unfold ws. apply Forall_map. eapply Forall_impl; [apply split_tokens | ].
      intros w Hw. apply capitalize_token, Hw. }
    assert (Hne : ws <> []).
    { unfold ws. intros Hnil. apply map_eq_nil in Hnil.
      unfold name in Hnil. rewrite split_strip in Hnil.
      unfold name in He. apply strip_nonempty_split in He. contradiction. }
    unfold clean_name. cbn [isna py_str orb].
    assert (Hsplit : split (join " " ws) = ws) by (apply split_join, Htok).
    assert (Hemp : is_empty (strip (join " " ws)) = false).
    { apply strip_nonempty_split. rewrite Hsplit. exact Hne. }
    rewrite Hemp, split_strip, Hsplit. unfold ws.
    rewrite map_map. f_equal. apply map_ext. intros w. apply capitalize_idem.
Qed.

Lemma map_transaction_type_idem (v : cell) :
  map_transaction_type (VStr (map_transaction_type v)) = map_transaction_type v.
Proof.
  pose proof (map_transaction_type_vocabulary v) as H.
  unfold vocabulary in H. cbn [In] in H.
  repeat (destruct H as [H | H]; [rewrite <- H; vm_compute; reflexivity | ]).
  contradiction.
Qed.

Lemma alnum_no_space (s : string) :
  all_chars is_alnum s = true -> all_chars no_space s = true.
Proof.
  apply all_chars_impl. intros c Hc. unfold no_space.
  rewrite (alnum_not_space c Hc). reflexivity.
Qed.

Lemma clean_member_id_idem (v : cell) :
  clean_member_id float_repr (VStr (clean_member_id float_repr v))
  = clean_member_id float_repr v.
Proof.
  unfold clean_member_id at 1. cbn [py_str].
  pose proof (filter_chars_all is_alnum (strip (py_str float_repr v))) as Hal.
  fold (clean_member_id float_repr v) in Hal.
  rewrite (strip_no_space _ (alnum_no_space _ Hal)).
  apply filter_chars_id, Hal.
Qed.

Lemma amount_fixed (v : cell) :
  let x := fill_invalid_amount (VFloat (amount_of v)) in
  fill_invalid_amount (VFloat (amount_of x)) = x.
Proof.
  cbv zeta. destruct (amount_of v) as [ | neg | q]; reflexivity.
Qed.

Lemma amount_column_idem (ser : Series) :
  amount_column (amount_column ser) = amount_column ser.
Proof.
  unfold amount_column. cbn [values]. rewrite map_map. f_equal.
  apply map_ext. intros v. apply amount_fixed.
Qed.

Lemma apply_str_idem (f : cell -> string) (ser : Series) :
  (forall v, f (VStr (f v)) = f v) ->
  apply_str f (apply_str f ser) = apply_str f ser.
Proof.
  intros Hf. unfold apply_str. cbn [values]. rewrite map_map. f_equal.
  apply map_ext. intros v. rewrite Hf. reflexivity.
Qed.

(** ** Names beyond ASCII *)

Ltac ascii_char c :=
  destruct c as [[] [] [] [] [] [] [] []]; intros H; try reflexivity; discriminate H.

Lemma space_code (c : ascii) :
  (code c <? 128)%N = true -> Unicode.is_space (code c) = is_space c.
Proof. ascii_char c. Qed.

Lemma title_code (c : ascii) :
  (code c <? 128)%N = true -> Unicode.to_title (code c) = Some [code (upper_char c)].
Proof. ascii_char c. Qed.

Lemma lower_code (c : ascii) :
  (code c <? 128)%N = true -> Unicode.to_lower (code c) = Some [code (lower_char c)].
Proof. ascii_char c. Qed.

Lemma is_ascii_cons (c : ascii) (s : string) :
  is_ascii (String c s) = true <-> (code c <? 128)%N = true /\ is_ascii s = true.
Proof. unfold is_ascii. cbn [all_chars]. apply andb_true_iff. Qed.

Lemma of_string_app (s t : string) :
  Unicode.of_string (s +:+ t) = Unicode.of_string s ++ Unicode.of_string t.
Proof.
  induction s as [ | c s IH]; [reflexivity | ].
  rewrite append_cons. cbn [Unicode.of_string app]. rewrite IH. reflexivity.
Qed.

Lemma of_string_empty (s : string) :
  Unicode.is_empty (Unicode.of_string s) = is_empty s.
Proof. destruct s; reflexivity. Qed.

Lemma of_string_lower (s : string) :
  is_ascii s = true -> Unicode.lower (Unicode.of_string s) = Some (Unicode.of_string (lower s)).
Proof.
  induction s as [ | c s IH]; [reflexivity | ].
  intros [Hc Hs]%is_ascii_cons.
  cbn [Unicode.of_string Unicode.lower]. rewrite (lower_code c Hc), (IH Hs). reflexivity.
Qed.

Lemma of_string_capitalize (w : string) :
  is_ascii w = true ->
  Unicode.capitalize (Unicode.of_string w) = Some (Unicode.of_string (capitalize w)).
Proof.
  destruct w as [ | c w]; [reflexivity | ].
  intros [Hc Hw]%is_ascii_cons.
  cbn [Unicode.of_string Unicode.capitalize].
  rewrite (title_code c Hc), (of_string_lower w Hw). reflexivity.
Qed.

Lemma of_string_lstrip (s : string) :
  is_ascii s = true -> Unicode.lstrip (Unicode.of_string s) = Unicode.of_string (lstrip s).
Proof.
  induction s as [ | c s IH]; [reflexivity | ].
  intros [Hc Hs]%is_ascii_cons.
  cbn [Unicode.of_string Unicode.lstrip lstrip]. rewrite (space_code c Hc).
  destruct (is_space c); [apply IH, Hs | reflexivity].
Qed.

Lemma of_string_rstrip (s : string) :
  is_ascii s = true -> Unicode.rstrip (Unicode.of_string s) = Unicode.of_string (rstrip s).
Proof.
  induction s as [ | c s IH]; [reflexivity | ].
  intros [Hc Hs]%is_ascii_cons.
  cbn [Unicode.of_string Unicode.rstrip rstrip].
  rewrite (space_code c Hc), (IH Hs), of_string_empty.
  destruct (is_space c && is_empty (rstrip s)); reflexivity.
Qed.

Lemma is_ascii_strip (s : string) : is_ascii s = true -> is_ascii (strip s) = true.
Proof. intros H. unfold strip. apply all_chars_rstrip, all_chars_lstrip, H. Qed.

Lemma of_string_strip (s : string) :
  is_ascii s = true -> Unicode.strip (Unicode.of_string s) = Unicode.of_string (strip s).
Proof.
  intros H. unfold Unicode.strip, strip.
  rewrite of_string_lstrip by exact H.
  apply of_string_rstrip, all_chars_lstrip, H.
Qed.

Lemma of_string_split (s : string) :
  is_ascii s = true ->
  Unicode.split (Unicode.of_string s) = map Unicode.of_string (split s).
Proof.
  induction s as [ | c s IH]; [reflexivity | ].
  intros [Hc Hs]%is_ascii_cons. specialize (IH Hs).
  rewrite split_cons. cbn [Unicode.of_string Unicode.split].
  rewrite (space_code c Hc). destruct (is_space c); [exact IH | ].
  destruct s as [ | c' s']; [reflexivity | ].
  apply is_ascii_cons in Hs as [Hc' _].
  cbn [Unicode.of_string] in IH |- *. rewrite (space_code c' Hc').
  destruct (is_space c').
  - rewrite IH. reflexivity.
  - rewrite IH. destruct (split (String c' s')); reflexivity.
Qed.

Lemma of_string_join (sep : string) (ws : list string) :
  Unicode.of_string (join sep ws)
  = Unicode.join (Unicode.of_string sep) (map Unicode.of_string ws).
Proof.
  induction ws as [ | w ws IH]; [reflexivity | ].
  destruct ws as [ | w' ws']; [reflexivity | ].
  change (join sep (w :: w' :: ws')) with (w +:+ sep +:+ join sep (w' :: ws')).
  rewrite !of_string_app, IH. reflexivity.
Qed.

Lemma of_string_capitalize_all (ws : list string) :
  Forall (fun w => is_ascii w = true) ws ->
  Unicode.capitalize_all (map Unicode.of_string ws)
  = Some (map Unicode.of_string (map capitalize ws)).
Proof.
  induction 1 as [ | w ws Hw _ IH]; [reflexivity | ].
  cbn [map Unicode.capitalize_all]. rewrite (of_string_capitalize w Hw), IH. reflexivity.
Qed.

(** On ASCII text the name cleaner on code points is [clean_name]. *)
Lemma clean_name_of_string (s : string) :
  is_ascii s = true ->
  Unicode.clean_name (Unicode.of_string s)
  = Some (Unicode.of_string (clean_name float_repr (VStr s))).
Proof.
  intros Hs. unfold Unicode.clean_name, clean_name. cbn [isna py_str orb].
  rewrite (of_string_strip s Hs), of_string_empty.
  destruct (is_empty (strip s)); [reflexivity | ].
  cbv zeta. rewrite of_string_split by (apply is_ascii_strip, Hs).
  rewrite of_string_capitalize_all
    by (apply all_chars_split, is_ascii_strip, Hs).
  cbn. rewrite of_string_join. reflexivity.
Qed.
(** C2 (counterexample). Beyond ASCII the name stage changes a name it
    has itself produced.  The title-case mapping of U+0149 is the two
    characters U+02BC and "N"; the second run finds that "N" after the
    first character of its word and puts it in lower case:
    "ŉ smith" becomes "ʼN Smith", and "ʼN Smith" becomes "ʼn Smith". *)
Lemma clean_name_not_idempotent :
  Unicode.clean_name [329; 32; 115; 109; 105; 116; 104]%N
  = Some [700; 78; 32; 83; 109; 105; 116; 104]%N
  /\ Unicode.clean_name [700; 78; 32; 83; 109; 105; 116; 104]%N
     = Some [700; 110; 32; 83; 109; 105; 116; 104]%N
  /\ ~ (forall name once twice : Unicode.text,
          Unicode.clean_name name = Some once ->
          Unicode.clean_name once = Some twice ->
          twice = once).
Proof.
  assert (H1 : Unicode.clean_name [329; 32; 115; 109; 105; 116; 104]%N
               = Some [700; 78; 32; 83; 109; 105; 116; 104]%N)
    by (vm_compute; reflexivity).
  assert (H2 : Unicode.clean_name [700; 78; 32; 83; 109; 105; 116; 104]%N
               = Some [700; 110; 32; 83; 109; 105; 116; 104]%N)
    by (vm_compute; reflexivity).
  split; [exact H1 | ]. split; [exact H2 | ].
  intros H. specialize (H _ _ _ H1 H2). discriminate H.
Qed.

(** ** The normalized frame is accepted again *)

Lemma str_accessor_ok_apply_str (f : cell -> string) (ser : Series) :
  str_accessor_ok (apply_str f ser) = true.
Proof.
  unfold str_accessor_ok, apply_str. cbn [dtype values].
  destruct (values ser) as [ | v vs]; [reflexivity | ].
  cbn [map]. rewrite filter_cons. cbn [isna negb].
  rewrite decide_True by exact I. reflexivity.
Qed.

Lemma has_column_normalized_frame (df : DataFrame) (f : string) :
  has_column (frame' df) f = has_column df f.
Proof.
  unfold has_column. rewrite lookup_normalized_frame.
  destruct (df !! f); reflexivity.
Qed.

Lemma accepted_normalized_frame (df : DataFrame) :
  accepted df = true -> accepted (frame' df) = true.
Proof.
  unfold accepted. intros [Hreq _]%andb_prop.
  apply andb_true_intro. split.
  - cbn [forallb required_fields] in *. rewrite !has_column_normalized_frame. exact Hreq.
  - rewrite lookup_normalized_frame.
    destruct (df !! "transaction_type") as [ser | ]; [ | reflexivity].
    cbn. rewrite column_not_date by (apply not_date_literal; tauto).
    apply str_accessor_ok_apply_str.
Qed.

(** ** Column by column *)

Lemma series_equiv_refl (s : Series) : series_equiv s s.
Proof.
  split; [reflexivity | ]. apply Forall2_same_length_lookup. split; [reflexivity | ].
  intros i x y Hx Hy. left. congruence.
Qed.

Lemma none_column_length (n : nat) : length (values (none_column n)) = n.
Proof. unfold none_column. cbn [values]. apply repeat_length. Qed.

Section UnderDateAssumptions.

(** What is assumed of pandas' date conversion: converting its own output
    gives that output back, and a column of [None] converts, if at all, to
    a column of missing values of the same length. *)
Hypothesis dates_stable :
  forall ser ser', to_datetime_strftime ser = Ok ser' ->
                   to_datetime_strftime ser' = Ok ser'.
Hypothesis dates_none :
  forall n ser', to_datetime_strftime (none_column n) = Ok ser' ->
                 dtype ser' = object
                 /\ length (values ser') = n
                 /\ Forall (fun v => isna v = true) (values ser').

Lemma date_column_idem (ser : Series) :
  series_equiv (date_column to_datetime_strftime (date_column to_datetime_strftime ser))
               (date_column to_datetime_strftime ser).
Proof.
  unfold date_column at 2 3.
  destruct (to_datetime_strftime ser) as [ser' | e] eqn:H1.
  - unfold date_column. rewrite (dates_stable _ _ H1). apply series_equiv_refl.
  - set (n := length (values ser)).
    unfold date_column.
    destruct (to_datetime_strftime (none_column n)) as [ser'' | e'] eqn:H2.
    + destruct (dates_none _ _ H2) as (Hdt & Hlen & Hna).
      split; [exact Hdt | ].
      apply Forall2_same_length_lookup. split.
      * rewrite none_column_length. exact Hlen.
      * intros i x y Hx Hy. right. split.
        -- rewrite Forall_forall in Hna. apply Hna.
           eapply list_elem_of_lookup_2, Hx.
        -- unfold none_column in Hy. cbn [values] in Hy.
           apply list_elem_of_lookup_2, list_elem_of_In, repeat_spec in Hy.
           rewrite Hy. reflexivity.
    + rewrite none_column_length. apply series_equiv_refl.
Qed.

Lemma column_idem (col : string) (ser : Series) :
  series_equiv (column' col (column' col ser)) (column' col ser).
Proof.
  destruct (decide (col ∈ date_columns)) as [Hd | Hd].
  - rewrite !column_date by exact Hd. apply date_column_idem.
  - rewrite !column_not_date by exact Hd.
    destruct (String.eqb col "commission_amount");
      [rewrite amount_column_idem; apply series_equiv_refl | ].
    destruct (String.eqb col "agent_name" || String.eqb col "agency_name");
      [rewrite (apply_str_idem _ _ clean_name_idem); apply series_equiv_refl | ].
    destruct (String.eqb col "transaction_type");
      [rewrite (apply_str_idem _ _ map_transaction_type_idem); apply series_equiv_refl | ].
    destruct (String.eqb col "member_id");
      [rewrite (apply_str_idem _ _ clean_member_id_idem); apply series_equiv_refl | ].
    apply series_equiv_refl.
Qed.

(** A date column pandas refused does change on the second run, when the
    column of [None] it was turned into converts to NaN. *)
Lemma refused_date_column_changes (ser : Series) (e : exn) :
  to_datetime_strftime ser = Raise e ->
  values ser <> [] ->
  to_datetime_strftime (none_column (length (values ser)))
  = Ok (MkSeries object (repeat (VFloat FNan) (length (values ser)))) ->
  date_column to_datetime_strftime (date_column to_datetime_strftime ser)
  <> date_column to_datetime_strftime ser.
Proof.
  intros Hraise Hne Hnone. unfold date_column at 2 3. rewrite Hraise.
  unfold date_column. rewrite none_column_length, Hnone.
  destruct (values ser) as [ | v vs]; [congruence | ]. discriminate.
Qed.

Lemma column_idem_exact (col : string) (ser : Series) :
  (col ∈ date_columns -> is_ok (to_datetime_strftime ser) = true) ->
  column' col (column' col ser) = column' col ser.
Proof.
  intros Hdates.
  destruct (decide (col ∈ date_columns)) as [Hd | Hd].
  - rewrite !column_date by exact Hd.
    specialize (Hdates Hd). unfold date_column at 2 3.
    destruct (to_datetime_strftime ser) as [ser' | e] eqn:H1; [ | discriminate].
    unfold date_column. rewrite (dates_stable _ _ H1). reflexivity.
  - rewrite !column_not_date by exact Hd.
    destruct (String.eqb col "commission_amount"); [apply amount_column_idem | ].
    destruct (String.eqb col "agent_name" || String.eqb col "agency_name");
      [apply apply_str_idem, clean_name_idem | ].
    destruct (String.eqb col "transaction_type");
      [apply apply_str_idem, map_transaction_type_idem | ].
    destruct (String.eqb col "member_id");
      [apply apply_str_idem, clean_member_id_idem | ].
    reflexivity.
Qed.

(** C2 (amended). Normalizing a normalized batch of ASCII text succeeds
    and returns the same columns with the same values, given that pandas'
    date conversion is stable on its own output.  The one exception is a
    date column the conversion refused: it is [None] throughout after the
    first run and holds missing values again after the second, which are
    NaN where pandas converts [None] to NaN.  Stage by stage: dates up to
    that exception, and amounts, names (ASCII), transaction types and
    identifiers leave a value they have produced as it is. *)
Theorem normalize_idempotent :
  (forall df d1 : DataFrame,
      ascii_frame df ->
      normalize' df = Ok d1 ->
      exists d2,
        normalize' d1 = Ok d2
        /\ frame_equiv d2 d1
        /\ (forall col,
               (forall ser, col ∈ date_columns -> df !! col = Some ser ->
                            is_ok (to_datetime_strftime ser) = true) ->
               d2 !! col = d1 !! col))
  /\ (forall ser : Series,
         series_equiv
           (date_column to_datetime_strftime (date_column to_datetime_strftime ser))
           (date_column to_datetime_strftime ser))
  /\ (forall (ser : Series) (e : exn),
         to_datetime_strftime ser = Raise e ->
         values ser <> [] ->
         to_datetime_strftime (none_column (length (values ser)))
         = Ok (MkSeries object (repeat (VFloat FNan) (length (values ser)))) ->
         date_column to_datetime_strftime (date_column to_datetime_strftime ser)
         <> date_column to_datetime_strftime ser)
  /\ (forall v : cell,
         let x := fill_invalid_amount (VFloat (amount_of v)) in
         fill_invalid_amount (VFloat (amount_of x)) = x)
  /\ (forall v : cell,
         ascii_cell v = true ->
         clean_name float_repr (VStr (clean_name float_repr v))
         = clean_name float_repr v)
  /\ (forall v : cell,
         map_transaction_type (VStr (map_transaction_type v))
         = map_transaction_type v)
  /\ (forall v : cell,
         clean_member_id float_repr (VStr (clean_member_id float_repr v))
         = clean_member_id float_repr v).
Proof.
  split.
  { intros df d1 _ H. apply normalize_ok_accepted in H as [Hacc ->].
    exists (frame' (frame' df)). split; [ | split].
    - apply normalize_accepted, accepted_normalized_frame, Hacc.
    - intros col. rewrite !lookup_normalized_frame.
      destruct (df !! col) as [ser | ]; cbn; constructor. apply column_idem.
    - intros col Hdates. rewrite !lookup_normalized_frame.
      destruct (df !! col) as [ser | ] eqn:Hser; [ | reflexivity]. cbn. f_equal.
      apply column_idem_exact. intros Hd. apply (Hdates ser Hd eq_refl). }
  split; [exact date_column_idem | ].
  split; [exact refused_date_column_changes | ].
  split; [exact amount_fixed | ].
  split; [intros v _; apply clean_name_idem | ].
  split; [exact map_transaction_type_idem | exact clean_member_id_idem].
Qed.

(** When the date conversion raised on no date column, the second result
    is the first one itself. *)
Lemma normalize_idempotent_exact (df d1 : DataFrame) :
  (forall col ser, col ∈ date_columns -> df !! col = Some ser ->
                   is_ok (to_datetime_strftime ser) = true) ->
  normalize' df = Ok d1 -> normalize' d1 = Ok d1.
Proof.
  intros Hdates H. apply normalize_ok_accepted in H as [Hacc ->].
  rewrite (normalize_accepted _ _ _ (accepted_normalized_frame _ Hacc)).
  f_equal. apply map_eq. intros col. rewrite !lookup_normalized_frame.
  destruct (df !! col) as [ser | ] eqn:Hser; [ | reflexivity]. cbn. f_equal.
  destruct (decide (col ∈ date_columns)) as [Hd | Hd].
  - rewrite !column_date by exact Hd.
    specialize (Hdates col ser Hd Hser). unfold date_column at 2 3.
    destruct (to_datetime_strftime ser) as [ser' | e] eqn:H1; [ | discriminate].
    unfold date_column. rewrite (dates_stable _ _ H1). reflexivity.
  - rewrite !column_not_date by exact Hd.
    destruct (String.eqb col "commission_amount"); [apply amount_column_idem | ].
    destruct (String.eqb col "agent_name" || String.eqb col "agency_name");
      [apply apply_str_idem, clean_name_idem | ].
    destruct (String.eqb col "transaction_type");
      [apply apply_str_idem, map_transaction_type_idem | ].
    destruct (String.eqb col "member_id");
      [apply apply_str_idem, clean_member_id_idem | ].
    reflexivity.
Qed.

End UnderDateAssumptions.

End IdempotenceFacts.

(* ===================================================================== *)
(** * The ranking aggregator *)
(* ===================================================================== *)

Section AnalyzerFacts.
Import PyStr Analyzer Examples Spec.

(** ** Rounding is monotone *)

Lemma round_half_even_bounds (x : Q) :
  (Qfloor x <= round_half_even x <= Qfloor x + 1)%Z.
Proof.
  unfold round_half_even.
  destruct (x - inject_Z (Qfloor x) ?= 1 # 2)%Q; [destruct (Z.even _) | | ]; lia.
Qed.

Ltac compare_facts :=
  repeat match goal with
         | H : (_ ?= _)%Q = Eq |- _ => apply <- Qeq_alt in H
         | H : (_ ?= _)%Q = Lt |- _ => apply <- Qlt_alt in H
         | H : (_ ?= _)%Q = Gt |- _ => apply <- Qgt_alt in H
         end.

Lemma round_half_even_mono (x y : Q) :
  (x <= y)%Q -> (round_half_even x <= round_half_even y)%Z.
Proof.
  intros Hxy.
  pose proof (Qfloor_resp_le x y Hxy) as Hfl.
  pose proof (round_half_even_bounds x) as Hx.
  pose proof (round_half_even_bounds y) as Hy.
  destruct (Z.eq_dec (Qfloor x) (Qfloor y)) as [Heq | Hne]; [ | lia].
  unfold round_half_even. rewrite <- Heq.
  set (f := Qfloor x) in *.
  assert (Hfrac : (x - inject_Z f <= y - inject_Z f)%Q).
  { apply Qplus_le_l with (z := inject_Z f). ring_simplify. exact Hxy. }
  destruct (x - inject_Z f ?= 1 # 2)%Q eqn:Cx;
    destruct (y - inject_Z f ?= 1 # 2)%Q eqn:Cy;
    compare_facts;
    try (destruct (Z.even f); lia); try lia; exfalso; lra.
Qed.

Lemma round2_mono (x y : Q) : (x <= y)%Q -> (round2 x <= round2 y)%Q.
Proof.
  intros Hxy. unfold round2. rewrite !Qred_correct.
  unfold Qdiv. apply Qmult_le_compat_r; [ | discriminate].
  rewrite <- Zle_Qle. apply round_half_even_mono.
  apply Qmult_le_compat_r; [exact Hxy | discriminate].
Qed.

Lemma round2_zero : round2 0 = 0%Q.
Proof. vm_compute. reflexivity. Qed.

(** ** Sorting *)

Lemma insert_desc_head (e h : Entry) (t : list Entry) :
  ranks_before h e -> HdRel ranks_before h t -> HdRel ranks_before h (insert_desc e t).
Proof.
  intros Hhe Hht. destruct t as [ | h' t']; cbn [insert_desc].
  - constructor. exact Hhe.
  - destruct (Qle_bool (total_commission h') (total_commission e)).
    + constructor. exact Hhe.
    + constructor. inversion Hht; subst. assumption.
Qed.

Lemma insert_desc_sorted (e : Entry) (l : list Entry) :
  Sorted ranks_before l -> Sorted ranks_before (insert_desc e l).
Proof.
  induction l as [ | h t IH]; intros Hs; cbn [insert_desc].
  - repeat constructor.
  - destruct (Qle_bool (total_commission h) (total_commission e)) eqn:Hle.
    + constructor; [exact Hs | ]. constructor. unfold ranks_before.
      apply Qle_bool_iff, Hle.
    + inversion Hs as [ | ? ? Ht Hhd]; subst.
      constructor; [apply IH, Ht | ].
      apply insert_desc_head; [ | exact Hhd].
      unfold ranks_before. apply Qlt_le_weak, Qnot_le_lt.
      intros Hcontra. apply Qle_bool_iff in Hcontra. congruence.
Qed.

Lemma sort_values_desc_sorted (l : list Entry) :
  Sorted ranks_before (sort_values_desc l).
Proof.
  induction l as [ | e l IH]; cbn [sort_values_desc foldr]; [constructor | ].
  apply insert_desc_sorted, IH.
Qed.

Lemma insert_desc_length (e : Entry) (l : list Entry) :
  length (insert_desc e l) = S (length l).
Proof.
  induction l as [ | h t IH]; cbn [insert_desc]; [reflexivity | ].
  destruct (Qle_bool _ _); cbn [length]; [reflexivity | rewrite IH; reflexivity].
Qed.

Lemma sort_values_desc_length (l : list Entry) :
  length (sort_values_desc l) = length l.
Proof.
  induction l as [ | e l IH]; cbn [sort_values_desc foldr]; [reflexivity | ].
  rewrite insert_desc_length. cbn [length]. f_equal. exact IH.
Qed.

Lemma round_entry_sorted (l : list Entry) :
  Sorted ranks_before l -> Sorted ranks_before (map round_entry l).
Proof.
  induction 1 as [ | h t Ht IH Hhd]; cbn [map]; [constructor | ].
  constructor; [exact IH | ].
  destruct Hhd as [ | h' t' Hr]; cbn [map]; constructor.
  unfold ranks_before in *. cbn [round_entry total_commission].
  apply round2_mono, Hr.
Qed.

Lemma placeholders_sorted (start len : nat) :
  Sorted ranks_before (map placeholder (seq start len)).
Proof.
  revert start. induction len as [ | len IH]; intros start; cbn [seq map]; [constructor | ].
  constructor; [apply IH | ].
  destruct len; cbn [seq map]; constructor.
  unfold ranks_before. cbn. apply Qle_refl.
Qed.

Lemma sorted_app_placeholders (l : list Entry) (start len : nat) :
  Sorted ranks_before l ->
  Forall (fun e => (0 <= total_commission e)%Q) l ->
  Sorted ranks_before (l ++ map placeholder (seq start len)).
Proof.
  intros Hs Hpos. induction Hs as [ | h t Ht IH Hhd]; cbn [app].
  - apply placeholders_sorted.
  - inversion Hpos as [ | ? ? Hh Hpt]; subst.
    constructor; [apply IH, Hpt | ].
    destruct Hhd as [ | h' t' Hr]; cbn [app].
    + destruct len; cbn [seq map]; constructor.
      unfold ranks_before. cbn. exact Hh.
    + constructor. exact Hr.
Qed.

Lemma sorted_firstn (n : nat) (l : list Entry) :
  Sorted ranks_before l -> Sorted ranks_before (firstn n l).
Proof.
  intros Hs. revert n. induction Hs as [ | h t Ht IH Hhd]; intros n.
  - destruct n; constructor.
  - destruct n as [ | n]; cbn [firstn]; [constructor | ].
    constructor; [apply IH | ].
    destruct Hhd as [ | h' t' Hr]; destruct n; cbn [firstn]; constructor. exact Hr.
Qed.

Lemma sorted_non_increasing (l : list Entry) :
  Sorted ranks_before l -> non_increasing (map total_commission l).
Proof.
  induction 1 as [ | h t Ht IH Hhd]; intros i a b Ha Hb.
  - destruct i; discriminate.
  - destruct i as [ | i].
    + cbn in Ha. injection Ha as <-.
      destruct Hhd as [ | h' t' Hr]; [discriminate | ].
      cbn in Hb. injection Hb as <-. exact Hr.
    + cbn in Ha, Hb. eapply IH; eassumption.
Qed.

Lemma first_sort_error_none (i : nat) (vals : list Q) :
  non_increasing vals -> first_sort_error i vals = None.
Proof.
  revert i. induction vals as [ | a rest IH]; intros i Hni; [reflexivity | ].
  destruct rest as [ | b rest']; [reflexivity | ].
  cbn [first_sort_error].
  destruct (Qlt_le_dec a b) as [Hlt | Hle].
  - exfalso. specialize (Hni 0 a b eq_refl eq_refl).
    apply (Qlt_irrefl a). eapply Qlt_le_trans; eassumption.
  - apply IH. intros j x y Hx Hy. apply (Hni (S j) x y); assumption.
Qed.

(** ** When the aggregator meets the specification *)

Lemma ranked_agents_sorted (data : list Row) (period : string) :
  Sorted ranks_before (ranked_agents data period).
Proof. unfold ranked_agents. apply round_entry_sorted, sort_values_desc_sorted. Qed.

Lemma calculate_top_performers_eq (data : list Row) (n : nat) (period : string) :
  ranked_agents data period <> [] ->
  calculate_top_performers data n period
  = let result := firstn n (fill_to n (ranked_agents data period)) in
    match first_sort_error 0 (map total_commission result) with
    | Some i => Raise (ValueError_sort i)
    | None => Ok result
    end.
Proof.
  unfold ranked_agents, calculate_top_performers.
  set (df := filter (fun r => String.eqb (commission_period r) period) data).
  destruct (map (agent_totals df) (unique (map agent_name df))) as [ | e totals] eqn:Ht.
  - intros H. exfalso. apply H. reflexivity.
  - intros _. reflexivity.
Qed.

(** Where the code does what C1 says: the period has at least one agent,
    and either no padding is needed or no real total is negative.  Then
    exactly [n] entries come back, their totals never increase, the real
    agents keep their places, and the deficit is filled by the placeholders
    "Agent_{i+1}" with zero figures and "N/A". *)
Theorem top_performers_meets_claim (data : list Row) (n : nat) (period : string) :
  let real := ranked_agents data period in
  real <> [] ->
  n <= length real \/ Forall (fun e => (0 <= total_commission e)%Q) real ->
  exists result,
    calculate_top_performers data n period = Ok result
    /\ length result = n
    /\ non_increasing (map total_commission result)
    /\ firstn (length real) result = firstn n real
    /\ (forall i, length real <= i -> i < n -> result !! i = Some (placeholder i)).
Proof.
  intros real Hne Hcase.
  rewrite (calculate_top_performers_eq data n period Hne). fold real. cbv zeta.
  set (result := firstn n (fill_to n real)).
  assert (Hsorted : Sorted ranks_before result).
  { unfold result, fill_to. apply sorted_firstn.
    destruct Hcase as [Hle | Hpos].
    - replace (n - length real) with 0 by lia. cbn [seq map].
      rewrite app_nil_r. apply ranked_agents_sorted.
    - apply sorted_app_placeholders; [apply ranked_agents_sorted | exact Hpos]. }
  rewrite (first_sort_error_none 0 _ (sorted_non_increasing _ Hsorted)).
  exists result. split; [reflexivity | ].
  split.
  { unfold result, fill_to.
    rewrite length_take, length_app, length_map, length_seq. lia. }
  split; [apply sorted_non_increasing, Hsorted | ].
  split.
  { unfold result, fill_to. rewrite take_take.
    destruct (le_lt_dec n (length real)) as [Hle | Hgt].
    - rewrite Nat.min_r by lia. rewrite take_app_le by lia. reflexivity.
    - rewrite Nat.min_l by lia. rewrite take_app_le by lia.
      rewrite (take_ge real n) by lia. apply take_ge. lia. }
  intros i Hlo Hhi. unfold result, fill_to.
  rewrite lookup_take_lt by exact Hhi.
  rewrite lookup_app_r by exact Hlo.
  rewrite list_lookup_fmap, lookup_seq_lt by lia.
  cbn. do 2 f_equal. lia.
Qed.

(** The specification's scenario. *)
Lemma scenario_top_two :
  calculate_top_performers scenario_batch 2 "2024-06"
  = Ok [ MkEntry "John Smith" 150 75 2 "A, B";
         MkEntry "Jane Doe" 30 30 1 "A" ].
Proof. vm_compute. reflexivity. Qed.

Lemma scenario_padded :
  calculate_top_performers scenario_batch 4 "2024-06"
  = Ok [ MkEntry "John Smith" 150 75 2 "A, B";
         MkEntry "Jane Doe" 30 30 1 "A";
         MkEntry "Agent_3" 0 0 0 "N/A";
         MkEntry "Agent_4" 0 0 0 "N/A" ].
Proof. vm_compute. reflexivity. Qed.

(** C1 (the code at the failing inputs). With fewer than [n] agents, one of
    them with a negative total, the zero-valued placeholders are appended
    below that total and the function's own final verification raises the
    sort error; with no record in the period at all, sorting the column-less
    frame raises [KeyError]. *)
Theorem top_performers_raises :
  calculate_top_performers reversed_batch 10 "2024-06" = Raise (ValueError_sort 0)
  /\ calculate_top_performers scenario_batch 10 "2024-07"
     = Raise (KeyError_column "total_commission").
Proof. split; vm_compute; reflexivity. Qed.

End AnalyzerFacts.

(* ===================================================================== *)
(** * The theorems at the sample data *)
(* ===================================================================== *)

Import PyStr PyFloat Spec Examples.

Lemma iso_or_nan_idem (v : cell) : iso_or_nan (iso_or_nan v) = iso_or_nan v.
Proof.
  destruct v as [ | f | s]; try reflexivity.
  unfold iso_or_nan at 2 3. destruct (is_iso_date s) eqn:Hs; [ | reflexivity].
  unfold iso_or_nan. rewrite Hs. reflexivity.
Qed.

Lemma iso_dates_only_stable (ser ser' : Series) :
  iso_dates_only ser = Ok ser' -> iso_dates_only ser' = Ok ser'.
Proof.
  unfold iso_dates_only. intros [= <-]. cbn [values]. rewrite map_map.
  do 2 f_equal. apply map_ext. intros v. apply iso_or_nan_idem.
Qed.

Lemma iso_dates_only_none (n : nat) (ser' : Series) :
  iso_dates_only (none_column n) = Ok ser' ->
  dtype ser' = object
  /\ length (values ser') = n
  /\ Forall (fun v => isna v = true) (values ser').
Proof.
  unfold iso_dates_only, none_column. intros [= <-]. cbn [dtype values].
  split; [reflexivity | ]. split.
  - rewrite length_map. apply repeat_length.
  - apply Forall_map, Forall_forall. intros v Hv.
    apply list_elem_of_In, repeat_spec in Hv. rewrite Hv. reflexivity.
Qed.

(** The aggregator on the specification's scenario, ten entries asked. *)
Lemma top_performers_scenario_ten :
  exists result,
    Analyzer.calculate_top_performers scenario_batch 10 "2024-06" = Ok result
    /\ length result = 10
    /\ non_increasing (map Analyzer.total_commission result)
    /\ result !! 2 = Some (Analyzer.placeholder 2)
    /\ result !! 9 = Some (Analyzer.placeholder 9).
Proof.
  assert (Hreal : ranked_agents scenario_batch "2024-06"
                  = [ Analyzer.MkEntry "John Smith" 150 75 2 "A, B";
                      Analyzer.MkEntry "Jane Doe" 30 30 1 "A" ])
    by (vm_compute; reflexivity).
  destruct (top_performers_meets_claim scenario_batch 10 "2024-06")
    as (result & Hres & Hlen & Hsorted & _ & Hpad).
  - rewrite Hreal. discriminate.
  - right. rewrite Hreal. repeat constructor; unfold Qle; simpl; lia.
  - rewrite Hreal in Hpad. cbn [length] in Hpad.
    exists result. repeat split; try assumption; apply Hpad; lia.
Defined.

(** C2 at the sample batch. *)
Lemma normalize_idempotent_witness :
  ascii_frame raw_batch
  /\ ascii_cell (VStr "john  SMITH") = true
  /\ (exists d1 d2,
        normalize iso_dates_only fixed_repr raw_batch = Ok d1
        /\ normalize iso_dates_only fixed_repr d1 = Ok d2
        /\ frame_equiv d2 d1
        /\ d2 !! "agent_name" = d1 !! "agent_name")
  /\ clean_name fixed_repr (VStr (clean_name fixed_repr (VStr "john  SMITH")))
     = clean_name fixed_repr (VStr "john  SMITH").
Proof.
  assert (Hascii : ascii_frame raw_batch).
  { apply map_Forall_to_list. vm_compute. repeat constructor. }
  assert (Hcell : ascii_cell (VStr "john  SMITH") = true) by reflexivity.
  assert (H : normalize iso_dates_only fixed_repr raw_batch
              = Ok (normalized_frame iso_dates_only fixed_repr raw_batch)).
  { apply normalize_accepted. vm_compute. reflexivity. }
  destruct (normalize_idempotent iso_dates_only fixed_repr
              iso_dates_only_stable iso_dates_only_none)
    as (Hidem & _ & _ & _ & Hname & _).
  destruct (Hidem raw_batch _ Hascii H) as (d2 & H2 & Heq & Hexact).
  split; [exact Hascii | ]. split; [exact Hcell | ].
  split; [ | exact (Hname _ Hcell)].
  exists (normalized_frame iso_dates_only fixed_repr raw_batch), d2.
  split; [exact H | ]. split; [exact H2 | ]. split; [exact Heq | ].
  apply Hexact. intros ser Hd. exfalso.
  apply elem_of_date_columns in Hd. destruct Hd as [Hd | [Hd | [Hd | Hd]]]; discriminate Hd.
Defined.

(** C3 at the sample batches: the complete batch is normalized, the batch
    without its carrier column is refused, and the batch with a missing
    amount reaches validation without a warning. *)
Lemma normalize_schema_errors_witness :
  has_column batch_without_carrier "carrier_name" = false
  /\ (exists e, normalize iso_dates_only fixed_repr batch_without_carrier
                = Raise (NormalizationError e))
  /\ accepted raw_batch = true
  /\ normalize iso_dates_only fixed_repr raw_batch
     = Ok (normalized_frame iso_dates_only fixed_repr raw_batch)
  /\ (exists d,
        stages_before_validation iso_dates_only fixed_repr missing_amount_batch = Ok d
        /\ validate_warns d = false)
  /\ fill_invalid_amount (VFloat (amount_of VNone)) = VFloat zero.
Proof.
  destruct (normalize_schema_errors iso_dates_only fixed_repr)
    as (Hmiss & Hacc & Hwarn & Hzero).
  assert (Hc : has_column batch_without_carrier "carrier_name" = false)
    by (vm_compute; reflexivity).
  assert (Hr : "carrier_name" ∈ required_fields) by (apply list_elem_of_here).
  assert (Ha : accepted raw_batch = true) by (vm_compute; reflexivity).
  assert (Hm : accepted missing_amount_batch = true) by (vm_compute; reflexivity).
  assert (Hs : missing_amount_batch !! "commission_amount"
               = Some (MkSeries float64 [VFloat FNan])) by (vm_compute; reflexivity).
  split; [exact Hc | ].
  split; [exact (proj1 (Hmiss batch_without_carrier "carrier_name" Hr Hc)) | ].
  split; [exact Ha | ].
  split; [exact (Hacc raw_batch Ha) | ].
  split; [ | exact (proj1 (Hzero VNone eq_refl))].
  eexists. split; [apply stages_before_validation_accepted, Hm | ].
  eapply eq_trans.
  - eapply (Hwarn missing_amount_batch _ _ Hm Hs).
    apply stages_before_validation_accepted, Hm.
  - vm_compute. reflexivity.
Defined.

(** C3 (counterexample). A batch with one missing amount: the amount is
    coerced to 0.0, and no warning is printed for it, neither by the amount
    cleaner nor by the validation stage. *)
Lemma missing_amount_coerced_without_warning :
  exists d,
    stages_before_validation iso_dates_only fixed_repr missing_amount_batch = Ok d
    /\ normalize iso_dates_only fixed_repr missing_amount_batch
       = Ok (normalized_frame iso_dates_only fixed_repr missing_amount_batch)
    /\ normalized_frame iso_dates_only fixed_repr missing_amount_batch
         !! "commission_amount"
       = Some (MkSeries float64 [VFloat zero])
    /\ clean_amount_warns (VFloat FNan) = false
    /\ validate_warns d = false.
Proof.
  eexists. split; [vm_compute; reflexivity | ].
  split; [apply normalize_accepted; vm_compute; reflexivity | ].
  split; [vm_compute; reflexivity | ].
  split; vm_compute; reflexivity.
Qed.

(** The second way in which C3 fails.  All four required columns are
    present, and [normalize] still raises: the transaction-type column holds
    no value at all, and pandas refuses the [.str] accessor on it. *)
Lemma normalize_raises_with_required_columns :
  ~ (forall (dates : Series -> result Series) (repr : Q -> string) (df : DataFrame),
        forallb (has_column df) required_fields = true ->
        is_ok (normalize dates repr df) = true).
Proof.
  intros H.
  specialize (H iso_dates_only fixed_repr batch_with_empty_types).
  assert (Hreq : forallb (has_column batch_with_empty_types) required_fields = true)
    by (vm_compute; reflexivity).
  specialize (H Hreq).
  rewrite normalize_ok_iff_accepted in H. vm_compute in H. discriminate H.
Qed.



(** C6 at the third label of the sample batch. *)
Lemma transaction_type_exact_lookup_witness :
  raw_batch !! "transaction_type"
  = Some (text_column ["NEW"; "renew"; "New Business"])
  /\ dtype (text_column ["NEW"; "renew"; "New Business"]) = object
  /\ values (text_column ["NEW"; "renew"; "New Business"]) !! 2
     = Some (VStr "New Business")
  /\ exists data' ser',
       standardize_transaction_types raw_batch = Ok data'
       /\ data' !! "transaction_type" = Some ser'
       /\ values ser' !! 2 = Some (VStr "Other").
Proof.
  assert (Hcol : raw_batch !! "transaction_type"
                 = Some (text_column ["NEW"; "renew"; "New Business"]))
    by (vm_compute; reflexivity).
  assert (Hd : dtype (text_column ["NEW"; "renew"; "New Business"]) = object)
    by reflexivity.
  assert (Hi : values (text_column ["NEW"; "renew"; "New Business"]) !! 2
               = Some (VStr "New Business")) by reflexivity.
  split; [exact Hcol | ]. split; [exact Hd | ]. split; [exact Hi | ].
  destruct (transaction_type_exact_lookup raw_batch _ 2 "New Business" Hcol Hd Hi)
    as (data' & ser' & t & Hstd & Hlook & _ & Hval & _ & Hother).
  exists data', ser'. split; [exact Hstd | ]. split; [exact Hlook | ].
  rewrite Hval. do 2 f_equal. apply Hother.
  intros k t' Hin. unfold transaction_mapping in Hin. cbn [In] in Hin.
  repeat (destruct Hin as [Hin | Hin];
          [injection Hin as <- <-; vm_compute; discriminate | ]).
  contradiction.
Defined.

(** C9 at the sample batch. *)
Lemma agency_name_sentinel_witness :
  raw_batch !! "agency_name"
  = Some (MkSeries object [VStr "  "; VNone; VStr "acme  insurance"])
  /\ exists ser',
       normalize_names fixed_repr raw_batch !! "agency_name" = Some ser'
       /\ values ser'
          = [VStr "Unknown Agent"; VStr "Unknown Agent"; VStr "Acme Insurance"].
Proof.
  assert (Hcol : raw_batch !! "agency_name"
                 = Some (MkSeries object [VStr "  "; VNone; VStr "acme  insurance"]))
    by (vm_compute; reflexivity).
  split; [exact Hcol | ].
  destruct (agency_name_sentinel fixed_repr raw_batch "agency_name" _
              (or_introl eq_refl) Hcol) as (ser' & Hlook & Hvals & _).
  exists ser'. split; [exact Hlook | ]. rewrite Hvals. vm_compute. reflexivity.
Defined.

(** C10 at the sample batch. *)
Lemma clean_member_ids_alphanumeric_witness :
  raw_batch !! "member_id"
  = Some (MkSeries object [VStr " 1A-b c_3 "; VFloat FNan; VNone])
  /\ exists ser',
       clean_member_ids fixed_repr raw_batch !! "member_id" = Some ser'
       /\ values ser' = [VStr "1Abc3"; VStr "nan"; VStr "None"].
Proof.
  assert (Hcol : raw_batch !! "member_id"
                 = Some (MkSeries object [VStr " 1A-b c_3 "; VFloat FNan; VNone]))
    by (vm_compute; reflexivity).
  split; [exact Hcol | ].
  destruct (clean_member_ids_alphanumeric fixed_repr) as (Hids & _ & _).
  destruct (Hids raw_batch _ Hcol) as (ser' & Hlook & Hvals & _).
  exists ser'. split; [exact Hlook | ]. rewrite Hvals. vm_compute. reflexivity.
Defined.

(* ===================================================================== *)
(** * Further properties of the normalizer *)
(* ===================================================================== *)

Section NormalizerCoverage.
Import PyStr PyFloat PyStrFacts Spec.

Variable to_datetime_strftime : Series -> result Series.
Variable float_repr : Q -> string.

#[local] Abbreviation normalize' := (normalize to_datetime_strftime float_repr).
#[local] Abbreviation column' := (normalized_column to_datetime_strftime float_repr).
#[local] Abbreviation frame' := (normalized_frame to_datetime_strftime float_repr).

(** X1. [normalize] succeeds exactly on the frames that have the four
    required columns and whose transaction-type column, if there is one,
    admits the [.str] accessor; what it returns is the frame with every
    column transformed by its own rule, and what it raises is always the
    one wrapping exception. *)
Theorem normalize_outcome (df : DataFrame) :
  is_ok (normalize' df)
  = forallb (has_column df) required_fields
    && match df !! "transaction_type" with
       | Some ser => str_accessor_ok ser
       | None => true
       end
  /\ match normalize' df with
     | Ok out => out = frame' df
     | Raise e => exists cause, e = NormalizationError cause
     end.
Proof.
  split; [apply normalize_ok_iff_accepted | ].
  destruct (accepted df) eqn:Hacc.
  - rewrite (normalize_accepted _ _ _ Hacc). reflexivity.
  - destruct (normalize_rejected to_datetime_strftime float_repr _ Hacc) as [e ->].
    exists e. reflexivity.
Qed.

Lemma column_length_kept (col : string) (ser : Series) :
  col ∉ date_columns ->
  length (values (column' col ser)) = length (values ser).
Proof.
  intros Hcol. rewrite column_not_date by exact Hcol.
  repeat match goal with
         | |- context [if ?b then _ else _] => destruct b
         end;
    cbn [amount_column apply_str values]; rewrite ?length_map; reflexivity.
Qed.

(** X2. A successful [normalize] returns a frame with exactly the columns
    of its input, and every column other than the four date columns keeps
    its number of rows. *)
Theorem normalize_keeps_shape (df out : DataFrame) :
  normalize' df = Ok out ->
  (forall col, has_column out col = has_column df col)
  /\ (forall col ser,
         col ∉ date_columns -> df !! col = Some ser ->
         exists ser', out !! col = Some ser'
                      /\ length (values ser') = length (values ser)).
Proof.
  intros Hok. apply normalize_ok_accepted in Hok as [_ ->]. split.
  - intros col. apply has_column_normalized_frame.
  - intros col ser Hcol Hser. exists (column' col ser). split.
    + rewrite lookup_normalized_frame, Hser. reflexivity.
    + apply column_length_kept, Hcol.
Qed.

(** X3. [normalize] transforms nine columns by name and nothing else: a
    column outside the standard schema, and the standard columns
    carrier_name, commission_period, member_name, plan_name and
    policy_number, come out exactly as they went in. *)
Theorem normalize_leaves_other_columns (df out : DataFrame) (col : string) :
  normalize' df = Ok out ->
  col ∉ get_standard_columns
  \/ col ∈ ["carrier_name"; "commission_period"; "member_name"; "plan_name";
            "policy_number"] ->
  out !! col = df !! col.
Proof.
  intros Hok Hcol. apply normalize_ok_accepted in Hok as [_ ->].
  rewrite lookup_normalized_frame.
  assert (Hid : forall ser, column' col ser = ser).
  { intros ser. unfold normalized_column.
    destruct Hcol as [Hout | Hin].
    - rewrite bool_decide_eq_false_2.
      2:{ intros Hd. apply Hout. apply list_elem_of_In.
          apply elem_of_date_columns in Hd.
          destruct Hd as [-> | [-> | [-> | ->]]]; cbn; tauto. }
      repeat match goal with
             | |- context [String.eqb col ?lit] =>
                 destruct (String.eqb_spec col lit) as [-> | _];
                 [exfalso; apply Hout, list_elem_of_In; cbn; tauto | ]
             end.
      reflexivity.
    - repeat (apply elem_of_cons in Hin as [-> | Hin]; [reflexivity | ]).
      inversion Hin. }
  destruct (df !! col) as [ser | ]; cbn; [rewrite Hid | ]; reflexivity.
Qed.

(** X4. After a successful [normalize] the commission_amount column is a
    float column without a single missing value. *)
Theorem normalized_amounts_are_numbers (df out : DataFrame) :
  normalize' df = Ok out ->
  exists ser,
    out !! "commission_amount" = Some ser
    /\ dtype ser = float64
    /\ Forall (fun v => is_str_cell v = false /\ isna v = false) (values ser).
Proof.
  intros Hok. apply normalize_ok_accepted in Hok as [Hacc ->].
  unfold accepted in Hacc. apply andb_prop in Hacc as [Hreq _].
  destruct (has_column_required df "commission_amount" Hreq) as [ser Hser].
  { apply list_elem_of_In. cbn. tauto. }
  exists (amount_column ser). split.
  - rewrite lookup_normalized_frame, Hser. reflexivity.
  - split; [reflexivity | ].
    cbn [amount_column values]. apply Forall_fmap, Forall_forall.
    intros v _. cbn. unfold fill_invalid_amount.
    destruct (isna (VFloat (amount_of v))) eqn:Hna; split;
      try reflexivity; exact Hna.
Qed.

(** X5. The date stage never fails and touches the four date columns
    only: each of them becomes what pandas makes of it, or, where pandas
    raises, a column of [None] of the same length; every other column is
    left as it is. *)
Theorem normalize_dates_columns (df : DataFrame) (col : string) :
  normalize_dates to_datetime_strftime df !! col
  = if bool_decide (col ∈ date_columns)
    then match df !! col with
         | Some ser =>
             match to_datetime_strftime ser with
             | Ok ser' => Some ser'
             | Raise _ => Some (none_column (length (values ser)))
             end
         | None => None
         end
    else df !! col.
Proof.
  rewrite lookup_normalize_dates. case_bool_decide; [ | reflexivity].
  destruct (df !! col) as [ser | ]; [ | reflexivity].
  cbn. unfold date_column. destruct (to_datetime_strftime ser); reflexivity.
Qed.

(** X6. The constructor reads agent_name and commission_amount before any
    stage runs.  So [DataNormalizer(df).normalize()] fails with a plain
    [KeyError] when one of the two is absent, and the wrapped error of the
    validation stage can only ever report carrier_name or
    commission_period as missing. *)
Theorem run_normalizer_errors (df : DataFrame) (e : exn) :
  run_normalizer to_datetime_strftime float_repr df = Raise e ->
  (exn_cls e = KeyError
   /\ (has_column df "agent_name" && has_column df "commission_amount" = false))
  \/ (has_column df "agent_name" && has_column df "commission_amount" = true
      /\ (e = NormalizationError AttributeError_str
          \/ exists missing,
               e = NormalizationError (ValueError_missing missing)
               /\ missing <> []
               /\ missing ⊆ ["carrier_name"; "commission_period"])).
Proof.
  intros Hraise.
  assert (Hhas : forall col, has_column df col = true <-> is_Some (df !! col)).
  { intros col. unfold has_column. apply bool_decide_eq_true. }
  unfold run_normalizer, DataNormalizer_init, getitem in Hraise.
  destruct (df !! "agent_name") as [agent | ] eqn:Hagent; cbn in Hraise.
  2:{ injection Hraise as <-. left. split; [reflexivity | ].
      apply andb_false_intro1, not_true_is_false. rewrite Hhas, Hagent.
      intros [? [=]]. }
  destruct (df !! "commission_amount") as [amount | ] eqn:Hamount; cbn in Hraise.
  2:{ injection Hraise as <-. left. split; [reflexivity | ].
      apply andb_false_intro2, not_true_is_false. rewrite Hhas, Hamount.
      intros [? [=]]. }
  assert (Hagent' : has_column df "agent_name" = true)
    by (apply Hhas; rewrite Hagent; eexists; reflexivity).
  assert (Hamount' : has_column df "commission_amount" = true)
    by (apply Hhas; rewrite Hamount; eexists; reflexivity).
  right. split; [rewrite Hagent', Hamount'; reflexivity | ].
  rewrite normalize_steps, Hamount in Hraise. unfold try_except_all in Hraise.
  destruct (match df !! "transaction_type" with
            | Some ser => str_accessor_ok ser
            | None => true
            end); [ | injection Hraise as <-; left; reflexivity].
  destruct (forallb (has_column df) required_fields) eqn:Hreq; [discriminate | ].
  injection Hraise as <-. right. eexists. split; [reflexivity | ].
  split.
  - intros Hnil. apply filter_negb_nil in Hnil. congruence.
  - intros f Hf. apply list_elem_of_filter in Hf as [Hneg Hin].
    unfold required_fields in Hin.
    apply list_elem_of_In in Hin. apply list_elem_of_In.
    cbn in Hin |- *.
    destruct Hin as [<- | [<- | [<- | [<- | []]]]]; auto.
    + rewrite Hagent' in Hneg. contradiction.
    + rewrite Hamount' in Hneg. contradiction.
Qed.

(** ** The name cleaner's normal form *)

Lemma join_tokens_strip (ws : list string) :
  Forall is_token ws -> strip (join " " ws) = join " " ws.
Proof.
  intros Htok.
  destruct ws as [ | w ws]; [reflexivity | ].
  apply strip_id.
  - inversion Htok as [ | ? ? [Hne Hw] _]; subst.
    destruct w as [ | c w]; [congruence | ].
    cbn in Hw. apply andb_prop in Hw as [Hc _].
    destruct ws; cbn; exact Hc.
  - clear - Htok. revert w Htok.
    induction ws as [ | w' ws IH]; intros w Htok.
    + inversion Htok as [ | ? ? [_ Hw] _]; subst. cbn [join].
      apply last_ok_no_space, Hw.
    + inversion Htok as [ | ? ? [Hne Hw] Hrest]; subst.
      change (join " " (w :: w' :: ws)) with (w +:+ " " +:+ join " " (w' :: ws)).
      specialize (IH w' Hrest).
      assert (Hj : join " " (w' :: ws) <> "").
      { apply join_nonempty. inversion Hrest as [ | ? ? [Hne' _] _]; subst. exact Hne'. }
      clear - IH Hj. induction w as [ | c w IHw].
      * rewrite append_nil.
        change (" " +:+ join " " (w' :: ws)) with (String " " (join " " (w' :: ws))).
        destruct (join " " (w' :: ws)) eqn:Hjoin; [congruence | exact IH].
      * rewrite append_cons. cbn [last_ok].
        destruct (w +:+ " " +:+ join " " (w' :: ws)) eqn:Happ; [ | exact IHw].
        pose proof (append_empty _ _ Happ) as ->.
        rewrite append_nil, append_cons in Happ. discriminate.
Qed.

(** X7. On ASCII text the name cleaner returns a name in normal form: it
    is not empty, it has no leading or trailing whitespace, its words are
    separated by single spaces, and every word is capitalized. *)
Theorem clean_name_normal_form (v : cell) :
  ascii_cell v = true ->
  let name := clean_name float_repr v in
  is_empty name = false
  /\ strip name = name
  /\ join " " (split name) = name
  /\ Forall (fun word => capitalize word = word) (split name).
Proof.
  intros _ name.
  split; [apply is_empty_false, clean_name_nonempty | ].
  assert (Hform : exists ws, Forall is_token ws
                             /\ Forall (fun w => capitalize w = w) ws
                             /\ name = join " " ws).
  { unfold name, clean_name.
    destruct (isna v || is_empty (strip (py_str float_repr v))).
    - exists ["Unknown"; "Agent"]. split; [ | split; [ | reflexivity]].
      + repeat constructor; discriminate.
      + repeat constructor.
    - exists (map capitalize (split (strip (py_str float_repr v)))).
      split; [ | split; [ | reflexivity]].
      + apply Forall_fmap. eapply Forall_impl; [apply split_tokens | ].
        intros w Hw. apply capitalize_token, Hw.
      + apply Forall_fmap, Forall_forall. intros w _. apply capitalize_idem. }
  destruct Hform as (ws & Htok & Hcap & ->).
  split; [apply join_tokens_strip, Htok | ].
  rewrite split_join by exact Htok. split; [reflexivity | exact Hcap].
Qed.

End NormalizerCoverage.

(* ===================================================================== *)
(** * The carrier parsers' cleaners *)
(* ===================================================================== *)

Section ParserCoverage.
Import PyStr PyFloat PyStrFacts Spec.

Variable float_repr : Q -> string.

(** X8. In the amount cleaner the branch for a leading "-$" can never be
    taken: after "$" has been removed and the parentheses rewritten, no
    string starts with "-$". *)
Theorem minus_dollar_branch_is_dead (s : string) :
  startswith "-$" (rewrite_parens (strip_currency s)) = false.
Proof.
  pose proof (rewrite_minus_dollar_idle s) as Hidle.
  unfold rewrite_minus_dollar in Hidle.
  destruct (startswith "-$" (rewrite_parens (strip_currency s))) eqn:Hsw;
    [ | reflexivity].
  exfalso.
  destruct (rewrite_parens (strip_currency s)) as [ | a [ | b r]];
    cbn [startswith] in Hsw; try discriminate.
  - rewrite andb_false_r in Hsw. discriminate.
  - apply andb_prop in Hsw as [Ha Hsw]. apply andb_prop in Hsw as [Hb _].
    apply Ascii.eqb_eq in Ha, Hb. subst a b.
    cbn [drop] in Hidle. injection Hidle as Hr.
    apply (f_equal String.length) in Hr. cbn in Hr. lia.
Qed.

Lemma clean_amount_without_minus_dollar (s : string) :
  try_except (py_float (rewrite_parens (strip_currency s))) [ValueError]
    (fun _ => Ok zero)
  = clean_amount (VStr s).
Proof.
  rewrite clean_amount_str, rewrite_minus_dollar_idle. unfold try_except.
  destruct (py_float _) as [f | e] eqn:Hp; [reflexivity | ].
  rewrite (py_float_raises_ValueError _ _ Hp). reflexivity.
Qed.

(** X9. The Centene and the Emblem parser each carry a copy of the amount
    cleaner; on every value both return what the normalizer's
    [clean_amount] returns. *)
Theorem parser_cleaners_agree (amount : cell) :
  centene_clean_commission_amount amount = clean_amount amount
  /\ emblem_clean_commission_amount amount = clean_amount amount.
Proof.
  destruct amount as [ | f | s].
  - split; reflexivity.
  - destruct f; split; reflexivity.
  - unfold centene_clean_commission_amount, emblem_clean_commission_amount.
    cbn [isna]. cbv zeta. rewrite clean_amount_without_minus_dollar.
    split; reflexivity.
Qed.

Lemma numeric_plain (c : ascii) :
  (is_digit c || Ascii.eqb c "." || Ascii.eqb c "-") = plain_char c.
Proof.
  unfold plain_char. destruct (is_digit c), (Ascii.eqb c "."), (Ascii.eqb c "-");
    reflexivity.
Qed.

Lemma numeric_characters_plain (s : string) :
  all_chars plain_char (numeric_characters s) = true.
Proof.
  unfold numeric_characters.
  eapply all_chars_impl; [ | apply filter_chars_all].
  intros c Hc. rewrite <- numeric_plain. exact Hc.
Qed.

Lemma plain_prepared (t : string) :
  all_chars plain_char t = true ->
  rewrite_minus_dollar (rewrite_parens (strip_currency t)) = t.
Proof.
  intros Hplain. rewrite rewrite_minus_dollar_idle.
  assert (Hsc : strip_currency t = t).
  { unfold strip_currency, remove_char.
    rewrite (filter_chars_id _ t).
    2:{ eapply all_chars_impl; [ | exact Hplain].
        intros c Hc. unfold plain_char in Hc.
        destruct (Ascii.eqb_spec c "$") as [-> | ]; [discriminate | reflexivity]. }
    rewrite (filter_chars_id _ t).
    2:{ eapply all_chars_impl; [ | exact Hplain].
        intros c Hc. unfold plain_char in Hc.
        destruct (Ascii.eqb_spec c ",") as [-> | ]; [discriminate | reflexivity]. }
    apply strip_no_space.
    eapply all_chars_impl; [ | exact Hplain].
    intros c Hc. apply plain_char_facts in Hc as [Hc _]. exact Hc. }
  rewrite Hsc. unfold rewrite_parens.
  destruct t as [ | c t]; [reflexivity | ].
  cbn [startswith]. cbn [all_chars] in Hplain. apply andb_prop in Hplain as [Hc _].
  destruct (Ascii.eqb_spec "(" c) as [<- | ]; [discriminate | reflexivity].
Qed.

(** X10. The Healthfirst cleaner never raises.  On a string it is the
    normalizer's [clean_amount] applied to what is left of the prepared
    text once every character other than a digit, "." or "-" is dropped
    (0.0 when nothing is left); on every other value it is [clean_amount]
    itself. *)
Theorem healthfirst_cleaner_drops_characters (amount : cell) :
  healthfirst_clean_commission_amount amount
  = match amount with
    | VStr s =>
        let cleaned := numeric_characters (rewrite_parens (strip_currency s)) in
        if is_empty cleaned then Ok zero else clean_amount (VStr cleaned)
    | _ => clean_amount amount
    end
  /\ is_ok (healthfirst_clean_commission_amount amount) = true.
Proof.
  destruct amount as [ | f | s];
    [split; reflexivity | destruct f; split; reflexivity | ].
  unfold healthfirst_clean_commission_amount. cbn [isna]. cbv zeta.
  rewrite rewrite_minus_dollar_idle.
  set (cleaned := numeric_characters (rewrite_parens (strip_currency s))).
  destruct (is_empty cleaned); [split; reflexivity | ].
  rewrite clean_amount_str.
  rewrite (plain_prepared cleaned) by apply numeric_characters_plain.
  unfold try_except_all. destruct (py_float cleaned); split; reflexivity.
Qed.

Lemma plain_text_not_empty (negative : bool) (ip : string) (fp : option string) :
  ip <> "" -> is_empty (plain_text negative ip fp) = false.
Proof.
  intros Hip. apply is_empty_false. unfold plain_text. intros H.
  destruct negative.
  - apply append_empty in H. discriminate.
  - rewrite append_nil in H. apply append_empty in H. contradiction.
Qed.

(** X11. On a written amount (dollar sign, comma-separated digit groups,
    optional fraction, optional enclosing parentheses) the three parsers'
    cleaners all return the float of the written value. *)
Theorem parser_cleaners_written (w : written_amount) :
  well_formed w ->
  centene_clean_commission_amount (VStr (render w))
  = Ok (FFin (Qred (written_value w)))
  /\ emblem_clean_commission_amount (VStr (render w))
     = Ok (FFin (Qred (written_value w)))
  /\ healthfirst_clean_commission_amount (VStr (render w))
     = Ok (FFin (Qred (written_value w))).
Proof.
  intros Hw.
  unfold centene_clean_commission_amount, emblem_clean_commission_amount.
  cbn [isna]. cbv zeta.
  rewrite clean_amount_without_minus_dollar, clean_amount_written by exact Hw.
  split; [reflexivity | split; [reflexivity | ]].
  destruct (prepared_render w Hw) as (Hprep & Hne & HD & HF).
  rewrite rewrite_minus_dollar_idle in Hprep.
  unfold healthfirst_clean_commission_amount. cbn [isna]. cbv zeta.
  rewrite rewrite_minus_dollar_idle, Hprep.
  unfold numeric_characters. rewrite filter_chars_id.
  2:{ eapply all_chars_impl; [ | apply plain_text_chars; assumption].
      intros c Hc. rewrite numeric_plain. exact Hc. }
  rewrite plain_text_not_empty by exact Hne.
  rewrite py_float_plain_text by assumption.
  unfold try_except_all, of_decimal. do 2 f_equal.
  apply Qred_complete, written_value_decimal, Hw.
Qed.

(** X12. The Healthfirst name cleaner and the normalizer's [clean_name]
    are the same function up to the sentinel: where the parser answers
    [None] the normalizer answers "Unknown Agent".  On ASCII text the agent
    name a Healthfirst record gets is therefore left as it is by the
    normalizer. *)
Theorem healthfirst_names_are_normalized (name producer_type : cell) :
  ascii_cell name = true ->
  ascii_cell producer_type = true ->
  clean_name float_repr name
  = default "Unknown Agent" (healthfirst_clean_agent_name float_repr name)
  /\ clean_name float_repr
       (VStr (healthfirst_agent_name float_repr name producer_type))
     = healthfirst_agent_name float_repr name producer_type.
Proof.
  intros _ _.
  assert (Hsame : forall v,
             clean_name float_repr v
             = default "Unknown Agent" (healthfirst_clean_agent_name float_repr v)).
  { intros v. unfold clean_name, healthfirst_clean_agent_name.
    destruct (isna v || is_empty (strip (py_str float_repr v))); reflexivity. }
  split; [apply Hsame | ].
  assert (Hfix : forall v s,
             healthfirst_clean_agent_name float_repr v = Some s ->
             clean_name float_repr (VStr s) = s).
  { intros v s Hs. pose proof (Hsame v) as Hv. rewrite Hs in Hv. cbn in Hv.
    rewrite <- Hv. apply clean_name_idem. }
  unfold healthfirst_agent_name. cbv zeta.
  destruct (healthfirst_clean_agent_name float_repr name) as [a | ] eqn:Ha; cbn [falsy].
  - destruct (is_empty a) eqn:Hea; [ | cbn; eapply Hfix, Ha].
    destruct (healthfirst_clean_agent_name float_repr producer_type) as [b | ] eqn:Hb;
      cbn [falsy]; [ | reflexivity].
    destruct (is_empty b); [reflexivity | cbn; eapply Hfix, Hb].
  - destruct (healthfirst_clean_agent_name float_repr producer_type) as [b | ] eqn:Hb;
      cbn [falsy]; [ | reflexivity].
    destruct (is_empty b); [reflexivity | cbn; eapply Hfix, Hb].
Qed.

End ParserCoverage.

(* ===================================================================== *)
(** * Further properties of the name matcher *)
(* ===================================================================== *)

Section NameMatcherCoverage.
Import PyStr PyStrFacts.

Variable float_repr : Q -> string.
Variable sequence_ratio : string -> string -> Q.

#[local] Abbreviation normal := (normalize_name float_repr).
#[local] Abbreviation similar := (are_similar_names float_repr sequence_ratio).

(** ** The shape of a normalized name *)

Lemma all_chars_and (p q : ascii -> bool) (s : string) :
  all_chars (fun c => p c && q c) s = all_chars p s && all_chars q s.
Proof.
  induction s as [ | c s IH]; cbn [all_chars]; [reflexivity | ].
  rewrite IH. destruct (p c), (q c), (all_chars p s), (all_chars q s); reflexivity.
Qed.

Lemma all_chars_filter (p k : ascii -> bool) (s : string) :
  all_chars p s = true -> all_chars p (filter_chars k s) = true.
Proof.
  induction s as [ | c s IH]; cbn [all_chars filter_chars]; [reflexivity | ].
  intros [Hc Hs]%andb_prop. destruct (k c); cbn [all_chars]; [rewrite Hc | ]; auto.
Qed.

Lemma all_chars_lower (s : string) :
  all_chars (fun c => negb (is_upper c)) (lower s) = true.
Proof.
  induction s as [ | c s IH]; [reflexivity | ].
  change (negb (is_upper (lower_char c))
          && all_chars (fun c => negb (is_upper c)) (lower s) = true).
  rewrite IH, andb_true_r. clear. each_char c.
Qed.

Lemma all_chars_replace_fuel (p : ascii -> bool) (fuel : nat) (old new s : string) :
  all_chars p new = true -> all_chars p s = true ->
  all_chars p (replace_fuel fuel old new s) = true.
Proof.
  intros Hnew. revert s. induction fuel as [ | fuel IH]; intros s Hs; [exact Hs | ].
  cbn [replace_fuel]. destruct s as [ | c s]; [reflexivity | ].
  destruct (startswith old (String c s)).
  - rewrite all_chars_app, Hnew. apply IH, all_chars_drop, Hs.
  - cbn [all_chars] in Hs |- *. apply andb_prop in Hs as [Hc Hs].
    rewrite Hc. apply IH, Hs.
Qed.

Lemma all_chars_replace (p : ascii -> bool) (old new s : string) :
  all_chars p new = true -> all_chars p s = true ->
  all_chars p (replace old new s) = true.
Proof. apply all_chars_replace_fuel. Qed.

Lemma first_ok_lstrip (s : string) : first_ok (lstrip s) = true.
Proof.
  induction s as [ | c s IH]; [reflexivity | ].
  cbn [lstrip]. destruct (is_space c) eqn:Hc; [exact IH | ].
  cbn [first_ok]. unfold no_space. rewrite Hc. reflexivity.
Qed.

Lemma first_ok_rstrip (s : string) : first_ok s = true -> first_ok (rstrip s) = true.
Proof.
  destruct s as [ | c s]; [reflexivity | ].
  cbn [first_ok rstrip]. intros Hc.
  unfold no_space in Hc. apply negb_true_iff in Hc. rewrite Hc.
  cbn [andb first_ok]. unfold no_space. rewrite Hc. reflexivity.
Qed.

Lemma last_ok_rstrip (s : string) : last_ok (rstrip s) = true.
Proof.
  induction s as [ | c s IH]; [reflexivity | ].
  cbn [rstrip]. destruct (rstrip s) as [ | d r] eqn:Hr.
  - cbn [is_empty]. rewrite andb_true_r.
    destruct (is_space c) eqn:Hc; [reflexivity | ].
    cbn [last_ok]. unfold no_space. rewrite Hc. reflexivity.
  - cbn [is_empty]. rewrite andb_false_r. exact IH.
Qed.

Lemma strip_strip (s : string) : strip (strip s) = strip s.
Proof.
  apply strip_id.
  - apply first_ok_rstrip, first_ok_lstrip.
  - apply last_ok_rstrip.
Qed.

Lemma name_char_of (c : ascii) :
  negb (is_upper c) && (no_space c || Ascii.eqb c " ")
  && (is_word c || is_space c || Ascii.eqb c "-") = true ->
  name_char c = true.
Proof. each_char c. Qed.

(** X13. A normalized name consists of lower-case letters, digits, "_",
    "-" and spaces only, and has no whitespace at either end. *)
Theorem normalize_name_shape (name : cell) :
  all_chars name_char (normal name) = true
  /\ strip (normal name) = normal name.
Proof.
  unfold normalize_name. destruct (isna name); [split; reflexivity | ].
  unfold normalize_name_str. cbv zeta.
  set (s0 := py_str float_repr name).
  split; [ | apply strip_strip].
  unfold strip at 1. apply all_chars_rstrip, all_chars_lstrip.
  unfold apply_replacements, replacements. cbn [foldl].
  do 7 (apply all_chars_replace; [reflexivity | ]).
  eapply all_chars_impl; [exact name_char_of | ].
  rewrite !all_chars_and. unfold strip_punctuation.
  rewrite filter_chars_all, andb_true_r.
  apply andb_true_intro. split; apply all_chars_filter.
  - apply all_chars_join; [reflexivity | ].
    apply all_chars_split. unfold strip.
    apply all_chars_rstrip, all_chars_lstrip, all_chars_lower.
  - apply all_chars_join; [reflexivity | ].
    eapply Forall_impl; [apply split_tokens | ].
    intros w [_ Hw]. eapply all_chars_impl; [ | exact Hw].
    intros c Hc. rewrite Hc. reflexivity.
Qed.

(** ** Laws of the similarity test *)

(** X14. A name is similar to itself exactly when its normal form is not
    empty; two names can only be similar when neither normal form is
    empty; and exchanging the two names changes the answer only through
    the order in which they are handed to the similarity ratio. *)
Theorem are_similar_names_laws (name1 name2 : cell) (threshold : Q) :
  similar name1 name1 threshold = negb (is_empty (normal name1))
  /\ (if is_empty (normal name1) || is_empty (normal name2)
      then similar name1 name2 threshold = false
      else True)
  /\ similar name1 name2 threshold
     = are_similar_names float_repr (fun a b => sequence_ratio b a)
         name2 name1 threshold.
Proof.
  unfold are_similar_names. cbv zeta.
  set (n1 := normal name1). set (n2 := normal name2).
  split; [ | split].
  - rewrite orb_diag. destruct (is_empty n1); [reflexivity | ].
    rewrite String.eqb_refl. reflexivity.
  - destruct (is_empty n1 || is_empty n2); [reflexivity | exact I].
  - rewrite (orb_comm (is_empty n2)), (String.eqb_sym n2 n1),
      (orb_comm (contains n2 n1)), (Nat.min_comm (size (word_set n2))).
    replace (word_set n2 ∩ word_set n1) with (word_set n1 ∩ word_set n2)
      by apply (comm_L (∩)).
    reflexivity.
Qed.

(** X15. Lowering the threshold never loses a match. *)
Theorem are_similar_names_threshold (name1 name2 : cell) (low high : Q) :
  (low <= high)%Q ->
  similar name1 name2 high = true ->
  similar name1 name2 low = true.
Proof.
  intros Hle. unfold are_similar_names. cbv zeta.
  repeat match goal with
         | |- context [if ?b then _ else _] => destruct b; try (intros; assumption)
         end.
  intros Hhigh. apply Qle_bool_iff in Hhigh. apply Qle_bool_iff.
  eapply Qle_trans; eassumption.
Qed.

End NameMatcherCoverage.

(* ===================================================================== *)
(** * Pairs, canonical names and groups *)
(* ===================================================================== *)

Section NameGroupsCoverage.
Import PyStr PyStrFacts.

Variable float_repr : Q -> string.
Variable sequence_ratio : string -> string -> Q.
Variable set_order : gset string -> list string.

#[local] Abbreviation normal := (normalize_name float_repr).
#[local] Abbreviation similar := (are_similar_names float_repr sequence_ratio).

(** ** [match_names] *)

Lemma match_pairs_spec (threshold : Q) (l : list (string * string)) (a b : string) :
  (a, b) ∈ match_pairs float_repr sequence_ratio threshold l
  <-> exists i j na nb,
        i < j /\ l !! i = Some (a, na) /\ l !! j = Some (b, nb)
        /\ similar (VStr na) (VStr nb) threshold = true.
Proof.
  induction l as [ | [name1 norm1] rest IH].
  - cbn. split; [intros H; inversion H | intros (i & j & na & nb & _ & H & _); discriminate].
  - cbn [match_pairs]. rewrite elem_of_app, IH. split.
    + intros [Hhead | (i & j & na & nb & Hlt & Hi & Hj & Hs)].
      * apply list_elem_of_fmap in Hhead as ([b' nb] & [= -> ->] & Hin).
        apply list_elem_of_filter in Hin as [Hs Hin].
        apply list_elem_of_lookup in Hin as [j Hj].
        exists 0, (S j), norm1, nb. cbn in Hs.
        split; [lia | ]. split; [reflexivity | ]. split; [exact Hj | ].
        apply Is_true_true, Hs.
      * exists (S i), (S j), na, nb. split; [lia | auto].
    + intros (i & j & na & nb & Hlt & Hi & Hj & Hs).
      destruct j as [ | j]; [lia | ]. cbn in Hj.
      destruct i as [ | i].
      * cbn in Hi. injection Hi as -> ->. left.
        apply list_elem_of_fmap. exists (b, nb). split; [reflexivity | ].
        apply list_elem_of_filter. split; [cbn; apply Is_true_true, Hs | ].
        eapply list_elem_of_lookup_2, Hj.
      * right. exists i, j, na, nb. split; [lia | auto].
Qed.

(** X16. [match_names] reports exactly the pairs of an earlier and a
    later name of the list whose normalized forms pass the similarity
    test (which normalizes them once more). *)
Theorem match_names_spec (names : list string) (threshold : Q) (a b : string) :
  (a, b) ∈ match_names float_repr sequence_ratio names threshold
  <-> exists i j,
        i < j /\ names !! i = Some a /\ names !! j = Some b
        /\ similar (VStr (normal (VStr a))) (VStr (normal (VStr b))) threshold = true.
Proof.
  unfold match_names. rewrite match_pairs_spec. unfold normalized_names. split.
  - intros (i & j & na & nb & Hlt & Hi & Hj & Hs).
    rewrite list_lookup_fmap in Hi, Hj.
    destruct (names !! i) as [a' | ] eqn:Ha; [ | discriminate].
    destruct (names !! j) as [b' | ] eqn:Hb; [ | discriminate].
    cbn in Hi, Hj. injection Hi as -> <-. injection Hj as -> <-.
    exists i, j. auto.
  - intros (i & j & Hlt & Hi & Hj & Hs).
    exists i, j, (normal (VStr a)), (normal (VStr b)).
    rewrite !list_lookup_fmap, Hi, Hj. auto.
Qed.

(** ** [find_canonical_name] *)

Lemma key_le_refl (a : nat * nat) : key_le a a = true.
Proof.
  unfold key_le. rewrite Nat.eqb_refl, Nat.leb_refl. apply orb_true_r.
Qed.

Lemma key_le_total (a b : nat * nat) : key_le a b = false -> key_le b a = true.
Proof.
  unfold key_le. destruct a as [a1 a2], b as [b1 b2]. cbn [fst snd].
  rewrite orb_false_iff, andb_false_iff, orb_true_iff, andb_true_iff,
    !Nat.ltb_ge, Nat.ltb_lt, Nat.eqb_neq, Nat.eqb_eq, Nat.leb_le, Nat.leb_gt.
  lia.
Qed.

Lemma key_le_trans (a b c : nat * nat) :
  key_le a b = true -> key_le b c = true -> key_le a c = true.
Proof.
  unfold key_le. destruct a as [a1 a2], b as [b1 b2], c as [c1 c2]. cbn [fst snd].
  rewrite !orb_true_iff, !andb_true_iff, !Nat.ltb_lt, !Nat.eqb_eq, !Nat.leb_le.
  lia.
Qed.

Lemma find_canonical_name_eq (names : list string) :
  find_canonical_name names
  = hd "" (sorted_by_key (filter (fun name => negb (is_empty name)) names)).
Proof.
  unfold find_canonical_name. destruct names as [ | x l]; [reflexivity | ].
  destruct (filter _ (x :: l)); reflexivity.
Qed.

Lemma filter_valid_cons (x : string) (l : list string) :
  filter (fun name => negb (is_empty name)) (x :: l)
  = if is_empty x then filter (fun name => negb (is_empty name)) l
    else x :: filter (fun name => negb (is_empty name)) l.
Proof.
  rewrite filter_cons. destruct (is_empty x); reflexivity.
Qed.

(** X17. [find_canonical_name] answers "" exactly when the list holds no
    non-empty name.  Otherwise it answers a non-empty name of the list
    whose key (number of words, then length) is least, and among the names
    with that key the one that comes first. *)
Theorem find_canonical_name_choice (names : list string) :
  (Forall (fun x => is_empty x = true) names /\ find_canonical_name names = "")
  \/ exists i,
       names !! i = Some (find_canonical_name names)
       /\ is_empty (find_canonical_name names) = false
       /\ (forall j x,
              names !! j = Some x -> is_empty x = false ->
              key_le (name_key (find_canonical_name names)) (name_key x) = true)
       /\ (forall j x,
              j < i -> names !! j = Some x -> is_empty x = false ->
              key_le (name_key x) (name_key (find_canonical_name names)) = false).
Proof.
  rewrite find_canonical_name_eq.
  induction names as [ | x l IH].
  - left. split; [constructor | reflexivity].
  - rewrite filter_valid_cons. destruct (is_empty x) eqn:Hx.
    + destruct IH as [[Hall Hnone] | (i & Hi & Hne & Hmin & Hfirst)].
      * left. split; [constructor; assumption | exact Hnone].
      * right. exists (S i). split; [exact Hi | ]. split; [exact Hne | ]. split.
        -- intros [ | j] y Hy Hyne; [ | eapply Hmin; eassumption].
           cbn in Hy. injection Hy as <-. congruence.
        -- intros [ | j] y Hlt Hy Hyne; [ | eapply Hfirst; [ | eassumption..]; lia].
           cbn in Hy. injection Hy as <-. congruence.
    + cbn [sorted_by_key foldr].
      fold (sorted_by_key (filter (fun name => negb (is_empty name)) l)).
      destruct IH as [[Hall Hnone] | (i & Hi & Hne & Hmin & Hfirst)].
      * assert (Hnil : filter (fun name => negb (is_empty name)) l = []).
        { clear - Hall. induction Hall as [ | y l Hy _ IH]; [reflexivity | ].
          rewrite filter_valid_cons, Hy. exact IH. }
        rewrite Hnil. cbn. right. exists 0. split; [reflexivity | ].
        split; [exact Hx | ]. split.
        -- intros [ | j] y Hy Hyne.
           ++ cbn in Hy. injection Hy as <-. apply key_le_refl.
           ++ cbn in Hy. apply list_elem_of_lookup_2 in Hy.
              rewrite Forall_forall in Hall. rewrite (Hall _ Hy) in Hyne. discriminate.
        -- intros j y Hlt. lia.
      * destruct (sorted_by_key (filter (fun name => negb (is_empty name)) l))
          as [ | c rest] eqn:Hsorted; [cbn in Hne; discriminate | ].
        cbn [hd] in Hi, Hne, Hmin, Hfirst. cbn [insert_by_key].
        destruct (key_le (name_key x) (name_key c)) eqn:Hxc; cbn [hd]; right.
        -- exists 0. split; [reflexivity | ]. split; [exact Hx | ]. split.
           ++ intros [ | j] y Hy Hyne.
              ** cbn in Hy. injection Hy as <-. apply key_le_refl.
              ** cbn in Hy. eapply key_le_trans; [exact Hxc | ].
                 eapply Hmin; eassumption.
           ++ intros j y Hlt. lia.
        -- exists (S i). split; [exact Hi | ]. split; [exact Hne | ]. split.
           ++ intros [ | j] y Hy Hyne.
              ** cbn in Hy. injection Hy as <-. apply key_le_total, Hxc.
              ** cbn in Hy. eapply Hmin; eassumption.
           ++ intros [ | j] y Hlt Hy Hyne.
              ** cbn in Hy. injection Hy as <-. exact Hxc.
              ** cbn in Hy. eapply Hfirst; [ | eassumption..]. lia.
Qed.

Lemma insert_by_key_perm (x : string) (l : list string) :
  insert_by_key x l ≡ₚ x :: l.
Proof.
  induction l as [ | y l IH]; cbn [insert_by_key]; [reflexivity | ].
  destruct (key_le _ _); [reflexivity | ].
  rewrite IH. apply perm_swap.
Qed.

Lemma sorted_by_key_perm (l : list string) : sorted_by_key l ≡ₚ l.
Proof.
  induction l as [ | x l IH]; [reflexivity | ].
  change (sorted_by_key (x :: l)) with (insert_by_key x (sorted_by_key l)).
  rewrite insert_by_key_perm, IH. reflexivity.
Qed.

(** The canonical name is taken from the list, unless the list holds
    empty names only. *)
Lemma find_canonical_name_member (names : list string) :
  find_canonical_name names ∈ names
  \/ (find_canonical_name names = "" /\ Forall (fun x => is_empty x = true) names).
Proof.
  rewrite find_canonical_name_eq.
  destruct (sorted_by_key (filter (fun name => negb (is_empty name)) names))
    as [ | first rest] eqn:Hsorted.
  - right. split; [reflexivity | ].
    assert (Hnil : filter (fun name => negb (is_empty name)) names = []).
    { apply Permutation_nil_r. rewrite <- Hsorted. symmetry. apply sorted_by_key_perm. }
    apply Forall_forall. intros x Hx.
    destruct (is_empty x) eqn:Hempty; [reflexivity | ].
    assert (Hin : x ∈ filter (fun name => negb (is_empty name)) names).
    { apply list_elem_of_filter. split; [rewrite Hempty; exact I | exact Hx]. }
    rewrite Hnil in Hin. inversion Hin.
  - left. cbn [hd].
    assert (Hin : first ∈ filter (fun name => negb (is_empty name)) names).
    { rewrite <- (sorted_by_key_perm (filter _ names)), Hsorted. left. }
    apply list_elem_of_filter in Hin as [_ Hin]. exact Hin.
Qed.


(** ** [group_similar_names] *)

Section UnderSetOrder.

(** What is assumed of the order in which a set is listed: every element
    is listed, once. *)
Hypothesis set_order_lists : forall X : gset string, set_order X ≡ₚ elements X.

#[local] Abbreviation grouped' := (grouped float_repr sequence_ratio).
#[local] Abbreviation step' := (group_step float_repr sequence_ratio set_order).

Lemma elem_of_set_order (X : gset string) (x : string) : x ∈ set_order X <-> x ∈ X.
Proof. rewrite (set_order_lists X). apply elem_of_elements. Qed.

Lemma NoDup_set_order (X : gset string) : NoDup (set_order X).
Proof. rewrite (set_order_lists X). apply NoDup_elements. Qed.

Lemma similar_names_of_spec (names : list string) (processed : gset string)
    (threshold : Q) (name x : string) :
  x ∈ similar_names_of float_repr sequence_ratio names processed threshold name
  <-> x = name
      \/ (x ∈ names /\ x <> name /\ (x ∉ processed)
          /\ similar (VStr name) (VStr x) threshold = true).
Proof.
  unfold similar_names_of.
  set (f := fun (similar_names : gset string) (other_name : string) =>
              if bool_decide (other_name <> name)
                 && bool_decide (other_name ∉ processed)
                 && similar (VStr name) (VStr other_name) threshold
              then similar_names ∪ {[other_name]}
              else similar_names).
  assert (Hgen : forall l acc,
             x ∈ foldl f acc l
             <-> x ∈ acc
                 \/ (x ∈ l /\ x <> name /\ (x ∉ processed)
                     /\ similar (VStr name) (VStr x) threshold = true)).
  { induction l as [ | y l IH]; intros acc; cbn [foldl].
    - split; [auto | intros [H | [H _]]; [exact H | inversion H]].
    - rewrite IH.
      change (f acc y)
        with (if bool_decide (y <> name) && bool_decide (y ∉ processed)
                 && similar (VStr name) (VStr y) threshold
              then acc ∪ {[y]} else acc).
      destruct (bool_decide (y <> name) && bool_decide (y ∉ processed)
                && similar (VStr name) (VStr y) threshold) eqn:Hcond.
      + apply andb_prop in Hcond as [Hcond Hsim].
        apply andb_prop in Hcond as [Hne Hnp].
        apply bool_decide_eq_true_1 in Hne, Hnp.
        rewrite elem_of_union, elem_of_singleton, elem_of_cons. split.
        * intros [[H | ->] | (H & H')]; auto 10.
        * intros [H | ([-> | H] & H')]; auto 10.
      + rewrite elem_of_cons. split.
        * intros [H | (H & H')]; auto 10.
        * intros [H | ([-> | H] & Hne & Hnp & Hsim)]; auto 10.
          rewrite (bool_decide_eq_true_2 _ Hne), (bool_decide_eq_true_2 _ Hnp), Hsim
            in Hcond. discriminate. }
  rewrite Hgen, elem_of_singleton. reflexivity.
Qed.

Lemma group_step_grouped (names : list string) (threshold : Q)
    (groups : gmap string (list string)) (processed : gset string) (name : string) :
  name ∈ names ->
  grouped' names threshold groups processed ->
  grouped' names threshold
    (step' names threshold (groups, processed) name).1
    (step' names threshold (groups, processed) name).2
  /\ processed ⊆ (step' names threshold (groups, processed) name).2
  /\ name ∈ (step' names threshold (groups, processed) name).2.
Proof.
  intros Hname (Hproc & Hgroup & Hdisj). unfold group_step.
  destruct (bool_decide (name ∈ processed)) eqn:Hdone.
  { apply bool_decide_eq_true_1 in Hdone. cbn [fst snd].
    split; [exact (conj Hproc (conj Hgroup Hdisj)) | ].
    split; [reflexivity | exact Hdone]. }
  apply bool_decide_eq_false_1 in Hdone. cbv zeta.
  set (S := similar_names_of float_repr sequence_ratio names processed threshold name).
  assert (HS : forall x, x ∈ S
                         <-> x = name
                             \/ (x ∈ names /\ x <> name /\ (x ∉ processed)
                                 /\ similar (VStr name) (VStr x) threshold = true))
    by (intros x; apply similar_names_of_spec).
  assert (Hseed : name ∈ S) by (apply HS; left; reflexivity).
  rewrite bool_decide_eq_true_2
    by (intros Hempty; rewrite Hempty in Hseed;
        exact (not_elem_of_empty (C := gset string) name Hseed)).
  cbn [fst snd].
  set (members := set_order S).
  assert (Hmem : forall x, x ∈ members <-> x ∈ S)
    by (intros x; apply elem_of_set_order).
  set (canonical := find_canonical_name members).
  assert (Hcanon : canonical ∈ members).
  { destruct (find_canonical_name_member members) as [Hin | [Hnone Hall]];
      [exact Hin | ].
    fold canonical in Hnone. rewrite Hnone.
    assert (Hn : name ∈ members) by (apply Hmem, Hseed).
    rewrite Forall_forall in Hall. specialize (Hall _ Hn).
    apply is_empty_true in Hall. rewrite <- Hall. exact Hn. }
  assert (Hnew : forall x, x ∈ S -> x ∉ processed).
  { intros x [-> | (_ & _ & H & _)]%HS; assumption. }
  assert (Hfresh : groups !! canonical = None).
  { destruct (groups !! canonical) as [m | ] eqn:Hm; [ | reflexivity].
    exfalso. destruct (Hgroup _ _ Hm) as (_ & Hc & _).
    apply (Hnew canonical); [apply Hmem, Hcanon | ].
    apply Hproc. exists canonical, m. auto. }
  assert (Hold : forall c m, groups !! c = Some m -> canonical <> c)
    by (intros c m Hm ->; congruence).
  split; [ | split; [apply union_subseteq_l | apply elem_of_union_r, Hseed]].
  split; [ | split].
  - intros x. rewrite elem_of_union. split.
    + intros [Hx | Hx].
      * apply Hproc in Hx as (c & m & Hm & Hxm). exists c, m.
        split; [ | exact Hxm].
        rewrite lookup_insert_ne by (eapply Hold, Hm). exact Hm.
      * exists canonical, members. split; [apply lookup_insert_eq | apply Hmem, Hx].
    + intros (c & m & Hm & Hxm).
      apply lookup_insert_Some in Hm as [[<- <-] | [_ Hm]].
      * right. apply Hmem, Hxm.
      * left. apply Hproc. exists c, m. auto.
  - intros c m Hm.
    apply lookup_insert_Some in Hm as [[<- <-] | [_ Hm]]; [ | apply Hgroup, Hm].
    split; [reflexivity | ].
    split; [exact Hcanon | ]. split; [apply NoDup_set_order | ]. split.
    + intros x [-> | (H & _)]%Hmem%HS; assumption.
    + exists name. split; [apply Hmem, Hseed | ].
      intros x [-> | (_ & _ & _ & H)]%Hmem%HS; auto.
  - intros c1 c2 m1 m2 x Hm1 Hm2 Hx1 Hx2.
    apply lookup_insert_Some in Hm1 as [[<- <-] | [_ Hm1]];
      apply lookup_insert_Some in Hm2 as [[<- <-] | [_ Hm2]].
    + reflexivity.
    + exfalso. apply (Hnew x); [apply Hmem, Hx1 | ].
      apply Hproc. exists c2, m2. auto.
    + exfalso. apply (Hnew x); [apply Hmem, Hx2 | ].
      apply Hproc. exists c1, m1. auto.
    + eapply Hdisj; eassumption.
Qed.

Lemma foldl_group_step_grouped (names : list string) (threshold : Q) (l : list string) :
  forall (groups : gmap string (list string)) (processed : gset string),
    (forall x, x ∈ l -> x ∈ names) ->
    grouped' names threshold groups processed ->
    grouped' names threshold
      (foldl (step' names threshold) (groups, processed) l).1
      (foldl (step' names threshold) (groups, processed) l).2
    /\ processed ⊆ (foldl (step' names threshold) (groups, processed) l).2
    /\ (forall x, x ∈ l ->
          x ∈ (foldl (step' names threshold) (groups, processed) l).2).
Proof.
  induction l as [ | name l IH]; intros groups processed Hl Hinv; cbn [foldl].
  - split; [exact Hinv | ]. split; [reflexivity | intros x Hx; inversion Hx].
  - destruct (group_step_grouped names threshold groups processed name)
      as (Hinv' & Hsub & Hin); [apply Hl; left | exact Hinv | ].
    destruct (step' names threshold (groups, processed) name)
      as [groups' processed'] eqn:Hstep.
    cbn [fst snd] in Hinv', Hsub, Hin.
    destruct (IH groups' processed') as (Hinv'' & Hsub' & Hin');
      [intros x Hx; apply Hl; right; exact Hx | exact Hinv' | ].
    split; [exact Hinv'' | ]. split; [etrans; eassumption | ].
    intros x [-> | Hx]%elem_of_cons; [apply Hsub', Hin | apply Hin', Hx].
Qed.

(** X18. [group_similar_names] partitions the names of the list: every
    name lands in a group, no name lands in two, every group is labelled
    by its canonical name, which is one of its own members, lists names of
    the input without repetition, and consists of one name together with names that pass the
    similarity test against it. *)
Theorem group_similar_names_partition (names : list string) (threshold : Q) :
  let groups :=
    group_similar_names float_repr sequence_ratio set_order names threshold in
  (forall name,
      name ∈ names ->
      exists canonical members, groups !! canonical = Some members /\ name ∈ members)
  /\ (forall canonical members,
         groups !! canonical = Some members ->
         canonical = find_canonical_name members
         /\ canonical ∈ members /\ NoDup members
         /\ (forall x, x ∈ members -> x ∈ names)
         /\ exists seed,
              seed ∈ members
              /\ forall x, x ∈ members ->
                    x = seed \/ similar (VStr seed) (VStr x) threshold = true)
  /\ (forall c1 c2 m1 m2 x,
         groups !! c1 = Some m1 -> groups !! c2 = Some m2 ->
         x ∈ m1 -> x ∈ m2 -> c1 = c2).
Proof.
  intros groups. unfold groups, group_similar_names.
  destruct (foldl_group_step_grouped names threshold names ∅ ∅)
    as ((Hproc & Hgroup & Hdisj) & _ & Hall).
  - auto.
  - split; [ | split].
    + intros x.
      split; [intros Hx; exfalso; exact (not_elem_of_empty (C := gset string) x Hx) | ].
      intros (c & m & Hm & _). rewrite lookup_empty in Hm. discriminate.
    + intros c m Hm. rewrite lookup_empty in Hm. discriminate.
    + intros c1 c2 m1 m2 x Hm. rewrite lookup_empty in Hm. discriminate.
  - split; [ | split; assumption].
    intros name Hname. apply Hproc, Hall, Hname.
Qed.

End UnderSetOrder.

End NameGroupsCoverage.

(* ===================================================================== *)
(** * Further properties of the analyzer *)
(* ===================================================================== *)

Section AnalyzerCoverage.
Import PyStr Analyzer Reports Spec.

(** ** Distinct values and sorting *)

Lemma unique_fold_elem (l acc : list string) (x : string) :
  x ∈ foldl (fun seen y => if bool_decide (y ∈ seen) then seen else seen ++ [y]) acc l
  <-> x ∈ acc \/ x ∈ l.
Proof.
  revert acc. induction l as [ | y l IH]; intros acc; cbn [foldl].
  - split; [auto | intros [H | H]; [exact H | inversion H]].
  - rewrite IH, elem_of_cons. case_bool_decide as Hy.
    + split; [intros [H | H]; auto | intros [H | [-> | H]]; auto].
    + rewrite elem_of_app, list_elem_of_singleton. tauto.
Qed.

Lemma elem_of_unique (l : list string) (x : string) : x ∈ unique l <-> x ∈ l.
Proof.
  unfold unique. rewrite unique_fold_elem. split; [ | auto].
  intros [H | H]; [inversion H | exact H].
Qed.

Lemma unique_fold_NoDup (l acc : list string) :
  NoDup acc ->
  NoDup (foldl (fun seen y => if bool_decide (y ∈ seen) then seen else seen ++ [y]) acc l).
Proof.
  revert acc. induction l as [ | y l IH]; intros acc Hacc; cbn [foldl]; [exact Hacc | ].
  apply IH. case_bool_decide as Hy; [exact Hacc | ].
  apply NoDup_app. split; [exact Hacc | ]. split.
  - intros x Hx Hxy. apply list_elem_of_singleton in Hxy. subst. contradiction.
  - apply NoDup_singleton.
Qed.

Lemma NoDup_unique (l : list string) : NoDup (unique l).
Proof. apply unique_fold_NoDup, NoDup_nil_2. Qed.

Lemma insert_sorted_perm (x : string) (l : list string) : insert_sorted x l ≡ₚ x :: l.
Proof.
  induction l as [ | y l IH]; cbn [insert_sorted]; [reflexivity | ].
  destruct (String.leb x y); [reflexivity | ].
  rewrite IH. apply perm_swap.
Qed.

Lemma sorted_perm (l : list string) : sorted l ≡ₚ l.
Proof.
  induction l as [ | x l IH]; [reflexivity | ].
  change (sorted (x :: l)) with (insert_sorted x (sorted l)).
  rewrite insert_sorted_perm, IH. reflexivity.
Qed.

Lemma insert_sorted_ascending (x : string) (l : list string) :
  Sorted (fun a b => String.leb a b = true) l ->
  Sorted (fun a b => String.leb a b = true) (insert_sorted x l).
Proof.
  induction 1 as [ | y l Hl IH Hhd]; cbn [insert_sorted].
  - repeat constructor.
  - destruct (String.leb x y) eqn:Hxy.
    + constructor; [constructor; assumption | constructor; exact Hxy].
    + constructor; [exact IH | ].
      assert (Hyx : String.leb y x = true)
        by (destruct (String.leb_total x y) as [H | H]; [congruence | exact H]).
      destruct Hhd as [ | z l' Hyz]; cbn [insert_sorted].
      * constructor. exact Hyx.
      * destruct (String.leb x z); constructor; assumption.
Qed.

Lemma sorted_ascending (l : list string) :
  Sorted (fun a b => String.leb a b = true) (sorted l).
Proof.
  induction l as [ | x l IH]; [constructor | ].
  change (sorted (x :: l)) with (insert_sorted x (sorted l)).
  apply insert_sorted_ascending, IH.
Qed.

(** ** Grouping by a key partitions the rows *)

Lemma sum_list_map_add {A} (g h : A -> nat) (l : list A) :
  sum_list (map (fun a => g a + h a) l) = sum_list (map g l) + sum_list (map h l).
Proof. induction l as [ | a l IH]; cbn; [reflexivity | rewrite IH; lia]. Qed.

Lemma indicator_sum (k : string) (keys : list string) :
  NoDup keys ->
  sum_list (map (fun a => if String.eqb k a then 1 else 0) keys)
  = if bool_decide (k ∈ keys) then 1 else 0.
Proof.
  induction 1 as [ | a keys Ha Hnd IH]; [reflexivity | ].
  cbn [map sum_list sum_list_with]. rewrite IH.
  destruct (String.eqb_spec k a) as [-> | Hne].
  - rewrite (bool_decide_eq_false_2 _ Ha).
    rewrite bool_decide_eq_true_2 by left. reflexivity.
  - case_bool_decide as Hin.
    + rewrite bool_decide_eq_true_2 by (right; exact Hin). reflexivity.
    + rewrite bool_decide_eq_false_2; [reflexivity | ].
      intros [-> | H]%elem_of_cons; contradiction.
Qed.

Lemma filter_key_cons {R} (key : R -> string) (a : string) (r : R) (rows : list R) :
  filter (fun r => String.eqb (key r) a) (r :: rows)
  = if String.eqb (key r) a
    then r :: filter (fun r => String.eqb (key r) a) rows
    else filter (fun r => String.eqb (key r) a) rows.
Proof. rewrite filter_cons. destruct (String.eqb (key r) a); reflexivity. Qed.

Lemma count_partition {R} (key : R -> string) (rows : list R) (keys : list string) :
  NoDup keys ->
  (forall r, r ∈ rows -> key r ∈ keys) ->
  sum_list (map (fun a => length (filter (fun r => String.eqb (key r) a) rows)) keys)
  = length rows.
Proof.
  intros Hnd. induction rows as [ | r rows IH]; intros Hcover.
  - cbn [length]. clear. induction keys as [ | a keys IHk]; [reflexivity | ].
    cbn. exact IHk.
  - cbn [length].
    rewrite <- (IH (fun r' Hr' => Hcover r' (list_elem_of_further _ _ _ Hr'))).
    transitivity
      (sum_list
         (map (fun a => (if String.eqb (key r) a then 1 else 0)
                        + length (filter (fun r => String.eqb (key r) a) rows)) keys)).
    + f_equal. apply map_ext. intros a. rewrite filter_key_cons.
      destruct (String.eqb (key r) a); reflexivity.
    + rewrite sum_list_map_add, indicator_sum by exact Hnd.
      rewrite bool_decide_eq_true_2 by (apply Hcover; left). reflexivity.
Qed.

(** ** The final verification of [calculate_top_performers] *)

Lemma first_sort_error_sorted (i : nat) (vals : list Q) :
  first_sort_error i vals = None -> non_increasing vals.
Proof.
  revert i. induction vals as [ | a rest IH]; intros i Hnone j x y Hx Hy.
  - discriminate.
  - destruct rest as [ | b rest']; [destruct j; discriminate | ].
    cbn [first_sort_error] in Hnone.
    destruct (Qlt_le_dec a b) as [Hlt | Hle]; [discriminate | ].
    destruct j as [ | j].
    + cbn in Hx, Hy. injection Hx as <-. injection Hy as <-. exact Hle.
    + cbn in Hx. eapply (IH _ Hnone j); [exact Hx | exact Hy].
Qed.

Lemma non_increasing_le (l : list Q) :
  non_increasing l ->
  forall i j a b, i <= j -> l !! i = Some a -> l !! j = Some b -> (b <= a)%Q.
Proof.
  intros Hni i j a b Hle. revert b. induction Hle as [ | m Hle IH]; intros b Ha Hb.
  - rewrite Ha in Hb. injection Hb as <-. apply Qle_refl.
  - destruct (l !! m) as [c | ] eqn:Hc.
    + eapply Qle_trans; [exact (Hni m c b Hc Hb) | apply IH; [exact Ha | reflexivity]].
    + apply lookup_ge_None in Hc. apply lookup_lt_Some in Hb. lia.
Qed.

Lemma ranked_agents_length (data : list Row) (period : string) :
  length (ranked_agents data period)
  = length (unique (map agent_name
                      (filter (fun r => String.eqb (commission_period r) period) data))).
Proof.
  unfold ranked_agents. rewrite length_map, sort_values_desc_length, length_map.
  reflexivity.
Qed.

Lemma top_performers_no_agent (data : list Row) (n : nat) (period : string) :
  ranked_agents data period = [] ->
  calculate_top_performers data n period = Raise (KeyError_column "total_commission").
Proof.
  intros Hnil. apply (f_equal length) in Hnil.
  unfold ranked_agents in Hnil.
  rewrite length_map, sort_values_desc_length in Hnil.
  unfold calculate_top_performers.
  destruct (map _ (unique _)) as [ | e totals]; [reflexivity | discriminate].
Qed.

Lemma top_performers_ok_conditions (data : list Row) (n : nat) (period : string)
    (result : list Entry) :
  calculate_top_performers data n period = Ok result ->
  ranked_agents data period <> []
  /\ (n <= length (ranked_agents data period)
      \/ Forall (fun e => (0 <= total_commission e)%Q) (ranked_agents data period)).
Proof.
  intros Hok.
  assert (Hne : ranked_agents data period <> []).
  { intros Hnil. rewrite (top_performers_no_agent _ _ _ Hnil) in Hok. discriminate. }
  split; [exact Hne | ].
  rewrite (calculate_top_performers_eq data n period Hne) in Hok. cbv zeta in Hok.
  set (real := ranked_agents data period) in *.
  destruct (first_sort_error 0 (map total_commission (firstn n (fill_to n real))))
    eqn:Hcheck; [discriminate | ].
  apply first_sort_error_sorted in Hcheck.
  destruct (le_lt_dec n (length real)) as [Hle | Hgt]; [left; exact Hle | right].
  apply Forall_lookup. intros i e He.
  assert (Hfill : firstn n (fill_to n real)
                  = real ++ map placeholder (seq (length real) (n - length real))).
  { apply take_ge. unfold fill_to.
    rewrite length_app, length_map, length_seq. lia. }
  rewrite Hfill in Hcheck.
  apply (non_increasing_le _ Hcheck i (length real)).
  - apply lookup_lt_Some in He. lia.
  - rewrite list_lookup_fmap, lookup_app_l by (eapply lookup_lt_Some, He).
    rewrite He. reflexivity.
  - rewrite list_lookup_fmap, lookup_app_r by lia.
    rewrite Nat.sub_diag, list_lookup_fmap, lookup_seq_lt by lia. reflexivity.
Qed.

Lemma insert_desc_perm (e : Entry) (l : list Entry) : insert_desc e l ≡ₚ e :: l.
Proof.
  induction l as [ | h t IH]; cbn [insert_desc]; [reflexivity | ].
  destruct (Qle_bool _ _); [reflexivity | ].
  rewrite IH. apply perm_swap.
Qed.

Lemma sort_values_desc_perm (l : list Entry) : sort_values_desc l ≡ₚ l.
Proof.
  induction l as [ | e l IH]; [reflexivity | ].
  change (sort_values_desc (e :: l)) with (insert_desc e (sort_values_desc l)).
  rewrite insert_desc_perm, IH. reflexivity.
Qed.

Lemma ranked_agents_nil (data : list Row) (period : string) :
  ranked_agents data period = []
  <-> filter (fun r => String.eqb (commission_period r) period) data = [].
Proof.
  set (df := filter _ data).
  rewrite <- !length_zero_iff_nil, ranked_agents_length. fold df.
  rewrite !length_zero_iff_nil. split.
  - intros Hnil. destruct df as [ | r df']; [reflexivity | ].
    assert (H : agent_name r ∈ unique (map agent_name (r :: df')))
      by (apply elem_of_unique; left).
    rewrite Hnil in H. inversion H.
  - intros ->. reflexivity.
Qed.

(** X19. The outcome of [calculate_top_performers], as far as it does not
    depend on the amounts: on a period without a record it raises
    [KeyError]; on a period with records it returns whenever [n] does not
    exceed the number of agents, and what it raises otherwise is the sort
    error of its own final verification. *)
Theorem top_performers_outcome (data : list Row) (n : nat) (period : string) :
  let df := filter (fun r => String.eqb (commission_period r) period) data in
  let agents := unique (map agent_name df) in
  (df = [] ->
   calculate_top_performers data n period = Raise (KeyError_column "total_commission"))
  /\ (df <> [] -> n <= length agents ->
      is_ok (calculate_top_performers data n period) = true)
  /\ (forall e, df <> [] ->
                calculate_top_performers data n period = Raise e ->
                length agents < n /\ exists i, e = ValueError_sort i).
Proof.
  intros df agents.
  assert (Hlen : length (ranked_agents data period) = length agents)
    by apply ranked_agents_length.
  split; [intros Hnil; apply top_performers_no_agent, ranked_agents_nil, Hnil | ].
  split.
  - intros Hne Hn.
    assert (Hreal : ranked_agents data period <> [])
      by (intros H; apply Hne, ranked_agents_nil, H).
    destruct (top_performers_meets_claim data n period Hreal) as (result & -> & _);
      [left; lia | reflexivity].
  - intros e Hne Hraise.
    assert (Hreal : ranked_agents data period <> [])
      by (intros H; apply Hne, ranked_agents_nil, H).
    split.
    + destruct (le_lt_dec n (length agents)) as [Hn | Hn]; [ | exact Hn].
      destruct (top_performers_meets_claim data n period Hreal) as (result & Hok & _);
        [left; lia | ].
      rewrite Hok in Hraise. discriminate.
    + rewrite (calculate_top_performers_eq data n period Hreal) in Hraise.
      cbv zeta in Hraise.
      destruct (first_sort_error 0 _) as [i | ]; [ | discriminate].
      injection Hraise as <-. exists i. reflexivity.
Qed.

Lemma ranked_agents_entry (data : list Row) (period : string) (e : Entry) :
  e ∈ ranked_agents data period ->
  let df := filter (fun r => String.eqb (commission_period r) period) data in
  exists agent,
    agent ∈ unique (map agent_name df)
    /\ e = round_entry (agent_totals df agent).
Proof.
  intros He df. unfold ranked_agents in He. fold df in He.
  apply list_elem_of_fmap in He as (e0 & -> & He0).
  rewrite sort_values_desc_perm in He0.
  apply list_elem_of_fmap in He0 as (agent & -> & Hagent).
  exists agent. split; [exact Hagent | reflexivity].
Qed.

Lemma ranked_agents_names (data : list Row) (period : string) :
  map entry_agent_name (ranked_agents data period)
  ≡ₚ unique (map agent_name
               (filter (fun r => String.eqb (commission_period r) period) data)).
Proof.
  unfold ranked_agents. set (df := filter _ data).
  rewrite map_map. cbn [round_entry entry_agent_name].
  etransitivity; [apply fmap_Permutation, sort_values_desc_perm | ].
  change (fmap (fun e => entry_agent_name e)) with (map (fun e => entry_agent_name e)).
  rewrite map_map. cbn [agent_totals entry_agent_name]. rewrite map_id. reflexivity.
Qed.

(** X20. Whatever [calculate_top_performers] returns has exactly [n]
    entries with totals that never increase.  The entries before the number
    of agents are agents of the period, each once, with the number of its
    records and its carriers, sorted and joined; the entries from there on
    are the placeholders "Agent_{i+1}" with zero figures. *)
Theorem top_performers_result_shape (data : list Row) (n : nat) (period : string)
    (result : list Entry) :
  calculate_top_performers data n period = Ok result ->
  let df := filter (fun r => String.eqb (commission_period r) period) data in
  let agents := unique (map agent_name df) in
  let records_of agent := filter (fun r => String.eqb (agent_name r) agent) df in
  length result = n
  /\ non_increasing (map total_commission result)
  /\ (forall i e,
         i < length agents -> result !! i = Some e ->
         entry_agent_name e ∈ agents
         /\ transaction_count e = length (records_of (entry_agent_name e))
         /\ carriers e
            = join ", " (sorted (unique (map carrier_name
                                           (records_of (entry_agent_name e))))))
  /\ NoDup (map entry_agent_name (firstn (length agents) result))
  /\ (forall i, length agents <= i -> i < n -> result !! i = Some (placeholder i)).
Proof.
  intros Hok df agents records_of.
  destruct (top_performers_ok_conditions _ _ _ _ Hok) as [Hne Hcase].
  destruct (top_performers_meets_claim data n period Hne Hcase)
    as (result' & Hok' & Hlen & Hsorted & Hreal & Hpad).
  rewrite Hok in Hok'. injection Hok' as <-.
  rewrite ranked_agents_length in Hreal, Hpad. fold df agents in Hreal, Hpad.
  split; [exact Hlen | ]. split; [exact Hsorted | ].
  split; [ | split; [ | exact Hpad]].
  - intros i e Hi He.
    assert (Hin : e ∈ ranked_agents data period).
    { assert (Hi' : firstn (length agents) result !! i = Some e)
        by (rewrite lookup_take_lt by exact Hi; exact He).
      rewrite Hreal in Hi'.
      eapply list_elem_of_lookup_2, lookup_take_Some, Hi'. }
    destruct (ranked_agents_entry _ _ _ Hin) as (agent & Hagent & ->).
    cbn [round_entry agent_totals entry_agent_name transaction_count carriers].
    split; [exact Hagent | split; reflexivity].
  - rewrite Hreal, <- firstn_map.
    apply (sublist_NoDup _ (map entry_agent_name (ranked_agents data period)));
      [ | apply sublist_take].
    rewrite ranked_agents_names. apply NoDup_unique.
Qed.

(** ** Summary, carrier statistics and leaderboard agree *)

Lemma period_rows_fmap (data : list MemberRow) (period : string) :
  map row (period_rows data period)
  = filter (fun r => String.eqb (commission_period r) period) (map row data).
Proof.
  unfold period_rows. induction data as [ | r data IH]; [reflexivity | ].
  cbn [map]. rewrite (filter_cons _ r), (filter_cons _ (row r)).
  destruct (decide _) as [H1 | H1]; cbn [map]; rewrite ?IH; reflexivity.
Qed.

Lemma sum_list_perm (l l' : list nat) : l ≡ₚ l' -> sum_list l = sum_list l'.
Proof. induction 1; cbn in *; lia. Qed.

(** X21. The carrier statistics list exactly the carriers of the period
    summary, in the same order: ascending, each carrier once.  No carrier
    is listed without a transaction, and the transaction counts of the
    carriers add up to the summary's number of transactions. *)
Theorem carrier_statistics_match_summary (generated_at : string)
    (data : list MemberRow) (period : string) :
  map stat_carrier_name (get_carrier_statistics data period)
  = summary_carriers (get_period_summary generated_at data period)
  /\ Sorted (fun a b => String.leb a b = true)
       (summary_carriers (get_period_summary generated_at data period))
  /\ NoDup (summary_carriers (get_period_summary generated_at data period))
  /\ Forall (fun s => 1 <= stat_transaction_count s) (get_carrier_statistics data period)
  /\ sum_list (map stat_transaction_count (get_carrier_statistics data period))
     = total_transactions (get_period_summary generated_at data period).
Proof.
  unfold get_carrier_statistics, get_period_summary. cbn [summary_carriers total_transactions].
  set (period_data := period_rows data period).
  set (carriers := sorted (unique (map (fun r => carrier_name (row r)) period_data))).
  assert (Hin : forall c, c ∈ carriers <-> exists r, r ∈ period_data /\ carrier_name (row r) = c).
  { intros c. unfold carriers. rewrite sorted_perm, elem_of_unique, list_elem_of_fmap.
    split; intros (r & H1 & H2); exists r; auto. }
  split; [ | split; [ | split; [ | split]]].
  - rewrite map_map. cbn [carrier_stat stat_carrier_name]. apply map_id.
  - apply sorted_ascending.
  - unfold carriers. rewrite sorted_perm. apply NoDup_unique.
  - apply Forall_fmap, Forall_forall. intros c (r & Hr & Hc)%Hin.
    unfold compose. cbn [carrier_stat stat_transaction_count]. rewrite length_map.
    assert (Hrin : r ∈ filter (fun r => String.eqb (carrier_name (row r)) c) period_data).
    { apply list_elem_of_filter. split; [ | exact Hr].
      rewrite Hc, String.eqb_refl. exact I. }
    destruct (filter _ period_data); [inversion Hrin | cbn; lia].
  - rewrite map_map. cbn [carrier_stat stat_transaction_count].
    erewrite map_ext by (intros c; apply length_map).
    apply (count_partition (fun r => carrier_name (row r))).
    + unfold carriers. rewrite sorted_perm. apply NoDup_unique.
    + intros r Hr. apply Hin. exists r. auto.
Qed.

Lemma ranked_agents_counts (data : list Row) (period : string) :
  sum_list (map transaction_count (ranked_agents data period))
  = length (filter (fun r => String.eqb (commission_period r) period) data).
Proof.
  unfold ranked_agents.
  set (df := filter (fun r => String.eqb (commission_period r) period) data).
  rewrite map_map. cbn [round_entry transaction_count].
  rewrite (sum_list_perm _ _ (fmap_Permutation _ _ _ (sort_values_desc_perm _))).
  change (fmap transaction_count) with (map transaction_count).
  rewrite map_map. cbn [agent_totals transaction_count].
  apply (count_partition agent_name); [apply NoDup_unique | ].
  intros r Hr. apply elem_of_unique, list_elem_of_fmap. exists r. auto.
Qed.

Lemma sum_list_append (l l' : list nat) :
  sum_list (l ++ l') = sum_list l + sum_list l'.
Proof. induction l as [ | x l IH]; cbn in *; lia. Qed.

Lemma placeholders_count_nothing (l : list nat) :
  sum_list (map transaction_count (map placeholder l)) = 0.
Proof. induction l as [ | i l IH]; [reflexivity | exact IH]. Qed.

Lemma unique_agents_ranked (generated_at : string) (data : list MemberRow)
    (period : string) :
  unique_agents (get_period_summary generated_at data period)
  = length (ranked_agents (map row data) period).
Proof.
  unfold get_period_summary. cbn [unique_agents].
  rewrite ranked_agents_length, <- period_rows_fmap, map_map. reflexivity.
Qed.

(** X23. When the leaderboard has room for every agent of the period, the
    transaction counts of its entries add up to the summary's number of
    transactions, the placeholders counting for nothing. *)
Theorem leaderboard_counts_match_summary (generated_at : string)
    (data : list MemberRow) (n : nat) (period : string) (result : list Entry) :
  calculate_top_performers (map row data) n period = Ok result ->
  unique_agents (get_period_summary generated_at data period) <= n ->
  sum_list (map transaction_count result)
  = total_transactions (get_period_summary generated_at data period).
Proof.
  intros Hok Hroom. rewrite unique_agents_ranked in Hroom.
  destruct (top_performers_ok_conditions _ _ _ _ Hok) as [Hne _].
  rewrite (calculate_top_performers_eq _ n period Hne) in Hok. cbv zeta in Hok.
  set (real := ranked_agents (map row data) period) in *.
  destruct (first_sort_error 0 _); [discriminate | ]. injection Hok as <-.
  rewrite take_ge
    by (unfold fill_to; rewrite length_app, length_map, length_seq; lia).
  unfold fill_to. rewrite map_app, sum_list_append, placeholders_count_nothing, Nat.add_0_r.
  unfold real. rewrite ranked_agents_counts, <- period_rows_fmap, length_map.
  reflexivity.
Qed.

(** X24. A period without a record has a summary (all figures zero, no
    carrier) and empty carrier statistics, but no report: the leaderboard
    raises [KeyError] and the report with it. *)
Theorem report_needs_a_record (summary_time report_time : string)
    (data : list MemberRow) (n : nat) (period : string) :
  period_rows data period = [] ->
  get_period_summary summary_time data period
  = MkSummary 0 0 0 0 [] period summary_time
  /\ get_carrier_statistics data period = []
  /\ get_top_performers_report summary_time report_time data n period
     = Raise (KeyError_column "total_commission").
Proof.
  intros Hnone.
  unfold get_period_summary, get_carrier_statistics, get_top_performers_report.
  rewrite Hnone. split; [reflexivity | ]. split; [reflexivity | ].
  rewrite top_performers_no_agent; [reflexivity | ].
  unfold ranked_agents. rewrite <- period_rows_fmap, Hnone. reflexivity.
Qed.

End AnalyzerCoverage.

(* ===================================================================== *)
(** * The commission period read off a file name *)
(* ===================================================================== *)

Section PeriodCoverage.
Import PyStr PyStrFacts Period.

Lemma split_on_nonempty (sep : ascii) (s : string) : split_on sep s <> [].
Proof.
  destruct s as [ | c s]; cbn [split_on]; [discriminate | ].
  destruct (Ascii.eqb c sep); [discriminate | ].
  destruct (split_on sep s); discriminate.
Qed.

Lemma split_on_app (sep : ascii) (a b : string) :
  split_on sep (a +:+ String sep b) = split_on sep a ++ split_on sep b.
Proof.
  induction a as [ | c a IH].
  - rewrite append_nil. cbn [split_on]. rewrite Ascii.eqb_refl. reflexivity.
  - rewrite append_cons. cbn [split_on]. rewrite IH.
    destruct (Ascii.eqb c sep); [reflexivity | ].
    destruct (split_on sep a) as [ | w ws] eqn:Ha; [ | reflexivity].
    exfalso. eapply split_on_nonempty, Ha.
Qed.

Lemma split_on_none (sep : ascii) (s : string) :
  all_chars (fun c => negb (Ascii.eqb c sep)) s = true -> split_on sep s = [s].
Proof.
  induction s as [ | c s IH]; [reflexivity | ].
  cbn [all_chars split_on]. intros [Hc Hs]%andb_prop.
  apply negb_true_iff in Hc. rewrite Hc, (IH Hs). reflexivity.
Qed.

Lemma without_sep (chars : list ascii) (sep : ascii) (s : string) :
  In sep chars ->
  without chars s = true ->
  all_chars (fun c => negb (Ascii.eqb c sep)) s = true.
Proof.
  intros Hin. apply all_chars_impl. intros c Hc.
  apply negb_true_iff in Hc. apply negb_true_iff.
  destruct (Ascii.eqb c sep) eqn:Heq; [ | reflexivity].
  rewrite <- Hc. symmetry. apply existsb_exists. exists sep. auto.
Qed.

Lemma without_app (chars : list ascii) (a b : string) :
  without chars (a +:+ b) = without chars a && without chars b.
Proof. apply all_chars_app. Qed.

Lemma split_on_file_path (dir file_name : string) :
  without ["/"%char] file_name = true ->
  last (split_on "/" (dir +:+ "/" +:+ file_name)) = Some file_name
  /\ last (split_on "/" file_name) = Some file_name.
Proof.
  intros Hname.
  assert (Hsplit : split_on "/" file_name = [file_name])
    by (apply split_on_none, (without_sep ["/"%char]); [left; reflexivity | exact Hname]).
  split; [ | rewrite Hsplit; reflexivity].
  change ("/" +:+ file_name) with (String "/" file_name).
  rewrite split_on_app, Hsplit. apply last_snoc.
Qed.

Lemma parsed_month_year (carrier month year rest : string) :
  without ["/"; " "]%char carrier = true ->
  without ["/"; " "; "."]%char month = true ->
  without ["/"; " "; "."]%char year = true ->
  split_on " " (carrier +:+ " " +:+ month +:+ "." +:+ year +:+ " " +:+ rest) !! 1
  = Some (month +:+ "." +:+ year)
  /\ split_on "." (month +:+ "." +:+ year) = [month; year].
Proof.
  intros Hcarrier Hmonth Hyear.
  change (" " +:+ rest) with (String " " rest).
  change ("." +:+ year +:+ String " " rest) with (String "." (year +:+ String " " rest)).
  change ("." +:+ year) with (String "." year).
  change (" " +:+ month +:+ String "." (year +:+ String " " rest))
    with (String " " (month +:+ String "." (year +:+ String " " rest))).
  split.
  - rewrite split_on_app.
    rewrite (split_on_none " " carrier)
      by (apply (without_sep ["/"; " "]%char); [right; left; reflexivity | exact Hcarrier]).
    replace (month +:+ String "." (year +:+ String " " rest))
      with ((month +:+ String "." year) +:+ String " " rest)
      by (rewrite append_assoc, append_cons; reflexivity).
    rewrite split_on_app, split_on_none; [reflexivity | ].
    rewrite all_chars_app. cbn [all_chars].
    rewrite (without_sep ["/"; " "; "."]%char " " month),
            (without_sep ["/"; " "; "."]%char " " year);
      [reflexivity | | assumption | | assumption]; right; left; reflexivity.
  - rewrite split_on_app.
    rewrite !split_on_none; [reflexivity | | ];
      apply (without_sep ["/"; " "; "."]%char);
      try assumption; right; right; left; reflexivity.
Qed.

(** X25. For a file named as the parsers expect, carrier, a space, month
    "." year, a space and the rest, in any directory, the Centene and the
    Emblem parser both read the period year "-" month, the month filled
    to two digits. *)
Theorem commission_period_of_file_name (dir carrier month year rest : string) :
  without ["/"; " "]%char carrier = true ->
  without ["/"; " "; "."]%char month = true ->
  without ["/"; " "; "."]%char year = true ->
  without ["/"]%char rest = true ->
  let file_name := carrier +:+ " " +:+ month +:+ "." +:+ year +:+ " " +:+ rest in
  centene_get_commission_period (dir +:+ "/" +:+ file_name)
  = year +:+ "-" +:+ zfill2 month
  /\ centene_get_commission_period file_name = year +:+ "-" +:+ zfill2 month
  /\ emblem_get_commission_period (dir +:+ "/" +:+ file_name)
     = year +:+ "-" +:+ zfill2 month
  /\ emblem_get_commission_period file_name = year +:+ "-" +:+ zfill2 month.
Proof.
  intros Hcarrier Hmonth Hyear Hrest file_name.
  assert (Hname : without ["/"%char] file_name = true).
  { unfold file_name. rewrite !without_app.
    assert (Hsub : forall s chars, In "/"%char chars -> without chars s = true ->
                                   without ["/"%char] s = true).
    { intros s chars Hin Hs. unfold without. eapply all_chars_impl.
      2: exact (without_sep chars "/" s Hin Hs).
      intros c Hc. cbn [existsb]. rewrite orb_false_r. exact Hc. }
    rewrite (Hsub carrier ["/"; " "]%char (or_introl eq_refl) Hcarrier),
            (Hsub month ["/"; " "; "."]%char (or_introl eq_refl) Hmonth),
            (Hsub year ["/"; " "; "."]%char (or_introl eq_refl) Hyear), Hrest.
    reflexivity. }
  destruct (split_on_file_path dir file_name Hname) as [Hpath Hbare].
  destruct (parsed_month_year carrier month year rest Hcarrier Hmonth Hyear)
    as [Hpart Hpair].
  fold file_name in Hpart.
  unfold centene_get_commission_period, emblem_get_commission_period.
  rewrite Hpath, Hbare. cbn [mbind option_bind]. rewrite Hpart.
  cbn [mbind option_bind]. rewrite Hpair. cbn [default].
  repeat split; reflexivity.
Qed.

End PeriodCoverage.

(* ===================================================================== *)
(** * The base parser's validation *)
(* ===================================================================== *)

Section BaseParserCoverage.
Import PyStr PyFloat.

Variable to_numeric : cell -> pyfloat.

Lemma validate_data_eq (df : DataFrame) :
  validate_data to_numeric df
  = if forallb (has_column df) required_columns
    then match df !! "commission_amount" with
         | Some ser =>
             Ok (<["commission_amount" :=
                     MkSeries (dtype ser)
                       (map (fun v => if invalid_amount to_numeric v
                                      then VFloat zero else v)
                            (values ser))]> df)
         | None => Raise (KeyError_column "commission_amount")
         end
    else Raise (ValueError_missing_columns
                  (filter (fun c => negb (has_column df c)) required_columns)).
Proof.
  unfold validate_data. cbv zeta.
  destruct (forallb (has_column df) required_columns) eqn:Hall.
  - apply filter_negb_nil in Hall. rewrite Hall. unfold getitem.
    destruct (df !! "commission_amount"); reflexivity.
  - destruct (filter _ required_columns) eqn:Hmissing; [ | reflexivity].
    apply filter_negb_nil in Hmissing. congruence.
Qed.

(** X26. [validate_data] raises exactly when one of the four required
    columns is missing, and what it raises is then a [ValueError]; when
    it does not raise, only the commission_amount column can differ from
    the input. *)
Theorem validate_data_outcome (df : DataFrame) :
  is_ok (validate_data to_numeric df) = forallb (has_column df) required_columns
  /\ match validate_data to_numeric df with
     | Ok out => forall col, col <> "commission_amount" -> out !! col = df !! col
     | Raise e => exn_cls e = ValueError
     end.
Proof.
  rewrite validate_data_eq.
  destruct (forallb (has_column df) required_columns) eqn:Hall; [ | split; reflexivity].
  assert (Hamount : is_Some (df !! "commission_amount")).
  { rewrite forallb_forall in Hall.
    specialize (Hall "commission_amount").
    unfold has_column in Hall. eapply bool_decide_eq_true_1, Hall.
    cbn. tauto. }
  destruct Hamount as [ser ->]. split; [reflexivity | ].
  intros col Hcol. apply lookup_insert_ne. congruence.
Qed.

(** X27. Once [validate_data] has passed, no amount is left that
    [pd.to_numeric] rejects, and validating the frame again changes
    nothing; what is assumed of pandas is that 0.0 is numeric. *)
Theorem validate_data_settles (df out : DataFrame) :
  to_numeric (VFloat zero) = zero ->
  validate_data to_numeric df = Ok out ->
  (exists ser,
      out !! "commission_amount" = Some ser
      /\ Forall (fun v => invalid_amount to_numeric v = false) (values ser))
  /\ validate_data to_numeric out = Ok out.
Proof.
  intros Hzero Hok. rewrite validate_data_eq in Hok.
  destruct (forallb (has_column df) required_columns) eqn:Hall; [ | discriminate].
  destruct (df !! "commission_amount") as [ser | ] eqn:Hser; [ | discriminate].
  injection Hok as <-.
  set (fixed := fun v => if invalid_amount to_numeric v then VFloat zero else v).
  assert (Hvalid : forall v, invalid_amount to_numeric (fixed v) = false).
  { intros v. unfold fixed. destruct (invalid_amount to_numeric v) eqn:Hv; [ | exact Hv].
    unfold invalid_amount. rewrite Hzero. reflexivity. }
  split.
  - eexists. split; [apply lookup_insert_eq | ].
    cbn [values]. apply Forall_fmap, Forall_forall. intros v _. apply Hvalid.
  - rewrite validate_data_eq.
    assert (Hkeep : forallb (has_column (<["commission_amount" :=
                                             MkSeries (dtype ser) (map fixed (values ser))]> df))
                      required_columns = true).
    { rewrite forallb_forall in Hall |- *. intros c Hc. specialize (Hall c Hc).
      unfold has_column in *. apply bool_decide_eq_true_2.
      apply bool_decide_eq_true_1 in Hall.
      destruct (decide (c = "commission_amount")) as [-> | Hne].
      - rewrite lookup_insert_eq. eexists; reflexivity.
      - rewrite lookup_insert_ne by congruence. exact Hall. }
    rewrite Hkeep, lookup_insert_eq. cbn [dtype values].
    rewrite insert_insert_eq. do 3 f_equal.
    rewrite map_map. apply map_ext. intros v.
    fold (fixed v). fold (fixed (fixed v)).
    unfold fixed at 1. rewrite Hvalid. reflexivity.
Qed.

End BaseParserCoverage.

(* ===================================================================== *)
(** * The callers in main.py *)
(* ===================================================================== *)

Section MainCoverage.
Import PyStr Analyzer Spec Main.

Variable to_datetime_strftime : Series -> result Series.
Variable float_repr : Q -> string.

Lemma lookup_foldl_insert (v : Series) (fields : list string) :
  forall (data : DataFrame) (col : string),
    foldl (fun data field => <[field := v]> data) data fields !! col
    = if bool_decide (col ∈ fields) then Some v else data !! col.
Proof.
  induction fields as [ | f fields IH]; intros data col; cbn [foldl].
  - rewrite bool_decide_eq_false_2; [reflexivity | ]. intros H. inversion H.
  - rewrite IH. case_bool_decide as Hin.
    + rewrite bool_decide_eq_true_2 by (right; exact Hin). reflexivity.
    + destruct (decide (col = f)) as [-> | Hne].
      * rewrite lookup_insert_eq, bool_decide_eq_true_2 by left. reflexivity.
      * rewrite lookup_insert_ne by congruence.
        rewrite bool_decide_eq_false_2; [reflexivity | ].
        intros [-> | H]%elem_of_cons; contradiction.
Qed.

Lemma lookup_ensure_required_fields (rows : nat) (df : DataFrame) (col : string) :
  ensure_required_fields rows df !! col
  = match df !! col with
    | Some ser => Some ser
    | None => if bool_decide (col ∈ required_fields)
              then Some (none_column rows) else None
    end.
Proof.
  unfold ensure_required_fields. cbv zeta. rewrite lookup_foldl_insert.
  fold required_fields.
  destruct (df !! col) as [ser | ] eqn:Hcol.
  - rewrite bool_decide_eq_false_2; [reflexivity | ].
    intros [Hmissing _]%list_elem_of_filter.
    unfold has_column in Hmissing. rewrite Hcol in Hmissing.
    rewrite bool_decide_eq_true_2 in Hmissing by (eexists; reflexivity).
    exact Hmissing.
  - destruct (decide (col ∈ required_fields)) as [Hreq | Hreq].
    + rewrite (bool_decide_eq_true_2 (col ∈ required_fields)) by exact Hreq.
      rewrite bool_decide_eq_true_2; [reflexivity | ].
      apply list_elem_of_filter. split; [ | exact Hreq].
      unfold has_column. rewrite Hcol.
      rewrite bool_decide_eq_false_2 by (intros [? [=]]). exact I.
    + rewrite (bool_decide_eq_false_2 (col ∈ required_fields)) by exact Hreq.
      rewrite bool_decide_eq_false_2; [reflexivity | ].
      intros [_ H]%list_elem_of_filter. contradiction.
Qed.

(** X28. [process_data_normalization] adds every missing required field
    as a column of [None] before it builds the normalizer: a column that
    is there is kept, a missing required one appears, nothing else is
    added.  So the normalizer it runs never fails for a missing field; it
    fails exactly when the [.str] accessor is refused on the
    transaction-type column. *)
Theorem ensured_frame_normalizes (rows : nat) (df : DataFrame) :
  (forall col,
      ensure_required_fields rows df !! col
      = match df !! col with
        | Some ser => Some ser
        | None => if bool_decide (col ∈ required_fields)
                  then Some (none_column rows) else None
        end)
  /\ is_ok (run_normalizer to_datetime_strftime float_repr
              (ensure_required_fields rows df))
     = match df !! "transaction_type" with
       | Some ser => str_accessor_ok ser
       | None => true
       end.
Proof.
  split; [intros col; apply lookup_ensure_required_fields | ].
  rewrite run_normalizer_eq, normalize_ok_iff_accepted. unfold accepted.
  assert (Hall : forallb (has_column (ensure_required_fields rows df)) required_fields
                 = true).
  { apply forallb_forall. intros f Hf. apply list_elem_of_In in Hf.
    unfold has_column. apply bool_decide_eq_true_2.
    rewrite lookup_ensure_required_fields.
    destruct (df !! f); [eexists; reflexivity | ].
    rewrite bool_decide_eq_true_2 by exact Hf. eexists; reflexivity. }
  rewrite Hall, lookup_ensure_required_fields. cbn [andb].
  destruct (df !! "transaction_type"); reflexivity.
Qed.



End MainCoverage.

(* ===================================================================== *)
(** * The further properties at sample data *)
(* ===================================================================== *)

Import Samples.

(** X2 at the one-record batch. *)
Lemma normalize_keeps_shape_witness :
  normalize iso_dates_only fixed_repr missing_amount_batch
  = Ok (normalized_frame iso_dates_only fixed_repr missing_amount_batch)
  /\ (forall col,
         has_column (normalized_frame iso_dates_only fixed_repr missing_amount_batch) col
         = has_column missing_amount_batch col)
  /\ (forall col ser,
         col ∉ date_columns -> missing_amount_batch !! col = Some ser ->
         exists ser',
           normalized_frame iso_dates_only fixed_repr missing_amount_batch !! col
           = Some ser'
           /\ length (values ser') = length (values ser)).
Proof.
  assert (H : normalize iso_dates_only fixed_repr missing_amount_batch
              = Ok (normalized_frame iso_dates_only fixed_repr missing_amount_batch)).
  { apply normalize_accepted. vm_compute. reflexivity. }
  exact (conj H (normalize_keeps_shape _ _ _ _ H)).
Defined.

(** X3 at the one-record batch and its carrier column. *)
Lemma normalize_leaves_other_columns_witness :
  normalize iso_dates_only fixed_repr missing_amount_batch
  = Ok (normalized_frame iso_dates_only fixed_repr missing_amount_batch)
  /\ normalized_frame iso_dates_only fixed_repr missing_amount_batch !! "carrier_name"
     = missing_amount_batch !! "carrier_name".
Proof.
  assert (H : normalize iso_dates_only fixed_repr missing_amount_batch
              = Ok (normalized_frame iso_dates_only fixed_repr missing_amount_batch)).
  { apply normalize_accepted. vm_compute. reflexivity. }
  split; [exact H | ].
  apply (normalize_leaves_other_columns _ _ _ _ "carrier_name" H).
  right. apply list_elem_of_In. simpl. tauto.
Defined.

(** X4 at the one-record batch. *)
Lemma normalized_amounts_are_numbers_witness :
  normalize iso_dates_only fixed_repr missing_amount_batch
  = Ok (normalized_frame iso_dates_only fixed_repr missing_amount_batch)
  /\ exists ser,
       normalized_frame iso_dates_only fixed_repr missing_amount_batch
         !! "commission_amount" = Some ser
       /\ dtype ser = float64
       /\ Forall (fun v => is_str_cell v = false /\ isna v = false) (values ser).
Proof.
  assert (H : normalize iso_dates_only fixed_repr missing_amount_batch
              = Ok (normalized_frame iso_dates_only fixed_repr missing_amount_batch)).
  { apply normalize_accepted. vm_compute. reflexivity. }
  exact (conj H (normalized_amounts_are_numbers _ _ _ _ H)).
Defined.

(** X6 at the batch without its carrier column. *)
Lemma run_normalizer_errors_witness :
  run_normalizer iso_dates_only fixed_repr batch_without_carrier
  = Raise (NormalizationError (ValueError_missing ["carrier_name"]))
  /\ ((exn_cls (NormalizationError (ValueError_missing ["carrier_name"])) = KeyError
       /\ (has_column batch_without_carrier "agent_name"
           && has_column batch_without_carrier "commission_amount" = false))
      \/ (has_column batch_without_carrier "agent_name"
          && has_column batch_without_carrier "commission_amount" = true
          /\ (NormalizationError (ValueError_missing ["carrier_name"])
              = NormalizationError AttributeError_str
              \/ exists missing,
                   NormalizationError (ValueError_missing ["carrier_name"])
                   = NormalizationError (ValueError_missing missing)
                   /\ missing <> []
                   /\ missing ⊆ ["carrier_name"; "commission_period"]))).
Proof.
  assert (H : run_normalizer iso_dates_only fixed_repr batch_without_carrier
              = Raise (NormalizationError (ValueError_missing ["carrier_name"])))
    by (vm_compute; reflexivity).
  exact (conj H (run_normalizer_errors _ _ _ _ H)).
Defined.

(** X7 at a name with stray whitespace and capitals. *)
Lemma clean_name_normal_form_witness :
  ascii_cell (VStr "  john   SMITH ") = true
  /\ clean_name fixed_repr (VStr "  john   SMITH ") = "John Smith"
  /\ strip (clean_name fixed_repr (VStr "  john   SMITH "))
     = clean_name fixed_repr (VStr "  john   SMITH ")
  /\ Forall (fun word => capitalize word = word)
            (split (clean_name fixed_repr (VStr "  john   SMITH "))).
Proof.
  assert (Hascii : ascii_cell (VStr "  john   SMITH ") = true) by reflexivity.
  destruct (clean_name_normal_form fixed_repr _ Hascii) as (_ & Hstrip & _ & Hwords).
  split; [exact Hascii | ]. split; [vm_compute; reflexivity | ].
  split; [exact Hstrip | exact Hwords].
Defined.

(** X12 at a record without a producer name. *)
Lemma healthfirst_names_are_normalized_witness :
  ascii_cell VNone = true
  /\ ascii_cell (VStr "general  AGENCY") = true
  /\ healthfirst_agent_name fixed_repr VNone (VStr "general  AGENCY") = "General Agency"
  /\ clean_name fixed_repr
       (VStr (healthfirst_agent_name fixed_repr VNone (VStr "general  AGENCY")))
     = healthfirst_agent_name fixed_repr VNone (VStr "general  AGENCY").
Proof.
  assert (H1 : ascii_cell VNone = true) by reflexivity.
  assert (H2 : ascii_cell (VStr "general  AGENCY") = true) by reflexivity.
  destruct (healthfirst_names_are_normalized fixed_repr _ _ H1 H2) as [_ Hfix].
  split; [exact H1 | ]. split; [exact H2 | ].
  split; [vm_compute; reflexivity | exact Hfix].
Defined.

(** X11 at the amount "$(1,234.50)". *)
Lemma parser_cleaners_written_witness :
  well_formed written_1234_50
  /\ centene_clean_commission_amount (VStr (render written_1234_50))
     = Ok (FFin (Qred (written_value written_1234_50)))
  /\ emblem_clean_commission_amount (VStr (render written_1234_50))
     = Ok (FFin (Qred (written_value written_1234_50)))
  /\ healthfirst_clean_commission_amount (VStr (render written_1234_50))
     = Ok (FFin (Qred (written_value written_1234_50))).
Proof.
  assert (Hwf : well_formed written_1234_50).
  { unfold well_formed, written_1234_50. cbn.
    split; [discriminate | ]. split.
    - repeat constructor; try discriminate; lia.
    - repeat constructor; lia. }
  exact (conj Hwf (parser_cleaners_written _ Hwf)).
Defined.

(** X15 at two spellings of one name. *)
Lemma are_similar_names_threshold_witness :
  (1 # 2 <= 17 # 20)%Q
  /\ are_similar_names fixed_repr no_ratio
       (VStr "John Smith") (VStr "john  smith") (17 # 20) = true
  /\ are_similar_names fixed_repr no_ratio
       (VStr "John Smith") (VStr "john  smith") (1 # 2) = true.
Proof.
  assert (Hle : (1 # 2 <= 17 # 20)%Q) by (unfold Qle; simpl; lia).
  assert (Hhigh : are_similar_names fixed_repr no_ratio
                    (VStr "John Smith") (VStr "john  smith") (17 # 20) = true)
    by (vm_compute; reflexivity).
  split; [exact Hle | ]. split; [exact Hhigh | ].
  exact (are_similar_names_threshold fixed_repr no_ratio _ _ _ _ Hle Hhigh).
Defined.

(** X18 for sets listed in the order of [elements]. *)
Lemma group_similar_names_partition_witness :
  (forall X : gset string, listed X ≡ₚ elements X)
  /\ (forall name,
         name ∈ ["John Smith"; "john smith"; "Jane Doe"] ->
         exists canonical members,
           group_similar_names fixed_repr no_ratio listed
             ["John Smith"; "john smith"; "Jane Doe"] (17 # 20) !! canonical
           = Some members
           /\ name ∈ members).
Proof.
  assert (Horder : forall X : gset string, listed X ≡ₚ elements X)
    by (intros X; reflexivity).
  split; [exact Horder | ].
  exact (proj1 (group_similar_names_partition fixed_repr no_ratio listed Horder
                  ["John Smith"; "john smith"; "Jane Doe"] (17 # 20))).
Defined.

(** X20 at the scenario batch, four entries asked. *)
Lemma top_performers_result_shape_witness :
  exists result,
    Analyzer.calculate_top_performers scenario_batch 4 "2024-06" = Ok result
    /\ length result = 4
    /\ non_increasing (map Analyzer.total_commission result)
    /\ NoDup (map Analyzer.entry_agent_name (firstn 2 result))
    /\ result !! 3 = Some (Analyzer.placeholder 3).
Proof.
  eexists. split; [exact scenario_padded | ].
  destruct (top_performers_result_shape _ _ _ _ scenario_padded)
    as (Hlen & Hsorted & _ & Hnames & Hpad).
  split; [exact Hlen | ]. split; [exact Hsorted | ].
  split; [exact Hnames | ].
  apply Hpad; vm_compute; lia.
Defined.

(** X23 at the scenario batch with member ids. *)
Lemma leaderboard_counts_match_summary_witness :
  exists result,
    Analyzer.calculate_top_performers (map Reports.row member_batch) 4 "2024-06"
    = Ok result
    /\ Reports.unique_agents (Reports.get_period_summary "now" member_batch "2024-06") <= 4
    /\ sum_list (map Analyzer.transaction_count result)
       = Reports.total_transactions
           (Reports.get_period_summary "now" member_batch "2024-06").
Proof.
  eexists.
  assert (Hroom : Reports.unique_agents
                    (Reports.get_period_summary "now" member_batch "2024-06") <= 4)
    by (vm_compute; lia).
  split; [exact scenario_padded | ]. split; [exact Hroom | ].
  exact (leaderboard_counts_match_summary "now" member_batch 4 "2024-06" _
           scenario_padded Hroom).
Defined.

(** X24 at a period the scenario batch has no record of. *)
Lemma report_needs_a_record_witness :
  Reports.period_rows member_batch "2024-07" = []
  /\ Reports.get_period_summary "now" member_batch "2024-07"
     = Reports.MkSummary 0 0 0 0 [] "2024-07" "now"
  /\ Reports.get_carrier_statistics member_batch "2024-07" = []
  /\ Reports.get_top_performers_report "now" "later" member_batch 10 "2024-07"
     = Raise (KeyError_column "total_commission").
Proof.
  assert (Hnone : Reports.period_rows member_batch "2024-07" = []) by reflexivity.
  exact (conj Hnone (report_needs_a_record "now" "later" member_batch 10 "2024-07" Hnone)).
Defined.

(** X25 at the Centene file that [main.py] reads. *)
Lemma commission_period_of_file_name_witness :
  Period.without ["/"; " "]%char "Centene" = true
  /\ Period.without ["/"; " "; "."]%char "06" = true
  /\ Period.without ["/"; " "; "."]%char "2024" = true
  /\ Period.without ["/"]%char "Commission.xlsx" = true
  /\ Period.centene_get_commission_period "data/raw/Centene 06.2024 Commission.xlsx"
     = "2024-06".
Proof.
  repeat (split; [reflexivity | ]).
  exact (proj1 (commission_period_of_file_name
                  "data/raw" "Centene" "06" "2024" "Commission.xlsx"
                  eq_refl eq_refl eq_refl eq_refl)).
Defined.

(** X27 at the one-record batch, whose amount is NaN. *)
Lemma validate_data_settles_witness :
  floats_only (VFloat zero) = zero
  /\ validate_data floats_only missing_amount_batch
     = Ok (<["commission_amount" := MkSeries float64 [VFloat zero]]> missing_amount_batch)
  /\ (exists ser,
        <["commission_amount" := MkSeries float64 [VFloat zero]]> missing_amount_batch
          !! "commission_amount" = Some ser
        /\ Forall (fun v => invalid_amount floats_only v = false) (values ser))
  /\ validate_data floats_only
       (<["commission_amount" := MkSeries float64 [VFloat zero]]> missing_amount_batch)
     = Ok (<["commission_amount" := MkSeries float64 [VFloat zero]]> missing_amount_batch).
Proof.
  assert (Hzero : floats_only (VFloat zero) = zero) by reflexivity.
  assert (Hok : validate_data floats_only missing_amount_batch
                = Ok (<["commission_amount" := MkSeries float64 [VFloat zero]]>
                        missing_amount_batch))
    by (vm_compute; reflexivity).
  split; [exact Hzero | ]. split; [exact Hok | ].
  exact (validate_data_settles floats_only _ _ Hzero Hok).
Defined.
